(** * Session registry, rooms and broadcast of the WebSocket fan-out server

    A shallow embedding of [WebSocketHandler] (src/lib/alert/alertManager.js,
    lines 286-1274): the connection handler, the message router and its
    handlers, the heartbeat, the room registry, the two broadcast functions
    and the bridge to the storage collaborator.

    The handler is a JavaScript object driven by callbacks of a single event
    loop.  It is embedded as a record of its fields ([state]) and one function
    per method, each taking the state before the call to the state after it;
    the callbacks registered with the transport, the timers and the storage
    layer become the constructors of [event], and [step] runs the callback an
    event stands for.  Everything the handler does to the outside world
    (frames written, sockets closed, storage calls issued, notifications to
    the hosting window) is appended to [trace]. *)

From Stdlib Require Import ZArith.
From stdpp Require Import gmap strings list pretty.

Open Scope string_scope.
Open Scope list_scope.
Set Warnings "-register-all".

(** ** Decoded JSON values and the JavaScript operations applied to them *)

Module JS.

(** What [JSON.parse] yields.  Numbers are restricted to integers; an object
    is the list of its own properties. *)
Inductive json : Type :=
| JNull
| JBool (b : bool)
| JNum (z : Z)
| JStr (s : string)
| JArr (items : list json)
| JObj (fields : list (string * json)).

(** The result of a property read [v[name]]: [undefined], a value stored in the
    object itself, or a member found on the prototype chain (a built-in
    function or the prototype object, never [null], never blank). *)
Inductive prop : Type :=
| Undefined
| Inherited
| Own (v : json).

(** [!!v] *)
Definition truthy (v : json) : bool :=
  match v with
  | JNull => false
  | JBool b => b
  | JNum z => negb (z =? 0)%Z
  | JStr s => negb (String.eqb s "")
  | JArr _ | JObj _ => true
  end.

Definition prop_truthy (p : prop) : bool :=
  match p with
  | Undefined => false
  | Inherited => true
  | Own v => truthy v
  end.

(** [typeof v === 'object'] *)
Definition typeof_object (v : json) : bool :=
  match v with
  | JNull | JArr _ | JObj _ => true
  | JBool _ | JNum _ | JStr _ => false
  end.

Fixpoint join (sep : string) (parts : list string) : string :=
  match parts with
  | [] => ""
  | [p] => p
  | p :: rest => p +:+ sep +:+ join sep rest
  end.

(** [String(v)]: an array is its elements joined by commas, with [null]
    elements rendered empty. *)
Fixpoint js_String (v : json) : string :=
  match v with
  | JNull => "null"
  | JBool true => "true"
  | JBool false => "false"
  | JNum z => pretty z
  | JStr s => s
  | JArr items =>
      join "," (List.map (fun e => match e with
                                   | JNull => ""
                                   | _ => js_String e
                                   end) items)
  | JObj _ => "[object Object]"
  end.

(** White space and line terminators among the code units below 256. *)
Definition is_white_space (a : Ascii.ascii) : bool :=
  let n := Ascii.nat_of_ascii a in
  Nat.eqb n 9 || Nat.eqb n 10 || Nat.eqb n 11 || Nat.eqb n 12 || Nat.eqb n 13
  || Nat.eqb n 32 || Nat.eqb n 160.

Fixpoint trimStart (s : string) : string :=
  match s with
  | EmptyString => EmptyString
  | String a rest => if is_white_space a then trimStart rest else s
  end.

Definition trimEnd (s : string) : string :=
  String.rev (trimStart (String.rev s)).

(** [s.trim()] *)
Definition trim (s : string) : string := trimEnd (trimStart s).

(** Names every object inherits from [Object.prototype]. *)
Definition object_prototype_keys : list string :=
  [ "constructor"; "__defineGetter__"; "__defineSetter__"; "hasOwnProperty";
    "__lookupGetter__"; "__lookupSetter__"; "isPrototypeOf";
    "propertyIsEnumerable"; "toString"; "valueOf"; "__proto__";
    "toLocaleString" ].

(** Names an array inherits from [Array.prototype]. *)
Definition array_prototype_keys : list string :=
  [ "at"; "concat"; "copyWithin"; "fill"; "find"; "findIndex"; "findLast";
    "findLastIndex"; "lastIndexOf"; "pop"; "push"; "reverse"; "shift";
    "unshift"; "slice"; "sort"; "splice"; "includes"; "indexOf"; "join";
    "keys"; "entries"; "values"; "forEach"; "filter"; "flat"; "flatMap";
    "map"; "every"; "some"; "reduce"; "reduceRight"; "toReversed";
    "toSorted"; "toSpliced"; "with" ].

Fixpoint own_property (fields : list (string * json)) (name : string)
  : option json :=
  match fields with
  | [] => None
  | (k, v) :: rest =>
      if String.eqb k name then Some v else own_property rest name
  end.

(** Element [i] of an array is its property named by the decimal form of [i]. *)
Fixpoint array_element (i : nat) (items : list json) (name : string)
  : option json :=
  match items with
  | [] => None
  | v :: rest =>
      if String.eqb (pretty i) name then Some v
      else array_element (S i) rest name
  end.

(** [v[name]] for [v] other than [null].  The prototype of an array, which
    [__proto__] reads, is itself an empty array.  The handlers read arbitrary
    names only from values of type object; from a primitive they read the
    fixed names [data], [payload], [table], [filters], [roomId], ..., which
    no wrapper prototype defines. *)
Definition js_get (v : json) (name : string) : prop :=
  match v with
  | JObj fields =>
      match own_property fields name with
      | Some x => Own x
      | None =>
          if bool_decide (name ∈ object_prototype_keys) then Inherited
          else Undefined
      end
  | JArr items =>
      match array_element 0 items name with
      | Some x => Own x
      | None =>
          if String.eqb name "length" then Own (JNum (Z.of_nat (length items)))
          else if String.eqb name "__proto__" then Own (JArr [])
          else if bool_decide
                    (name ∈ array_prototype_keys ++ object_prototype_keys)
               then Inherited
               else Undefined
      end
  | JNull | JBool _ | JNum _ | JStr _ => Undefined
  end.

(** Key comparison of [Map]: by value on primitives, by reference on objects
    and arrays.  Two values decoded from different frames are never the same
    reference. *)
Definition sameValueZero (a b : json) : bool :=
  match a, b with
  | JNull, JNull => true
  | JBool x, JBool y => Bool.eqb x y
  | JNum x, JNum y => (x =? y)%Z
  | JStr x, JStr y => String.eqb x y
  | _, _ => false
  end.

(** [a === b] for a property read against a string or [null] constant. *)
Definition strict_equal_string (p : prop) (s : option string) : bool :=
  match p, s with
  | Own (JStr x), Some y => String.eqb x y
  | Own JNull, None => true
  | _, _ => false
  end.

(** An object literal; a member whose value is [undefined] is dropped when
    the frame is serialised. *)
Fixpoint literal (members : list (string * prop)) : list (string * json) :=
  match members with
  | [] => []
  | (k, Own v) :: rest => (k, v) :: literal rest
  | (_, _) :: rest => literal rest
  end.

(** Assignment [o[k] = v] on the own properties. *)
Fixpoint assign (k : string) (v : json) (fields : list (string * json))
  : list (string * json) :=
  match fields with
  | [] => [(k, v)]
  | (k', v') :: rest =>
      if String.eqb k' k then (k, v) :: rest else (k', v') :: assign k v rest
  end.

Fixpoint indexed (i : nat) (items : list json) : list (string * json) :=
  match items with
  | [] => []
  | v :: rest => (pretty i, v) :: indexed (S i) rest
  end.

(** The own enumerable properties copied by a spread [{...v}]; a spread
    string (its characters by index) is not modelled. *)
Definition spread (v : json) : list (string * json) :=
  match v with
  | JObj fields => fields
  | JArr items => indexed 0 items
  | JNull | JBool _ | JNum _ | JStr _ => []
  end.

End JS.
Export JS.

(** ** Configuration, sessions, transports and rooms *)

(** [this.config]; [logLevel] only steers the console output, which is not
    modelled. *)
Record Config : Type := {
  port : Z;
  host : string;
  enableAuthentication : bool;
  authToken : option string;           (* [None] is [null] *)
  dbTableName : string;
  requiredFields : list string;
  fieldsToEncrypt : list string;
  enableHeartbeat : bool;
  heartbeatInterval : Z;
  maxConnections : Z;
  enableDataValidation : bool;
  enableDatabaseSync : bool;
  enableRoomBroadcast : bool
}.

(** What the handler asks of [this.db]: whether the optional methods exist,
    and whether a call of [subscribe] throws (with which message). *)
Record Database : Type := {
  has_subscribe : bool;
  has_deleteData : bool;
  subscribe_error : json -> prop -> option string
}.

(** The [clientData] object created at accept time.  It is shared by the
    [clients] map and by the closures registered on the socket. *)
Record ClientData : Type := {
  id : string;
  ip : string;
  userAgent : string;
  connectedAt : Z;
  lastHeartbeat : Z;
  isAuthenticated : bool;
  dataReceived : Z;
  lastDataTime : option Z
}.

Inductive ReadyState : Type := CONNECTING | OPEN | CLOSING | CLOSED.

(** A transport object [ws] as the handler sees it.  [session] is the
    [clientData] captured by the listeners of the socket ([None] while no
    listener is attached), [heartbeatTimer] tells whether its interval is
    active, [authTimers] counts the pending close timers, and [sendThrows]
    is the environment's choice of whether [ws.send] throws. *)
Record Socket : Type := {
  readyState : ReadyState;
  sendThrows : bool;
  session : option ClientData;
  heartbeatTimer : bool;
  authTimers : nat
}.

(** A value of [this.rooms]; [clients] is a [Set] of session identities in
    insertion order. *)
Record Room : Type := {
  members : list string;
  roomTable : prop;
  roomFilters : prop;
  createdAt : Z
}.

Inductive db_call : Type :=
| PostData (table data : json)
| GetDataByFilters (table filters options : json)
| UpdateData (table data whereClause whereParams : json)
| DeleteData (table whereClause whereParams : json)
| DeleteWhere (table whereClause : json).

Inductive db_outcome : Type :=
| Resolved (result : json)
| Rejected (message : string).

(** The rest of an [async] handler after its [await]. *)
Inductive continuation : Type :=
| AfterSave (ws : nat) (data : json)
| AfterCreate (ws : nat) (table : json)
| AfterRead (ws : nat) (table : json)
| AfterUpdate (ws : nat) (table data : json) (whereClause whereParams : prop)
| AfterDelete (ws : nat) (table : json) (whereClause whereParams : prop).

(** What the handler does to its collaborators. *)
Inductive effect : Type :=
| Send (ws : nat) (frame : json)            (* [ws.send] returned *)
| SendError (ws : nat) (frame : json)   (* [ws.send] threw; caught, logged *)
| Close (ws : nat) (code : Z) (reason : string)
| Ping (ws : nat)
| Renderer (channel : string) (payload : json)
| DbCall (request : nat) (call : db_call)
| DbSubscribe (table : json) (filters : prop) (feed : nat)
| DbCancel (feed : nat).

(** The fields of the handler, the objects it shares with its callbacks and
    the clock. *)
Record state : Type := {
  config : Config;
  db : Database;
  mainWindow : bool;                    (* a window with [webContents] *)
  isRunning : bool;
  clients : list nat;               (* keys of the map, in insertion order *)
  sockets : gmap nat Socket;
  rooms : list (json * Room);
  dbSubscriptions : gmap string nat;  (* room id to the feed's cancel handle *)
  connectionCount : Z;
  feeds : gmap nat (string * json);     (* live change-feed callbacks *)
  nextFeed : nat;
  pending : gmap nat continuation;      (* storage calls awaited *)
  nextRequest : nat;
  now : Z;
  trace : list effect
}.

Definition set_isRunning (b : bool) (st : state) : state :=
  {| config := config st; db := db st; mainWindow := mainWindow st;
     isRunning := b; clients := clients st; sockets := sockets st;
     rooms := rooms st; dbSubscriptions := dbSubscriptions st;
     connectionCount := connectionCount st; feeds := feeds st;
     nextFeed := nextFeed st; pending := pending st;
     nextRequest := nextRequest st; now := now st; trace := trace st |}.

Definition set_clients (l : list nat) (st : state) : state :=
  {| config := config st; db := db st; mainWindow := mainWindow st;
     isRunning := isRunning st; clients := l; sockets := sockets st;
     rooms := rooms st; dbSubscriptions := dbSubscriptions st;
     connectionCount := connectionCount st; feeds := feeds st;
     nextFeed := nextFeed st; pending := pending st;
     nextRequest := nextRequest st; now := now st; trace := trace st |}.

Definition set_sockets (m : gmap nat Socket) (st : state) : state :=
  {| config := config st; db := db st; mainWindow := mainWindow st;
     isRunning := isRunning st; clients := clients st; sockets := m;
     rooms := rooms st; dbSubscriptions := dbSubscriptions st;
     connectionCount := connectionCount st; feeds := feeds st;
     nextFeed := nextFeed st; pending := pending st;
     nextRequest := nextRequest st; now := now st; trace := trace st |}.

Definition set_rooms (r : list (json * Room)) (st : state) : state :=
  {| config := config st; db := db st; mainWindow := mainWindow st;
     isRunning := isRunning st; clients := clients st; sockets := sockets st;
     rooms := r; dbSubscriptions := dbSubscriptions st;
     connectionCount := connectionCount st; feeds := feeds st;
     nextFeed := nextFeed st; pending := pending st;
     nextRequest := nextRequest st; now := now st; trace := trace st |}.

Definition set_dbSubscriptions (m : gmap string nat) (st : state) : state :=
  {| config := config st; db := db st; mainWindow := mainWindow st;
     isRunning := isRunning st; clients := clients st; sockets := sockets st;
     rooms := rooms st; dbSubscriptions := m;
     connectionCount := connectionCount st; feeds := feeds st;
     nextFeed := nextFeed st; pending := pending st;
     nextRequest := nextRequest st; now := now st; trace := trace st |}.

Definition set_connectionCount (n : Z) (st : state) : state :=
  {| config := config st; db := db st; mainWindow := mainWindow st;
     isRunning := isRunning st; clients := clients st; sockets := sockets st;
     rooms := rooms st; dbSubscriptions := dbSubscriptions st;
     connectionCount := n; feeds := feeds st;
     nextFeed := nextFeed st; pending := pending st;
     nextRequest := nextRequest st; now := now st; trace := trace st |}.

Definition set_feeds (m : gmap nat (string * json)) (n : nat) (st : state)
  : state :=
  {| config := config st; db := db st; mainWindow := mainWindow st;
     isRunning := isRunning st; clients := clients st; sockets := sockets st;
     rooms := rooms st; dbSubscriptions := dbSubscriptions st;
     connectionCount := connectionCount st; feeds := m;
     nextFeed := n; pending := pending st;
     nextRequest := nextRequest st; now := now st; trace := trace st |}.

Definition set_pending (m : gmap nat continuation) (n : nat) (st : state)
  : state :=
  {| config := config st; db := db st; mainWindow := mainWindow st;
     isRunning := isRunning st; clients := clients st; sockets := sockets st;
     rooms := rooms st; dbSubscriptions := dbSubscriptions st;
     connectionCount := connectionCount st; feeds := feeds st;
     nextFeed := nextFeed st; pending := m;
     nextRequest := n; now := now st; trace := trace st |}.

Definition set_now (t : Z) (st : state) : state :=
  {| config := config st; db := db st; mainWindow := mainWindow st;
     isRunning := isRunning st; clients := clients st; sockets := sockets st;
     rooms := rooms st; dbSubscriptions := dbSubscriptions st;
     connectionCount := connectionCount st; feeds := feeds st;
     nextFeed := nextFeed st; pending := pending st;
     nextRequest := nextRequest st; now := t; trace := trace st |}.

Definition set_trace (l : list effect) (st : state) : state :=
  {| config := config st; db := db st; mainWindow := mainWindow st;
     isRunning := isRunning st; clients := clients st; sockets := sockets st;
     rooms := rooms st; dbSubscriptions := dbSubscriptions st;
     connectionCount := connectionCount st; feeds := feeds st;
     nextFeed := nextFeed st; pending := pending st;
     nextRequest := nextRequest st; now := now st; trace := l |}.

Definition set_readyState (r : ReadyState) (s : Socket) : Socket :=
  {| readyState := r; sendThrows := sendThrows s; session := session s;
     heartbeatTimer := heartbeatTimer s; authTimers := authTimers s |}.

Definition set_sendThrows (b : bool) (s : Socket) : Socket :=
  {| readyState := readyState s; sendThrows := b; session := session s;
     heartbeatTimer := heartbeatTimer s; authTimers := authTimers s |}.

Definition set_session (c : option ClientData) (s : Socket) : Socket :=
  {| readyState := readyState s; sendThrows := sendThrows s; session := c;
     heartbeatTimer := heartbeatTimer s; authTimers := authTimers s |}.

Definition set_heartbeatTimer (b : bool) (s : Socket) : Socket :=
  {| readyState := readyState s; sendThrows := sendThrows s;
     session := session s; heartbeatTimer := b; authTimers := authTimers s |}.

Definition set_authTimers (n : nat) (s : Socket) : Socket :=
  {| readyState := readyState s; sendThrows := sendThrows s;
     session := session s; heartbeatTimer := heartbeatTimer s;
     authTimers := n |}.

Definition set_members (l : list string) (r : Room) : Room :=
  {| members := l; roomTable := roomTable r; roomFilters := roomFilters r;
     createdAt := createdAt r |}.

Definition emit (e : effect) (st : state) : state :=
  set_trace (trace st ++ [e]) st.

Definition alter_socket (f : Socket -> Socket) (ws : nat) (st : state)
  : state :=
  set_sockets (alter f ws (sockets st)) st.

(** The [clientData] a listener of [ws] holds. *)
Definition session_of (ws : nat) (st : state) : option ClientData :=
  match sockets st !! ws with
  | Some s => session s
  | None => None
  end.

(** A write to a member of the shared [clientData] object. *)
Definition alter_session (f : ClientData -> ClientData) (ws : nat)
  (st : state) : state :=
  alter_socket (fun s => set_session (f <$> session s) s) ws st.

(** [ws.readyState === WebSocket.OPEN] *)
Definition is_open (ws : nat) (st : state) : bool :=
  match sockets st !! ws with
  | Some s => match readyState s with OPEN => true | _ => false end
  | None => false
  end.

(** ** Sets of identities and the room map *)

(** [Set.prototype.add] and [delete], on the insertion-ordered elements. *)
Definition set_add (x : string) (l : list string) : list string :=
  if bool_decide (x ∈ l) then l else l ++ [x].

Definition set_delete (x : string) (l : list string) : list string :=
  filter (fun y => y ≠ x) l.

Definition is_key (k : json) (entry : json * Room) : bool :=
  sameValueZero (fst entry) k.

(** [rooms.has], [rooms.get], [rooms.delete] *)
Definition rooms_has (k : json) (rs : list (json * Room)) : bool :=
  existsb (is_key k) rs.

Definition rooms_get (k : json) (rs : list (json * Room)) : option Room :=
  snd <$> List.find (is_key k) rs.

Definition rooms_delete (k : json) (rs : list (json * Room))
  : list (json * Room) :=
  List.filter (fun e => negb (is_key k e)) rs.

(** A mutation of the room object stored under [k]. *)
Definition rooms_alter (f : Room -> Room) (k : json) (rs : list (json * Room))
  : list (json * Room) :=
  List.map (fun e => if is_key k e then (fst e, f (snd e)) else e) rs.

(** [if (!rooms.has(k)) rooms.set(k, fresh); rooms.get(k).clients.add(x)]:
    the entry found under [k] gains the member, or a new entry holding it is
    appended.  (A key that is an object or an array is never found, and the
    [get] after the [set] returns the room just stored.) *)
Definition rooms_join (k : json) (fresh : Room) (x : string)
  (rs : list (json * Room)) : list (json * Room) :=
  if rooms_has k rs
  then rooms_alter (fun r => set_members (set_add x (members r)) r) k rs
  else rs ++ [(k, set_members (set_add x (members fresh)) fresh)].

(** ** Frames, sockets and the hosting window *)

(** Every frame and notification ends with the time it was built at; the
    clock reading stands for the ISO string of the source. *)
Definition stamp (st : state) : list (string * prop) :=
  [("timestamp", Own (JNum (now st)))].

Definition frame (st : state) (type : string) (body : list (string * prop))
  : json :=
  JObj (literal (("type", Own (JStr type)) :: body ++ stamp st)).

Definition notice (st : state) (body : list (string * prop)) : json :=
  JObj (literal (body ++ stamp st)).

(** [try { ws.send(data); sentCount++ } catch (error) { log }]: the state after
    it and whether the send counted. *)
Definition ws_send (ws : nat) (data : json) (st : state) : state * bool :=
  match sockets st !! ws with
  | Some s =>
      if sendThrows s then (emit (SendError ws data) st, false)
      else (emit (Send ws data) st, true)
  | None => (st, false)
  end.

(** [ws.close(code, reason)]: an open socket starts its closing handshake;
    its ['close'] event follows later. *)
Definition ws_close (ws : nat) (code : Z) (reason : string) (st : state)
  : state :=
  match sockets st !! ws with
  | Some s =>
      match readyState s with
      | CONNECTING | OPEN =>
          emit (Close ws code reason) (alter_socket (set_readyState CLOSING) ws st)
      | CLOSING | CLOSED => st
      end
  | None => st
  end.

Definition _sendToClient (ws : nat) (message : json) (st : state) : state :=
  if is_open ws st then fst (ws_send ws message st) else st.

Definition _sendToRenderer (channel : string) (data : json) (st : state)
  : state :=
  if mainWindow st then emit (Renderer channel data) st else st.

(** [a || b] where [a] is a property read. *)
Definition js_or (p : prop) (d : json) : json :=
  match p with
  | Own v => if truthy v then v else d
  | Undefined | Inherited => d
  end.

Definition prop_value (p : prop) : json :=
  match p with
  | Own v => v
  | Undefined | Inherited => JNull
  end.

(** [message.data || message], the object the handlers destructure. *)
Definition body_of (message : json) : json :=
  js_or (js_get message "data") message.

(** The room of a storage resource, [`db_${table}`]. *)
Definition db_room (table : json) : string := "db_" +:+ js_String table.

(** ** Broadcast *)

(** [Array.from(this.clients.keys())
      .find(ws => this.clients.get(ws).id === clientId)] *)
Definition find_socket (clientId : string) (st : state) : option nat :=
  List.find (fun ws => match session_of ws st with
                       | Some c => String.eqb (id c) clientId
                       | None => false
                       end) (clients st).

(** One round of the loop of [broadcastToRoom]. *)
Definition deliver (data : json) (acc : state * nat) (clientId : string)
  : state * nat :=
  match find_socket clientId (fst acc) with
  | Some ws =>
      if is_open ws (fst acc)
      then let r := ws_send ws data (fst acc) in
           (fst r, if snd r then S (snd acc) else snd acc)
      else acc
  | None => acc
  end.

Definition broadcastToRoom (roomId : json) (message : json) (st : state)
  : state * nat :=
  if negb (enableRoomBroadcast (config st)) || negb (rooms_has roomId (rooms st))
  then (st, 0)
  else match rooms_get roomId (rooms st) with
       | Some room => foldl (deliver message) (st, 0) (members room)
       | None => (st, 0)
       end.

(** One round of the loop of [broadcastToAll]. *)
Definition deliver_all (data : json) (acc : state * nat) (ws : nat)
  : state * nat :=
  if is_open ws (fst acc)
  then let r := ws_send ws data (fst acc) in
       (fst r, if snd r then S (snd acc) else snd acc)
  else acc.

Definition broadcastToAll (message : json) (st : state) : state * nat :=
  foldl (deliver_all message) (st, 0) (clients st).

(** ** Accepting and releasing connections *)

Definition _startClientHeartbeat (ws : nat) (st : state) : state :=
  alter_socket (set_heartbeatTimer true) ws st.

(** The callback of the heartbeat interval. *)
Definition heartbeat_tick (ws : nat) (st : state) : state :=
  if is_open ws st then
    match session_of ws st with
    | Some clientData =>
        if (heartbeatInterval (config st) * 2 <? now st - lastHeartbeat clientData)%Z
        then alter_socket (set_heartbeatTimer false) ws
               (ws_close ws 1000 "Heartbeat timeout" st)
        else emit (Ping ws) st
    | None => st
    end
  else alter_socket (set_heartbeatTimer false) ws st.

Definition _handleNewConnection (ws : nat) (clientIP : string)
  (agent : option string) (clientId : string) (st : state) : state :=
  let userAgent := match agent with
                   | Some a => if String.eqb a "" then "Unknown" else a
                   | None => "Unknown"
                   end in
  if (maxConnections (config st) <=? connectionCount st)%Z
  then ws_close ws 1013 "Server overloaded" st
  else
    let clientData :=
      {| id := clientId; ip := clientIP; userAgent := userAgent;
         connectedAt := now st; lastHeartbeat := now st;
         isAuthenticated := negb (enableAuthentication (config st));
         dataReceived := 0; lastDataTime := None |} in
    let st1 := set_clients (clients st ++ [ws]) st in
    let st2 := set_connectionCount (connectionCount st1 + 1) st1 in
    (* _setupClientEventHandlers: the listeners capture [clientData] *)
    let st3 := alter_socket (set_session (Some clientData)) ws st2 in
    let st4 := if enableHeartbeat (config st3)
               then _startClientHeartbeat ws st3 else st3 in
    let st5 := _sendToClient ws
                 (frame st4 "welcome"
                    [("clientId", Own (JStr clientId));
                     ("authRequired",
                      Own (JBool (enableAuthentication (config st4))))]) st4 in
    _sendToRenderer "websocket-client-connected"
      (notice st5
         [("clientId", Own (JStr clientId)); ("ip", Own (JStr clientIP));
          ("userAgent", Own (JStr userAgent));
          ("totalConnections", Own (JNum (connectionCount st5)))]) st5.

Definition _handleClientDisconnection (ws : nat) (clientData : ClientData)
  (code : Z) (reason : string) (st : state) : state :=
  let st1 := set_clients (filter (fun w => w ≠ ws) (clients st)) st in
  let st2 := set_connectionCount (connectionCount st1 - 1) st1 in
  _sendToRenderer "websocket-client-disconnected"
    (notice st2
       [("clientId", Own (JStr (id clientData)));
        ("ip", Own (JStr (ip clientData)));
        ("connectedDuration", Own (JNum (now st2 - connectedAt clientData)));
        ("dataReceived", Own (JNum (dataReceived clientData)));
        ("totalConnections", Own (JNum (connectionCount st2)))]) st2.

(** ** Authentication *)

Definition auth_required (st : state) : json :=
  frame st "error" [("message", Own (JStr "Authentication required"))].

Definition _checkAuthAndSend (ws : nat) (clientData : ClientData) (st : state)
  : state * bool :=
  if enableAuthentication (config st) && negb (isAuthenticated clientData)
  then (_sendToClient ws (auth_required st) st, false)
  else (st, true).

Definition auth_response (st : state) (success : bool) (message : string)
  : json :=
  frame st "auth_response"
    [("success", Own (JBool success)); ("message", Own (JStr message))].

Definition set_isAuthenticated (b : bool) (c : ClientData) : ClientData :=
  {| id := id c; ip := ip c; userAgent := userAgent c;
     connectedAt := connectedAt c; lastHeartbeat := lastHeartbeat c;
     isAuthenticated := b; dataReceived := dataReceived c;
     lastDataTime := lastDataTime c |}.

Definition set_lastHeartbeat (t : Z) (c : ClientData) : ClientData :=
  {| id := id c; ip := ip c; userAgent := userAgent c;
     connectedAt := connectedAt c; lastHeartbeat := t;
     isAuthenticated := isAuthenticated c; dataReceived := dataReceived c;
     lastDataTime := lastDataTime c |}.

(** [clientData.lastDataTime = new Date(); clientData.dataReceived++] *)
Definition count_message (t : Z) (c : ClientData) : ClientData :=
  {| id := id c; ip := ip c; userAgent := userAgent c;
     connectedAt := connectedAt c; lastHeartbeat := lastHeartbeat c;
     isAuthenticated := isAuthenticated c;
     dataReceived := dataReceived c + 1; lastDataTime := Some t |}.

(** [setTimeout(() => { if (ws.readyState === OPEN) ws.close(1008, ...) },
    1000)] *)
Definition schedule_auth_close (ws : nat) (st : state) : state :=
  alter_socket (fun s => set_authTimers (S (authTimers s)) s) ws st.

(** The callback of that timer. *)
Definition auth_timeout (ws : nat) (st : state) : state :=
  if is_open ws st then ws_close ws 1008 "Authentication failed" st else st.

Definition _handleAuthentication (ws : nat) (clientData : ClientData)
  (message : json) (st : state) : state :=
  if negb (enableAuthentication (config st))
  then _sendToClient ws (auth_response st true "Authentication not required") st
  else if strict_equal_string (js_get message "token") (authToken (config st))
  then
    let st1 := alter_session (set_isAuthenticated true) ws st in
    let st2 := _sendToClient ws
                 (auth_response st1 true "Authentication successful") st1 in
    _sendToRenderer "websocket-client-authenticated"
      (notice st2 [("clientId", Own (JStr (id clientData)));
                   ("ip", Own (JStr (ip clientData)))]) st2
  else
    let st1 := _sendToClient ws
                 (auth_response st false "Invalid authentication token") st in
    schedule_auth_close ws st1.

(** ** Sensor data *)

Definition _validateSensorData (cfg : Config) (data : json) : bool :=
  if negb (truthy data) || negb (typeof_object data) then false
  else
    forallb (fun field =>
               match js_get data field with
               | Undefined => false
               | Own JNull => false
               | Own v => negb (String.eqb (trim (js_String v)) "")
               | Inherited => true
               end) (requiredFields cfg).

(** A call of the storage collaborator whose promise the handler awaits. *)
Definition db_request (call : db_call) (k : continuation) (st : state)
  : state :=
  let n := nextRequest st in
  set_pending (<[n := k]> (pending st)) (S n) (emit (DbCall n call) st).

(** [_saveToDatabase] up to its [await].  The collaborator's cipher, applied
    to the members listed in [fieldsToEncrypt] before the call, is not
    modelled: the call is recorded with the record as received. *)
Definition _saveToDatabase (data : json) (ws : nat) (st : state) : state :=
  db_request (PostData (JStr (dbTableName (config st))) data)
    (AfterSave ws data) st.

Definition validation_failed (st : state) : json :=
  frame st "data_response"
    [("success", Own (JBool false));
     ("message", Own (JStr "Data validation failed"))].

Definition _handleSensorData (ws : nat) (clientData : ClientData)
  (message : json) (st : state) : state :=
  if enableAuthentication (config st) && negb (isAuthenticated clientData)
  then _sendToClient ws (auth_required st) st
  else
    let sensorData :=
      js_or (js_get message "data") (js_or (js_get message "payload") message) in
    if enableDataValidation (config st)
       && negb (_validateSensorData (config st) sensorData)
    then _sendToClient ws (validation_failed st) st
    else
      let dataToSave :=
        JObj (assign "received_at" (JNum (now st))
                (assign "client_ip" (JStr (ip clientData))
                   (assign "client_id" (JStr (id clientData))
                      (spread sensorData)))) in
      let st1 := _saveToDatabase dataToSave ws st in
      _sendToRenderer "websocket-data-received"
        (notice st1 [("clientId", Own (JStr (id clientData)));
                     ("data", Own sensorData)]) st1.

Definition _handleHeartbeat (ws : nat) (clientData : ClientData)
  (message : json) (st : state) : state :=
  let st1 := alter_session (set_lastHeartbeat (now st)) ws st in
  _sendToClient ws (frame st1 "heartbeat_response" []) st1.

(** ** Storage operations requested over the socket *)

Definition db_failure (st : state) (type error : string) : json :=
  frame st type [("success", Own (JBool false)); ("error", Own (JStr error))].

Definition db_success (st : state) (type : string) (result : json) : json :=
  frame st type [("success", Own (JBool true)); ("data", Own result)].

Definition _handleDatabaseCreate (ws : nat) (clientData : ClientData)
  (message : json) (st : state) : state :=
  let r := _checkAuthAndSend ws clientData st in
  if negb (snd r) then fst r
  else
    let table := js_get (body_of message) "table" in
    let data := js_get (body_of message) "data" in
    if negb (prop_truthy table) || negb (prop_truthy data)
    then _sendToClient ws
           (db_failure st "db_create_response" "Missing table or data") st
    else db_request (PostData (prop_value table) (prop_value data))
           (AfterCreate ws (prop_value table)) st.

Definition _handleDatabaseRead (ws : nat) (clientData : ClientData)
  (message : json) (st : state) : state :=
  let r := _checkAuthAndSend ws clientData st in
  if negb (snd r) then fst r
  else
    let table := js_get (body_of message) "table" in
    let filters := js_get (body_of message) "filters" in
    let options := js_get (body_of message) "options" in
    if negb (prop_truthy table)
    then _sendToClient ws
           (db_failure st "db_read_response" "Missing table name") st
    else db_request
           (GetDataByFilters (prop_value table) (js_or filters (JObj []))
              (js_or options (JObj [])))
           (AfterRead ws (prop_value table)) st.

Definition _handleDatabaseUpdate (ws : nat) (clientData : ClientData)
  (message : json) (st : state) : state :=
  let r := _checkAuthAndSend ws clientData st in
  if negb (snd r) then fst r
  else
    let table := js_get (body_of message) "table" in
    let data := js_get (body_of message) "data" in
    let whereClause := js_get (body_of message) "whereClause" in
    let whereParams := js_get (body_of message) "whereParams" in
    if negb (prop_truthy table) || negb (prop_truthy data)
    then _sendToClient ws
           (db_failure st "db_update_response" "Missing table or data") st
    else db_request
           (UpdateData (prop_value table) (prop_value data)
              (js_or whereClause (JStr "")) (js_or whereParams (JArr [])))
           (AfterUpdate ws (prop_value table) (prop_value data)
              whereClause whereParams) st.

Definition _handleDatabaseDelete (ws : nat) (clientData : ClientData)
  (message : json) (st : state) : state :=
  let r := _checkAuthAndSend ws clientData st in
  if negb (snd r) then fst r
  else
    let table := js_get (body_of message) "table" in
    let whereClause := js_get (body_of message) "whereClause" in
    let whereParams := js_get (body_of message) "whereParams" in
    if negb (prop_truthy table)
    then _sendToClient ws
           (db_failure st "db_delete_response" "Missing table name") st
    else db_request
           (if has_deleteData (db st)
            then DeleteData (prop_value table) (js_or whereClause (JStr ""))
                   (js_or whereParams (JArr []))
            else DeleteWhere (prop_value table) (js_or whereClause (JObj [])))
           (AfterDelete ws (prop_value table) whereClause whereParams) st.

(** The [db_change] frame sent to the subscribers of a table. *)
Definition db_change (st : state) (action : string) (table data : json)
  (clientId : string) : json :=
  frame st "db_change"
    [("action", Own (JStr action)); ("table", Own table); ("data", Own data);
     ("clientId", Own (JStr clientId))].

Definition database_error (ws : nat) (clientData : ClientData)
  (error : string) (st : state) : state :=
  let st1 := _sendToClient ws
               (frame st "data_response"
                  [("success", Own (JBool false));
                   ("message", Own (JStr "Database error"))]) st in
  _sendToRenderer "websocket-database-error"
    (notice st1 [("clientId", Own (JStr (id clientData)));
                 ("error", Own (JStr error))]) st1.

(** The part of an [async] handler that runs once the storage call has
    settled. *)
Definition resume (k : continuation) (outcome : db_outcome) (st : state)
  : state :=
  match k with
  | AfterSave ws data =>
      match session_of ws st with
      | None => st
      | Some clientData =>
          match outcome with
          | Resolved JNull =>
              (* reading [result.insertId] throws inside the [try] *)
              database_error ws clientData
                "Cannot read properties of null (reading 'insertId')" st
          | Resolved result =>
              let st1 := _sendToClient ws
                           (frame st "data_response"
                              [("success", Own (JBool true));
                               ("insertId", js_get result "insertId")]) st in
              _sendToRenderer "websocket-database-insert"
                (notice st1
                   [("clientId", Own (JStr (id clientData)));
                    ("table", Own (JStr (dbTableName (config st1))));
                    ("insertId", js_get result "insertId");
                    ("data", Own data)]) st1
          | Rejected error => database_error ws clientData error st
          end
      end
  | AfterCreate ws table =>
      match session_of ws st with
      | None => st
      | Some clientData =>
          match outcome with
          | Resolved result =>
              let st1 := _sendToClient ws
                           (db_success st "db_create_response" result) st in
              if enableDatabaseSync (config st1)
              then fst (broadcastToRoom (JStr (db_room table))
                          (db_change st1 "create" table result (id clientData))
                          st1)
              else st1
          | Rejected error =>
              _sendToClient ws (db_failure st "db_create_response" error) st
          end
      end
  | AfterRead ws table =>
      match outcome with
      | Resolved result =>
          _sendToClient ws (db_success st "db_read_response" result) st
      | Rejected error =>
          _sendToClient ws (db_failure st "db_read_response" error) st
      end
  | AfterUpdate ws table data whereClause whereParams =>
      match session_of ws st with
      | None => st
      | Some clientData =>
          match outcome with
          | Resolved result =>
              let st1 := _sendToClient ws
                           (db_success st "db_update_response" result) st in
              if enableDatabaseSync (config st1)
              then fst (broadcastToRoom (JStr (db_room table))
                          (db_change st1 "update" table
                             (JObj (literal [("whereClause", whereClause);
                                             ("whereParams", whereParams);
                                             ("updateData", Own data)]))
                             (id clientData)) st1)
              else st1
          | Rejected error =>
              _sendToClient ws (db_failure st "db_update_response" error) st
          end
      end
  | AfterDelete ws table whereClause whereParams =>
      match session_of ws st with
      | None => st
      | Some clientData =>
          match outcome with
          | Resolved result =>
              let st1 := _sendToClient ws
                           (db_success st "db_delete_response" result) st in
              if enableDatabaseSync (config st1)
              then fst (broadcastToRoom (JStr (db_room table))
                          (db_change st1 "delete" table
                             (JObj (literal [("whereClause", whereClause);
                                             ("whereParams", whereParams)]))
                             (id clientData)) st1)
              else st1
          | Rejected error =>
              _sendToClient ws (db_failure st "db_delete_response" error) st
          end
      end
  end.

(** ** Subscriptions and rooms *)

Definition new_room (table filters : prop) (st : state) : Room :=
  {| members := []; roomTable := table; roomFilters := filters;
     createdAt := now st |}.

(** [this.db.subscribe(table, callback, filters)] returned a cancel handle,
    which is stored under the room; the callback broadcasts to that room. *)
Definition open_feed (roomId : string) (table : json) (filters : prop)
  (st : state) : state :=
  let feed := nextFeed st in
  let st1 := emit (DbSubscribe table filters feed) st in
  let st2 := set_feeds (<[feed := (roomId, table)]> (feeds st1)) (S feed) st1 in
  set_dbSubscriptions (<[roomId := feed]> (dbSubscriptions st2)) st2.

(** [unsubscribe(); this.dbSubscriptions.delete(roomId)] *)
Definition cancel_feed (roomId : string) (feed : nat) (st : state) : state :=
  let st1 := emit (DbCancel feed) st in
  let st2 := set_feeds (delete feed (feeds st1)) (nextFeed st1) st1 in
  set_dbSubscriptions (delete roomId (dbSubscriptions st2)) st2.

Definition subscribe_response (st : state) (table : json) (roomId : string)
  : json :=
  frame st "db_subscribe_response"
    [("success", Own (JBool true)); ("table", Own table);
     ("roomId", Own (JStr roomId))].

Definition _handleDatabaseSubscribe (ws : nat) (clientData : ClientData)
  (message : json) (st : state) : state :=
  let r := _checkAuthAndSend ws clientData st in
  if negb (snd r) then fst r
  else
    let table := js_get (body_of message) "table" in
    let filters := js_get (body_of message) "filters" in
    if negb (prop_truthy table)
    then _sendToClient ws
           (db_failure st "db_subscribe_response" "Missing table name") st
    else
      let roomId := db_room (prop_value table) in
      let fresh := new_room table (Own (js_or filters (JObj []))) st in
      let st1 := set_rooms
                   (rooms_join (JStr roomId) fresh (id clientData) (rooms st))
                   st in
      if has_subscribe (db st1)
         && negb (bool_decide (is_Some (dbSubscriptions st1 !! roomId)))
      then
        match subscribe_error (db st1) (prop_value table) filters with
        | Some error =>
            _sendToClient ws
              (db_failure st1 "db_subscribe_response" error) st1
        | None =>
            let st2 := open_feed roomId (prop_value table) filters st1 in
            _sendToClient ws
              (subscribe_response st2 (prop_value table) roomId) st2
        end
      else _sendToClient ws
             (subscribe_response st1 (prop_value table) roomId) st1.

(** [room.clients.delete(x)] followed by the removal of the room once its
    set is empty; [on_empty] is what the caller does before that removal. *)
Definition rooms_leave (k : json) (x : string) (on_empty : state -> state)
  (st : state) : state :=
  match rooms_get k (rooms st) with
  | Some room =>
      let rest := set_delete x (members room) in
      let st1 := set_rooms (rooms_alter (set_members rest) k (rooms st)) st in
      if Nat.eqb (length rest) 0
      then let st2 := on_empty st1 in
           set_rooms (rooms_delete k (rooms st2)) st2
      else st1
  | None => st
  end.

Definition _handleDatabaseUnsubscribe (ws : nat) (clientData : ClientData)
  (message : json) (st : state) : state :=
  let table := js_get (body_of message) "table" in
  if negb (prop_truthy table) then st
  else
    let roomId := db_room (prop_value table) in
    let st1 :=
      rooms_leave (JStr roomId) (id clientData)
        (fun s => match dbSubscriptions s !! roomId with
                  | Some feed => cancel_feed roomId feed s
                  | None => s
                  end) st in
    _sendToClient ws
      (frame st1 "db_unsubscribe_response"
         [("success", Own (JBool true)); ("table", table)]) st1.

Definition _handleJoinRoom (ws : nat) (clientData : ClientData)
  (message : json) (st : state) : state :=
  let roomId := js_get (body_of message) "roomId" in
  if negb (prop_truthy roomId) then st
  else
    let st1 := set_rooms
                 (rooms_join (prop_value roomId)
                    (new_room Undefined Undefined st) (id clientData)
                    (rooms st)) st in
    _sendToClient ws (frame st1 "room_joined" [("roomId", roomId)]) st1.

Definition _handleLeaveRoom (ws : nat) (clientData : ClientData)
  (message : json) (st : state) : state :=
  let roomId := js_get (body_of message) "roomId" in
  if negb (prop_truthy roomId) || negb (rooms_has (prop_value roomId) (rooms st))
  then st
  else
    let st1 := rooms_leave (prop_value roomId) (id clientData)
                 (fun s => s) st in
    _sendToClient ws (frame st1 "room_left" [("roomId", roomId)]) st1.

(** ** The message router *)

(** How the body of the [try] in [_handleClientMessage] ends. *)
Inductive outcome : Type :=
| Returned (st : state)
| Threw (st : state).

(** The text [`${v}`] of a property read. *)
Definition template (p : prop) : string :=
  match p with
  | Undefined => "undefined"
  | Inherited => "function"
  | Own v => js_String v
  end.

Definition unknown_type (st : state) (type : prop) : json :=
  frame st "error"
    [("message", Own (JStr ("Unknown message type: " +:+ template type)))].

Definition invalid_json (st : state) : json :=
  frame st "error" [("message", Own (JStr "Invalid JSON format"))].

(** [switch (message.type)]; the cases compare with [===]. *)
Definition dispatch (ws : nat) (clientData : ClientData) (message : json)
  (st : state) : outcome :=
  match message with
  | JNull => Threw st                 (* [message.type] on [null] *)
  | _ =>
      match js_get message "type" with
      | Own (JStr type) =>
          if String.eqb type "auth"
          then Returned (_handleAuthentication ws clientData message st)
          else if String.eqb type "sensor_data"
          then Returned (_handleSensorData ws clientData message st)
          else if String.eqb type "heartbeat"
          then Returned (_handleHeartbeat ws clientData message st)
          else if String.eqb type "ping"
          then Returned (_sendToClient ws (frame st "pong" []) st)
          else if String.eqb type "db_create"
          then Returned (_handleDatabaseCreate ws clientData message st)
          else if String.eqb type "db_read"
          then Returned (_handleDatabaseRead ws clientData message st)
          else if String.eqb type "db_update"
          then Returned (_handleDatabaseUpdate ws clientData message st)
          else if String.eqb type "db_delete"
          then Returned (_handleDatabaseDelete ws clientData message st)
          else if String.eqb type "db_subscribe"
          then Returned (_handleDatabaseSubscribe ws clientData message st)
          else if String.eqb type "db_unsubscribe"
          then Returned (_handleDatabaseUnsubscribe ws clientData message st)
          else if String.eqb type "join_room"
          then Returned (_handleJoinRoom ws clientData message st)
          else if String.eqb type "leave_room"
          then Returned (_handleLeaveRoom ws clientData message st)
          else Returned (_sendToClient ws
                           (unknown_type st (Own (JStr type))) st)
      | other => Returned (_sendToClient ws (unknown_type st other) st)
      end
  end.

(** [rawData] is [None] when [JSON.parse] rejects the frame. *)
Definition _handleClientMessage (ws : nat) (rawData : option json)
  (st : state) : state :=
  match rawData with
  | None => _sendToClient ws (invalid_json st) st
  | Some message =>
      let st1 := alter_session (count_message (now st)) ws st in
      match session_of ws st1 with
      | Some clientData =>
          match dispatch ws clientData message st1 with
          | Returned st2 => st2
          | Threw st2 => _sendToClient ws (invalid_json st2) st2
          end
      | None => st1
      end
  end.

(** ** Construction and status *)

Definition with_authToken (t : option string) (c : Config) : Config :=
  {| port := port c; host := host c;
     enableAuthentication := enableAuthentication c; authToken := t;
     dbTableName := dbTableName c; requiredFields := requiredFields c;
     fieldsToEncrypt := fieldsToEncrypt c;
     enableHeartbeat := enableHeartbeat c;
     heartbeatInterval := heartbeatInterval c;
     maxConnections := maxConnections c;
     enableDataValidation := enableDataValidation c;
     enableDatabaseSync := enableDatabaseSync c;
     enableRoomBroadcast := enableRoomBroadcast c |}.

(** [new WebSocketHandler(config, dbInstance, windowInstance)]; [generated]
    is the token [_generateAuthToken] draws when none is configured. *)
Definition constructor (cfg : Config) (dbInstance : Database)
  (windowInstance : bool) (generated : string) (clock : Z) : state :=
  let missing := match authToken cfg with
                 | Some t => String.eqb t ""
                 | None => true
                 end in
  {| config := if enableAuthentication cfg && missing
               then with_authToken (Some generated) cfg else cfg;
     db := dbInstance; mainWindow := windowInstance; isRunning := false;
     clients := []; sockets := ∅; rooms := []; dbSubscriptions := ∅;
     connectionCount := 0; feeds := ∅; nextFeed := 0; pending := ∅;
     nextRequest := 0; now := clock; trace := [] |}.

(** [start()], for a server that binds its port. *)
Definition start (st : state) : state :=
  if isRunning st then st
  else
    let st1 := set_isRunning true st in
    _sendToRenderer "websocket-server-status"
      (notice st1
         [("status", Own (JStr "started")); ("port", Own (JNum (port (config st1))));
          ("host", Own (JStr (host (config st1))));
          ("authEnabled", Own (JBool (enableAuthentication (config st1))));
          ("authToken",
           Own (match authToken (config st1) with
                | Some t => if enableAuthentication (config st1)
                            then JStr t else JNull
                | None => JNull
                end))]) st1.

Record ClientInfo : Type := {
  info_id : string;
  info_ip : string;
  info_connectedAt : Z;
  info_isAuthenticated : bool;
  info_dataReceived : Z;
  info_lastDataTime : option Z
}.

(** The object [getStatus] returns, without [uptime] (computed from a
    [startTime] the handler never sets). *)
Record Status : Type := {
  status_isRunning : bool;
  status_port : Z;
  status_host : string;
  status_connectionCount : Z;
  status_maxConnections : Z;
  status_authEnabled : bool;
  status_authToken : option string;
  status_clients : list ClientInfo
}.

Definition client_info (c : ClientData) : ClientInfo :=
  {| info_id := id c; info_ip := ip c; info_connectedAt := connectedAt c;
     info_isAuthenticated := isAuthenticated c;
     info_dataReceived := dataReceived c;
     info_lastDataTime := lastDataTime c |}.

Definition getStatus (st : state) : Status :=
  {| status_isRunning := isRunning st;
     status_port := port (config st);
     status_host := host (config st);
     status_connectionCount := connectionCount st;
     status_maxConnections := maxConnections (config st);
     status_authEnabled := enableAuthentication (config st);
     status_authToken := if enableAuthentication (config st)
                         then authToken (config st) else None;
     status_clients :=
       client_info <$> omap (fun ws => session_of ws st) (clients st) |}.

(** ** Events of the loop *)

(** The callbacks the handler has registered: on the server (['connection']),
    on a socket (['message'], ['close'], ['pong']), with the timers, with the
    storage layer (a settled promise, a change reported by a feed); and the
    environment's own moves (the clock, a socket whose [send] starts or stops
    failing).  [stop()] is not modelled. *)
Inductive event : Type :=
| Start
| Connection (ws : nat) (clientIP : string) (agent : option string)
    (clientId : string)
| Message (ws : nat) (rawData : option json)
| Closed (ws : nat) (code : Z) (reason : string)
| Pong (ws : nat)
| HeartbeatTick (ws : nat)
| AuthTimeout (ws : nat)
| DbSettled (request : nat) (result : db_outcome)
| FeedChange (feed : nat) (changes : json)
| Clock (t : Z)
| SendFault (ws : nat) (throws : bool).

Definition fresh_socket : Socket :=
  {| readyState := OPEN; sendThrows := false; session := None;
     heartbeatTimer := false; authTimers := 0 |}.

(** The transport's contract: a socket delivers events to its listeners until
    it has emitted ['close'], which it does once; after that it is [CLOSED]
    and silent. *)
Definition listening (ws : nat) (st : state) : option ClientData :=
  match sockets st !! ws with
  | Some s =>
      match readyState s with
      | CLOSED => None
      | _ => session s
      end
  | None => None
  end.

Definition step (e : event) (st : state) : state :=
  match e with
  | Start => start st
  | Connection ws clientIP agent clientId =>
      if isRunning st && bool_decide (sockets st !! ws = None)
      then _handleNewConnection ws clientIP agent clientId
             (set_sockets (<[ws := fresh_socket]> (sockets st)) st)
      else st
  | Message ws rawData =>
      match listening ws st with
      | Some _ => _handleClientMessage ws rawData st
      | None => st
      end
  | Closed ws code reason =>
      match sockets st !! ws with
      | Some s =>
          match readyState s with
          | CLOSED => st
          | _ =>
              let st1 := alter_socket (set_readyState CLOSED) ws st in
              match session s with
              | Some clientData =>
                  _handleClientDisconnection ws clientData code reason st1
              | None => st1
              end
          end
      | None => st
      end
  | Pong ws =>
      match listening ws st with
      | Some _ => alter_session (set_lastHeartbeat (now st)) ws st
      | None => st
      end
  | HeartbeatTick ws =>
      match sockets st !! ws with
      | Some s => if heartbeatTimer s then heartbeat_tick ws st else st
      | None => st
      end
  | AuthTimeout ws =>
      match sockets st !! ws with
      | Some s =>
          match authTimers s with
          | S n => auth_timeout ws
                     (alter_socket (set_authTimers n) ws st)
          | O => st
          end
      | None => st
      end
  | DbSettled request result =>
      match pending st !! request with
      | Some k =>
          resume k result
            (set_pending (delete request (pending st)) (nextRequest st) st)
      | None => st
      end
  | FeedChange feed changes =>
      match feeds st !! feed with
      | Some (roomId, table) =>
          fst (broadcastToRoom (JStr roomId)
                 (frame st "db_realtime"
                    [("table", Own table); ("changes", Own changes)]) st)
      | None => st
      end
  | Clock t => set_now t st
  | SendFault ws throws => alter_socket (set_sendThrows throws) ws st
  end.

Definition run (events : list event) (st : state) : state :=
  foldl (fun s e => step e s) st events.

(** The states of a handler built by [constructor] and driven by events. *)
Inductive reachable : state -> Prop :=
| reachable_init cfg dbInstance windowInstance generated clock :
    reachable (constructor cfg dbInstance windowInstance generated clock)
| reachable_step e st :
    reachable st -> reachable (step e st).

(** ** Notions the statements use *)

(** The identities registered in [this.clients]. *)
Definition registered_ids (st : state) : list string :=
  id <$> omap (fun ws => session_of ws st) (clients st).

(** The members of the room stored under [k]; none when there is no room. *)
Definition members_of (k : json) (st : state) : list string :=
  match rooms_get k (rooms st) with
  | Some room => members room
  | None => []
  end.

(** Every room stored has at least one member. *)
Definition rooms_inhabited (rs : list (json * Room)) : Prop :=
  Forall (fun e => members (snd e) ≠ []) rs.

(** The state a run of the router's [try] body ends in. *)
Definition outcome_state (o : outcome) : state :=
  match o with
  | Returned st => st
  | Threw st => st
  end.

(** What [ws.close] does to the socket. *)
Definition closing (s : Socket) : Socket :=
  match readyState s with
  | CONNECTING | OPEN => set_readyState CLOSING s
  | CLOSING | CLOSED => s
  end.

(** A socket before and after a callback other than its own ['close'] and
    its own close timer: the listeners keep the identity they were given, a
    socket neither becomes nor stops being closed, no close timer is lost
    and no heartbeat is started. *)
Definition evolves (s s' : Socket) : Prop :=
  id <$> session s' = id <$> session s
  ∧ (readyState s' = CLOSED ↔ readyState s = CLOSED)
  ∧ (authTimers s ≤ authTimers s')%nat
  ∧ (heartbeatTimer s' = true → heartbeatTimer s = true).

Definition sockets_evolve (m m' : gmap nat Socket) : Prop :=
  ∀ w, option_Forall2 evolves (m !! w) (m' !! w).

(** The identity belongs to a session whose socket has emitted ['close']. *)
Definition torn_down (x : string) (st : state) : Prop :=
  ∃ ws s c,
    sockets st !! ws = Some s ∧ session s = Some c ∧ id c = x
    ∧ readyState s = CLOSED.

(** A socket with listeners that has not emitted ['close'] is a key of
    [clients]. *)
Definition listeners_registered (st : state) : Prop :=
  ∀ ws s,
    sockets st !! ws = Some s → is_Some (session s) →
    readyState s ≠ CLOSED → ws ∈ clients st.

(** The identity is a member of some room. *)
Definition member_somewhere (x : string) (rs : list (json * Room)) : Prop :=
  ∃ k r, In (k, r) rs ∧ x ∈ members r.

(** The identity is the one some socket's listeners hold. *)
Definition has_session (x : string) (m : gmap nat Socket) : Prop :=
  ∃ ws s c, m !! ws = Some s ∧ session s = Some c ∧ id c = x.

(** Every member of a room is the identity some socket's listeners hold. *)
Definition members_known (st : state) : Prop :=
  ∀ x, member_somewhere x (rooms st) → has_session x (sockets st).

(** Events by which a socket's own state is settled: its ['close'] and its
    close timer. *)
Definition is_Closed (w : nat) (e : event) : Prop :=
  ∃ code reason, e = Closed w code reason.

Definition is_Connection (w : nat) (e : event) : Prop :=
  ∃ clientIP agent clientId, e = Connection w clientIP agent clientId.

(** What the close timer does to its socket when it fires. *)
Definition timer_fired (s : Socket) : Socket :=
  match authTimers s with
  | S n => match readyState s with
           | OPEN => set_readyState CLOSING (set_authTimers n s)
           | _ => set_authTimers n s
           end
  | O => s
  end.

(** ** A configuration and runs on which the handler is evaluated *)

Definition demo_config : Config :=
  {| port := 8080; host := "0.0.0.0"; enableAuthentication := false;
     authToken := None; dbTableName := "sensors_data";
     requiredFields := ["temperature"]; fieldsToEncrypt := [];
     enableHeartbeat := true; heartbeatInterval := 30000;
     maxConnections := 10; enableDataValidation := true;
     enableDatabaseSync := true; enableRoomBroadcast := true |}.

Definition demo_db : Database :=
  {| has_subscribe := true; has_deleteData := true;
     subscribe_error := fun _ _ => None |}.

Definition demo_server : state :=
  step Start (constructor demo_config demo_db false "generated" 0).

(** A decoded frame [{type, ...members}]. *)
Definition request (type : string) (members : list (string * json))
  : option json :=
  Some (JObj (("type", JStr type) :: members)).

(** One client connects and joins the room ["lobby"]. *)
Definition demo_joined : state :=
  step (Message 1 (request "join_room" [("roomId", JStr "lobby")]))
    (step (Connection 1 "10.0.0.1" None "client_a") demo_server).

(** Its socket then closes. *)
Definition demo_left_behind : state :=
  step (Closed 1 1001 "") demo_joined.

(** Or it falls silent, the heartbeat closes the socket and the ['close']
    event follows. *)
Definition demo_timed_out : state :=
  step (Closed 1 1000 "Heartbeat timeout")
    (step (HeartbeatTick 1) (step (Clock 60001) demo_joined)).

(** The session of that client and its socket in [demo_joined]. *)
Definition demo_client : ClientData :=
  {| id := "client_a"; ip := "10.0.0.1"; userAgent := "Unknown";
     connectedAt := 0; lastHeartbeat := 0; isAuthenticated := true;
     dataReceived := 1; lastDataTime := Some 0%Z |}.

Definition demo_socket : Socket :=
  {| readyState := OPEN; sendThrows := false; session := Some demo_client;
     heartbeatTimer := true; authTimers := 0 |}.

(** Every key of [clients] is a socket the handler has seen. *)
Definition clients_known (st : state) : Prop :=
  ∀ w, w ∈ clients st → is_Some (sockets st !! w).

(** The defaults of the handler with five of its settings chosen; a token is
    configured when authentication is on. *)
Definition configure (authentication : bool) (ceiling : Z)
  (validation roomBroadcast : bool) (required : list string) : Config :=
  {| port := 8080; host := "0.0.0.0"; enableAuthentication := authentication;
     authToken := if authentication then Some "secret" else None;
     dbTableName := "sensors_data"; requiredFields := required;
     fieldsToEncrypt := []; enableHeartbeat := true;
     heartbeatInterval := 30000; maxConnections := ceiling;
     enableDataValidation := validation; enableDatabaseSync := true;
     enableRoomBroadcast := roomBroadcast |}.

Definition serve (cfg : Config) : state :=
  step Start (constructor cfg demo_db false "generated" 0).

(** A server with room for one connection, which is taken. *)
Definition demo_full : state :=
  step (Connection 1 "10.0.0.1" None "client_a")
    (serve (configure false 1 true true ["temperature"])).

(** Two clients in the room ["lobby"], with a member that never connected
    written into the room by hand. *)
Definition two_in_lobby (cfg : Config) : state :=
  let st :=
    step (Message 2 (request "join_room" [("roomId", JStr "lobby")]))
      (step (Message 1 (request "join_room" [("roomId", JStr "lobby")]))
         (step (Connection 2 "10.0.0.2" None "client_b")
            (step (Connection 1 "10.0.0.1" None "client_a") (serve cfg)))) in
  set_rooms
    (rooms_alter (fun r => set_members (members r ++ ["client_gone"]) r)
       (JStr "lobby") (rooms st)) st.

Definition notice_frame : json := JObj [("type", JStr "notice")].

(** The socket [broadcastToRoom] resolves a member to, when that socket is
    open: a live member. *)
Definition recipient (st : state) (clientId : string) : option nat :=
  match find_socket clientId st with
  | Some ws => if is_open ws st then Some ws else None
  | None => None
  end.

(** Whether [ws.send] returns on that socket. *)
Definition send_ok (st : state) (ws : nat) : bool :=
  match sockets st !! ws with
  | Some s => negb (sendThrows s)
  | None => false
  end.

(** What an attempt to send leaves in the trace. *)
Definition attempt (st : state) (data : json) (ws : nat) : effect :=
  if send_ok st ws then Send ws data else SendError ws data.

(** The payload of a [sensor_data] frame:
    [message.data || message.payload || message]. *)
Definition sensor_payload (message : json) : json :=
  js_or (js_get message "data") (js_or (js_get message "payload") message).

(** A value of type object other than [null]: a mapping or an array. *)
Definition is_object (v : json) : Prop :=
  match v with
  | JObj _ | JArr _ => True
  | JNull | JBool _ | JNum _ | JStr _ => False
  end.

(** The payload lacks the field: it reads [undefined] or [null], or the text
    of its value is blank. *)
Definition missing_or_empty (data : json) (field : string) : Prop :=
  match js_get data field with
  | Undefined | Own JNull => True
  | Own v => trim (js_String v) = ""
  | Inherited => False
  end.

(** The session passes the authentication check of the data handlers. *)
Definition authorized (c : ClientData) (st : state) : bool :=
  negb (enableAuthentication (config st)) || isAuthenticated c.

(** One client connected to a server with the given settings. *)
Definition demo_one (cfg : Config) : state :=
  step (Connection 1 "10.0.0.1" None "client_a") (serve cfg).

(** One client connected to a server that asks for authentication. *)
Definition demo_guarded : state :=
  demo_one (configure true 10 true true ["temperature"]).

(** A reading without the required [temperature], and an array. *)
Definition reading_without_temperature : option json :=
  request "sensor_data" [("data", JObj [("humidity", JNum 40)])].

Definition reading_array : option json :=
  request "sensor_data" [("data", JArr [JNum 1; JNum 2])].

(** The unauthenticated client of [demo_guarded] joins the room of the table
    [sensors]. *)
Definition demo_intruder : state :=
  step (Message 1 (request "join_room" [("roomId", JStr "db_sensors")]))
    demo_guarded.

(** A second client then connects, authenticates and updates that table. *)
Definition demo_update : state :=
  step (DbSettled 0 (Resolved (JObj [("affectedRows", JNum 1)])))
    (step (Message 2
             (request "db_update"
                [("data", JObj [("table", JStr "sensors");
                                ("data", JObj [("temperature", JNum 21)])])]))
       (step (Message 2 (request "auth" [("token", JStr "secret")]))
          (step (Connection 2 "10.0.0.2" None "client_b") demo_intruder))).

(** The kinds of message whose handler checks the authentication. *)
Definition gated (type : string) : Prop :=
  type ∈ ["sensor_data"; "db_create"; "db_read"; "db_update"; "db_delete";
          "db_subscribe"].

(** What a leave by [x] leaves under the key [k]: no room, or rooms that all
    have the same members, [x] not among them. *)
Definition left_room (k : json) (x : string) (rs : list (json * Room))
  : Prop :=
  rooms_get k rs = None
  ∨ ∃ rest, rest ≠ [] ∧ (x ∉ rest)
            ∧ ∀ e, In e rs → is_key k e = true → members (snd e) = rest.

(** The socket of the client of [demo_guarded] and its session. *)
Definition demo_unauthenticated : ClientData :=
  {| id := "client_a"; ip := "10.0.0.1"; userAgent := "Unknown";
     connectedAt := 0; lastHeartbeat := 0; isAuthenticated := false;
     dataReceived := 0; lastDataTime := None |}.

Definition demo_guarded_socket : Socket :=
  {| readyState := OPEN; sendThrows := false;
     session := Some demo_unauthenticated; heartbeatTimer := true;
     authTimers := 0 |}.

(** A session and a frame it sends. *)
Record Caller : Type := {
  caller_ws : nat;
  caller_data : ClientData;
  caller_message : json
}.

(** The frame names the table: [(message.data || message).table] is that
    value, and it is truthy. *)
Definition names_table (message : json) (table : json) : Prop :=
  js_get (body_of message) "table" = Own table ∧ truthy table = true.

(** Sessions subscribing, and unsubscribing, one after the other. *)
Definition subscribe_all (callers : list Caller) (st : state) : state :=
  foldl (fun s a =>
           _handleDatabaseSubscribe (caller_ws a) (caller_data a)
             (caller_message a) s) st callers.

Definition unsubscribe_all (callers : list Caller) (st : state) : state :=
  foldl (fun s a =>
           _handleDatabaseUnsubscribe (caller_ws a) (caller_data a)
             (caller_message a) s) st callers.

Definition caller_id (a : Caller) : string := id (caller_data a).

(** The change feeds the trace shows opened, and those it shows cancelled. *)
Definition opened (t : list effect) : list nat :=
  omap (fun e => match e with
                 | DbSubscribe _ _ feed => Some feed
                 | _ => None
                 end) t.

Definition cancelled (t : list effect) : list nat :=
  omap (fun e => match e with
                 | DbCancel feed => Some feed
                 | _ => None
                 end) t.

(** Two clients connected, nobody subscribed. *)
Definition demo_pair : state :=
  step (Connection 2 "10.0.0.2" None "client_b")
    (step (Connection 1 "10.0.0.1" None "client_a") (serve demo_config)).

Definition client_named (name address : string) : ClientData :=
  {| id := name; ip := address; userAgent := "Unknown"; connectedAt := 0;
     lastHeartbeat := 0; isAuthenticated := true; dataReceived := 1;
     lastDataTime := Some 0%Z |}.

(** Each of them asking for the table [sensors]. *)
Definition about_sensors (type : string) : list Caller :=
  [ {| caller_ws := 1; caller_data := client_named "client_a" "10.0.0.1";
       caller_message := JObj [("type", JStr type);
                               ("table", JStr "sensors")] |};
    {| caller_ws := 2; caller_data := client_named "client_b" "10.0.0.2";
       caller_message := JObj [("type", JStr type);
                               ("table", JStr "sensors")] |} ].

(** The frame names the room: [(message.data || message).roomId] is that
    string, and it is not empty. *)
Definition names_room (message : json) (roomId : string) : Prop :=
  js_get (body_of message) "roomId" = Own (JStr roomId) ∧ roomId ≠ "".

(** The fields only [start], the acceptance of a connection and the teardown
    of a session write. *)
Definition registry (st : state) : Config * bool * list nat * Z :=
  (config st, isRunning st, clients st, connectionCount st).

(** [connectionCount] is the size of [clients], whose keys are distinct. *)
Definition count_matches (st : state) : Prop :=
  connectionCount st = Z.of_nat (length (clients st)) ∧ NoDup (clients st).

(** Every key of [clients] is a socket whose listeners hold a session. *)
Definition clients_have_sessions (st : state) : Prop :=
  ∀ w, w ∈ clients st → is_Some (session_of w st).

(** The keys of [clients] whose socket is open, in insertion order. *)
Definition open_clients (st : state) : list nat :=
  filter (fun ws => is_open ws st = true) (clients st).

(** The frame is an [auth] frame whose [token] is the configured one, read by
    a handler that asks for authentication. *)
Definition presents_token (m : json) (st : state) : bool :=
  strict_equal_string (js_get m "type") (Some "auth")
  && enableAuthentication (config st)
  && strict_equal_string (js_get m "token") (authToken (config st)).

(** What the handlers of a frame write to the session of its sender: an
    [auth] frame with the token marks it authenticated, a [heartbeat] frame
    renews its [lastHeartbeat]. *)
Definition handled (m : json) (st : state) (c : ClientData) : ClientData :=
  if presents_token m st then set_isAuthenticated true c
  else if strict_equal_string (js_get m "type") (Some "heartbeat")
       then set_lastHeartbeat (now st) c
       else c.

(** What the router writes to it before: the frame is counted. *)
Definition received (m : json) (st : state) (c : ClientData) : ClientData :=
  handled m st (count_message (now st) c).

(** The session the listeners of a socket hold after an event: a frame the
    socket delivers is counted and handled, a pong renews [lastHeartbeat],
    and nothing else writes to it.  A socket that has emitted ['close']
    delivers nothing. *)
Definition session_after (e : event) (w : nat) (st : state) (s : Socket)
  : option ClientData :=
  match readyState s with
  | CLOSED => session s
  | _ =>
      match e with
      | Message ws (Some m) =>
          if decide (ws = w) then received m st <$> session s else session s
      | Pong ws =>
          if decide (ws = w)
          then set_lastHeartbeat (now st) <$> session s else session s
      | _ => session s
      end
  end.

(** The events that renew [lastHeartbeat]: a pong of the socket and a
    [heartbeat] frame from it. *)
Definition renews (ws : nat) (e : event) : bool :=
  match e with
  | Pong w => bool_decide (w = ws)
  | Message w (Some m) =>
      bool_decide (w = ws)
      && strict_equal_string (js_get m "type") (Some "heartbeat")
  | _ => false
  end.

(** The frames in a run that a socket delivers decoded. *)
Definition is_frame_from (ws : nat) (e : event) : bool :=
  match e with
  | Message w (Some _) => bool_decide (w = ws)
  | _ => false
  end.

Definition frames_from (ws : nat) (events : list event) : nat :=
  length (filter (fun e => is_frame_from ws e = true) events).

(** A handler that asks for authentication has a token to compare with. *)
Definition token_configured (cfg : Config) : Prop :=
  enableAuthentication cfg = true → is_Some (authToken cfg).

(** The socket a trace entry shows a frame written to. *)
Definition written (e : effect) : option nat :=
  match e with
  | Send ws _ | SendError ws _ => Some ws
  | _ => None
  end.

(** Between two states of one callback: no socket has changed its
    [readyState], the trace has grown, and every frame added was written to a
    socket that is open. *)
Definition writes_open (st st' : state) : Prop :=
  (∀ w, readyState <$> sockets st' !! w = readyState <$> sockets st !! w)
  ∧ ∃ l, trace st' = trace st ++ l
         ∧ ∀ w, w ∈ omap written l → is_open w st = true.

(** ** Stopping the server *)

(** One round of the loop of [stop]:
    [if (ws.readyState === WebSocket.OPEN) ws.close(1000, 'Server shutdown')] *)
Definition shut (st : state) (ws : nat) : state :=
  if is_open ws st then ws_close ws 1000 "Server shutdown" st else st.

(** [stop()], for a server whose [close] does not throw.  The sockets are
    asked to close and the registry is cleared at once; the listeners and the
    heartbeat intervals of the sockets stay as they are, and so do the rooms
    and the change feeds.  A stopped server accepts no connection. *)
Definition stop (st : state) : state :=
  if negb (isRunning st) then st
  else
    let st1 := foldl shut st (clients st) in
    let st2 := set_clients [] st1 in
    let st3 := set_connectionCount 0 (set_isRunning false st2) in
    _sendToRenderer "websocket-server-status"
      (notice st3 [("status", Own (JStr "stopped"))]) st3.

(** What [stop] does to a socket: one that is registered and open starts its
    closing handshake. *)
Definition shut_socket (registered : list nat) (w : nat) (s : Socket)
  : Socket :=
  match readyState s with
  | OPEN => if bool_decide (w ∈ registered)
            then set_readyState CLOSING s else s
  | _ => s
  end.

(** The storage requests a client can make over the socket. *)
Definition storage_request (type : string) : Prop :=
  type ∈ ["db_create"; "db_read"; "db_update"; "db_delete"; "db_subscribe"].

(** Those that must carry [data] besides [table], and the error text of a
    request that lacks what it must carry. *)
Definition carries_data (type : string) : bool :=
  String.eqb type "db_create" || String.eqb type "db_update".

Definition missing_text (type : string) : string :=
  if carries_data type then "Missing table or data" else "Missing table name".

(** The request lacks its table, or the data it must carry: the member of
    [message.data || message] is missing or falsy. *)
Definition incomplete (type : string) (m : json) : Prop :=
  prop_truthy (js_get (body_of m) "table") = false
  ∨ (carries_data type = true
     ∧ prop_truthy (js_get (body_of m) "data") = false).

(** What an attempt to answer [ws] leaves in the trace: nothing when the
    socket is not open. *)
Definition answer (st : state) (data : json) (ws : nat) : list effect :=
  if is_open ws st then [attempt st data ws] else [].

(** What a broadcast to the room [k] leaves in the trace. *)
Definition fan_out (st : state) (k : json) (data : json) : list effect :=
  if enableRoomBroadcast (config st)
  then attempt st data <$> omap (recipient st) (members_of k st)
  else [].

(** A storage layer whose [subscribe] throws, and a client connected to a
    handler that uses it. *)
Definition demo_failing_db : Database :=
  {| has_subscribe := true; has_deleteData := true;
     subscribe_error := fun _ _ => Some "unavailable" |}.

Definition demo_failing : state :=
  step (Connection 1 "10.0.0.1" None "client_a")
    (step Start (constructor demo_config demo_failing_db false "generated" 0)).

(** The record [_handleSensorData] hands to the storage layer. *)
Definition stamped (c : ClientData) (st : state) (data : json)
  : list (string * json) :=
  assign "received_at" (JNum (now st))
    (assign "client_ip" (JStr (ip c))
       (assign "client_id" (JStr (id c)) (spread data))).

(** The member set of every room stored has the property. *)
Definition rooms_all (P : list string → Prop) (rs : list (json * Room))
  : Prop :=
  Forall (fun e => P (members (snd e))) rs.

(** The types the router has a case for. *)
Definition known_types : list string :=
  [ "auth"; "sensor_data"; "heartbeat"; "ping"; "db_create"; "db_read";
    "db_update"; "db_delete"; "db_subscribe"; "db_unsubscribe"; "join_room";
    "leave_room" ].

(** The session created for a connection accepted in [st]. *)
Definition accepted (clientIP : string) (agent : option string)
  (clientId : string) (st : state) : ClientData :=
  {| id := clientId; ip := clientIP;
     userAgent := match agent with
                  | Some a => if String.eqb a "" then "Unknown" else a
                  | None => "Unknown"
                  end;
     connectedAt := now st; lastHeartbeat := now st;
     isAuthenticated := negb (enableAuthentication (config st));
     dataReceived := 0; lastDataTime := None |}.

(** One client has subscribed to the table [sensors], which opened its
    change feed, and then leaves the room of the table with [leave_room]. *)
Definition demo_subscribed : state :=
  step (Message 1 (request "db_subscribe" [("table", JStr "sensors")]))
    (demo_one demo_config).

(** ** The logger behind [_log] *)

(** [AlertManager] (src/lib/alert/alertManager.js, lines 35-105), as far as
    it decides whether a message is printed; the text printed (time stamp,
    colours, icon) is not modelled. *)
Module AlertManager.

(** The levels the callers of [log] in this file pass, as literals. *)
Inductive Level : Type := ERROR | WARN | INFO | DEBUG.

Definition level_name (level : Level) : string :=
  match level with
  | ERROR => "error"
  | WARN => "warn"
  | INFO => "info"
  | DEBUG => "debug"
  end.

(** [this.logLevels] *)
Definition logLevels : list (string * Z) :=
  [("error", 0%Z); ("warn", 1%Z); ("info", 2%Z); ("debug", 3%Z);
   ("trace", 4%Z)].

(** [this.logLevels[name]] when it is a number: the value of an own key.
    Any other name reads [undefined] or a member of [Object.prototype],
    which [<=] turns into [NaN] when the other side is a number. *)
Fixpoint own_level (table : list (string * Z)) (name : string) : option Z :=
  match table with
  | [] => None
  | (k, v) :: rest => if String.eqb k name then Some v else own_level rest name
  end.

(** [this.logLevel = process.env.LOG_LEVEL || 'info'] *)
Definition constructor (LOG_LEVEL : option string) : string :=
  match LOG_LEVEL with
  | Some name => if String.eqb name "" then "info" else name
  | None => "info"
  end.

(** [shouldLog(level)]:
    [this.logLevels[level] <= this.logLevels[this.logLevel]] *)
Definition shouldLog (logLevel : string) (level : Level) : bool :=
  match own_level logLevels (level_name level), own_level logLevels logLevel
  with
  | Some a, Some b => (a <=? b)%Z
  | _, _ => false
  end.

(** The level at which each method logs. *)
Inductive Method : Type := success | error | warning | info | debug.

Definition method_level (method : Method) : Level :=
  match method with
  | success => INFO
  | error => ERROR
  | warning => WARN
  | info => INFO
  | debug => DEBUG
  end.

(** [log(level, ...)] prints when [shouldLog(level)]. *)
Definition prints (logLevel : string) (method : Method) : bool :=
  shouldLog logLevel (method_level method).

End AlertManager.

(** [WebSocketHandler._log(level, message)]: the method of the logger the
    [switch] picks; a level it has no case for logs as [info]. *)
Definition _log (level : string) : AlertManager.Method :=
  if String.eqb level "debug" then AlertManager.debug
  else if String.eqb level "info" then AlertManager.info
  else if String.eqb level "warn" then AlertManager.warning
  else if String.eqb level "error" then AlertManager.error
  else AlertManager.info.

(** ** The subscriptions of the database adapter *)

(** [DatabaseAdapter] (src/lib/db/databaseAdapter.js), as far as it keeps the
    change feeds it has opened on the Firebase store: [subscribe],
    [unsubscribe] and [unsubscribeAll], which [close] calls first. *)
Module DatabaseAdapter.

(** What the adapter does to the store: it opens a feed, for which the store
    returns a function that cancels it, and it calls such a function. *)
Inductive effect : Type :=
| Subscribed (tableName : json) (feed : nat)
| Unsubscribed (feed : nat).

(** A value of [this.subscriptions]; [feed] names the cancel function the
    store returned. *)
Record Subscription : Type := {
  feed : nat;
  tableName : json;
  createdAt : Z
}.

(** [firebase] tells whether [this.databases] has the Firebase store;
    [subscriptions] is the map in insertion order. *)
Record state : Type := {
  firebase : bool;
  subscriptions : list (string * Subscription);
  nextFeed : nat;
  trace : list effect
}.

(** [Map.prototype.get], [set] and [delete] on string keys. *)
Definition map_get (k : string) (m : list (string * Subscription))
  : option Subscription :=
  snd <$> List.find (fun e => String.eqb (fst e) k) m.

Fixpoint map_set (k : string) (v : Subscription)
  (m : list (string * Subscription)) : list (string * Subscription) :=
  match m with
  | [] => [(k, v)]
  | (k', v') :: rest =>
      if String.eqb k' k then (k, v) :: rest else (k', v') :: map_set k v rest
  end.

Definition map_delete (k : string) (m : list (string * Subscription))
  : list (string * Subscription) :=
  List.filter (fun e => negb (String.eqb (fst e) k)) m.

(** [subscribe(tableName, callback, filters)], for a store whose [subscribe]
    returns.  [stamp] is the text [`${Date.now()}_${Math.random()}`] and
    [clock] the later reading of [Date.now()].  The result is the
    [subscriptionId] of the object returned, [None] for [null]; the
    [unsubscribe] member of that object calls [this.unsubscribe] with it. *)
Definition subscribe (table : json) (stamp : string) (clock : Z)
  (st : state) : state * option string :=
  if firebase st then
    let subscriptionId := js_String table +:+ "_" +:+ stamp in
    let opened := nextFeed st in
    ({| firebase := firebase st;
        subscriptions :=
          map_set subscriptionId
            {| feed := opened; tableName := table; createdAt := clock |}
            (subscriptions st);
        nextFeed := S opened;
        trace := trace st ++ [Subscribed table opened] |},
     Some subscriptionId)
  else (st, None).

(** [unsubscribe(subscriptionId)] *)
Definition unsubscribe (subscriptionId : string) (st : state)
  : state * bool :=
  match map_get subscriptionId (subscriptions st) with
  | Some subscription =>
      ({| firebase := firebase st;
          subscriptions := map_delete subscriptionId (subscriptions st);
          nextFeed := nextFeed st;
          trace := trace st ++ [Unsubscribed (feed subscription)] |},
       true)
  | None => (st, false)
  end.

(** [unsubscribeAll()] *)
Definition unsubscribeAll (st : state) : state :=
  {| firebase := firebase st;
     subscriptions := [];
     nextFeed := nextFeed st;
     trace := trace st
              ++ ((fun e => Unsubscribed (feed (snd e))) <$> subscriptions st)
  |}.

(** [new DatabaseAdapter()], once initialised. *)
Definition constructor (hasFirebase : bool) : state :=
  {| firebase := hasFirebase; subscriptions := []; nextFeed := 0;
     trace := [] |}.

(** The feeds the trace shows opened and cancelled, and those stored. *)
Definition opened (t : list effect) : list nat :=
  omap (fun e => match e with
                 | Subscribed _ f => Some f
                 | Unsubscribed _ => None
                 end) t.

Definition cancelled (t : list effect) : list nat :=
  omap (fun e => match e with
                 | Unsubscribed f => Some f
                 | Subscribed _ _ => None
                 end) t.

Definition stored (st : state) : list nat :=
  (fun e => feed (snd e)) <$> subscriptions st.

(** The states of an adapter used through these three methods, when the
    identifier drawn for a subscription is not that of one stored. *)
Inductive reachable : state → Prop :=
| reachable_new hasFirebase : reachable (constructor hasFirebase)
| reachable_subscribe table stamp clock st :
    reachable st →
    map_get (js_String table +:+ "_" +:+ stamp) (subscriptions st) = None →
    reachable (fst (subscribe table stamp clock st))
| reachable_unsubscribe subscriptionId st :
    reachable st → reachable (fst (unsubscribe subscriptionId st))
| reachable_unsubscribeAll st :
    reachable st → reachable (unsubscribeAll st).

(** The invariant: the feeds opened are numbered in order, the keys of the
    map are distinct, and every feed opened is either stored or cancelled. *)
Definition accounted (st : state) : Prop :=
  opened (trace st) = seq 0 (nextFeed st)
  ∧ NoDup (fst <$> subscriptions st)
  ∧ opened (trace st) ≡ₚ cancelled (trace st) ++ stored st.

End DatabaseAdapter.

(** * Properties *)

(** ** What the helpers leave alone *)

Ltac split_cases :=
  repeat (case_match; simpl in *; try done).

Lemma rooms_ws_send ws m st : rooms (fst (ws_send ws m st)) = rooms st.
Proof. unfold ws_send. by split_cases. Qed.

Lemma clients_ws_send ws m st : clients (fst (ws_send ws m st)) = clients st.
Proof. unfold ws_send. by split_cases. Qed.

Lemma sockets_ws_send ws m st : sockets (fst (ws_send ws m st)) = sockets st.
Proof. unfold ws_send. by split_cases. Qed.

Lemma config_ws_send ws m st : config (fst (ws_send ws m st)) = config st.
Proof. unfold ws_send. by split_cases. Qed.

Lemma rooms_sendToClient ws m st : rooms (_sendToClient ws m st) = rooms st.
Proof. unfold _sendToClient. case_match; [apply rooms_ws_send | done]. Qed.

Lemma clients_sendToClient ws m st :
  clients (_sendToClient ws m st) = clients st.
Proof. unfold _sendToClient. case_match; [apply clients_ws_send | done]. Qed.

Lemma sockets_sendToClient ws m st :
  sockets (_sendToClient ws m st) = sockets st.
Proof. unfold _sendToClient. case_match; [apply sockets_ws_send | done]. Qed.

Lemma config_sendToClient ws m st :
  config (_sendToClient ws m st) = config st.
Proof. unfold _sendToClient. case_match; [apply config_ws_send | done]. Qed.

Lemma rooms_sendToRenderer c m st : rooms (_sendToRenderer c m st) = rooms st.
Proof. unfold _sendToRenderer. by case_match. Qed.

Lemma clients_sendToRenderer c m st :
  clients (_sendToRenderer c m st) = clients st.
Proof. unfold _sendToRenderer. by case_match. Qed.

Lemma sockets_sendToRenderer c m st :
  sockets (_sendToRenderer c m st) = sockets st.
Proof. unfold _sendToRenderer. by case_match. Qed.

Lemma rooms_ws_close ws code reason st :
  rooms (ws_close ws code reason st) = rooms st.
Proof. unfold ws_close. by split_cases. Qed.

Lemma clients_ws_close ws code reason st :
  clients (ws_close ws code reason st) = clients st.
Proof. unfold ws_close. by split_cases. Qed.

Lemma rooms_db_request call k st : rooms (db_request call k st) = rooms st.
Proof. done. Qed.

Lemma clients_db_request call k st :
  clients (db_request call k st) = clients st.
Proof. done. Qed.

Lemma sockets_db_request call k st :
  sockets (db_request call k st) = sockets st.
Proof. done. Qed.

(** The loop of [broadcastToRoom] only writes to sockets: the handler's own
    fields, the sockets' state and the sessions are as before. *)
Lemma deliver_frame m acc x :
  rooms (fst (deliver m acc x)) = rooms (fst acc)
  ∧ clients (fst (deliver m acc x)) = clients (fst acc)
  ∧ sockets (fst (deliver m acc x)) = sockets (fst acc).
Proof.
  unfold deliver. repeat case_match; simpl; auto.
  all: by rewrite rooms_ws_send, clients_ws_send, sockets_ws_send.
Qed.

Lemma foldl_deliver_frame m l acc :
  rooms (fst (foldl (deliver m) acc l)) = rooms (fst acc)
  ∧ clients (fst (foldl (deliver m) acc l)) = clients (fst acc)
  ∧ sockets (fst (foldl (deliver m) acc l)) = sockets (fst acc).
Proof.
  revert acc. induction l as [|x l IH]; intros acc; simpl; [done|].
  destruct (IH (deliver m acc x)) as (-> & -> & ->). apply deliver_frame.
Qed.

Lemma broadcastToRoom_frame k m st :
  rooms (fst (broadcastToRoom k m st)) = rooms st
  ∧ clients (fst (broadcastToRoom k m st)) = clients st
  ∧ sockets (fst (broadcastToRoom k m st)) = sockets st.
Proof.
  unfold broadcastToRoom. repeat case_match; simpl; auto.
  apply (foldl_deliver_frame m _ (st, 0)).
Qed.

Lemma rooms_broadcastToRoom k m st :
  rooms (fst (broadcastToRoom k m st)) = rooms st.
Proof. apply broadcastToRoom_frame. Qed.

Lemma clients_broadcastToRoom k m st :
  clients (fst (broadcastToRoom k m st)) = clients st.
Proof. apply broadcastToRoom_frame. Qed.

Lemma sockets_broadcastToRoom k m st :
  sockets (fst (broadcastToRoom k m st)) = sockets st.
Proof. apply broadcastToRoom_frame. Qed.

Lemma rooms_checkAuthAndSend ws c st :
  rooms (fst (_checkAuthAndSend ws c st)) = rooms st.
Proof.
  unfold _checkAuthAndSend.
  case_match; simpl; [apply rooms_sendToClient | done].
Qed.

Lemma clients_checkAuthAndSend ws c st :
  clients (fst (_checkAuthAndSend ws c st)) = clients st.
Proof.
  unfold _checkAuthAndSend.
  case_match; simpl; [apply clients_sendToClient | done].
Qed.

Lemma sockets_checkAuthAndSend ws c st :
  sockets (fst (_checkAuthAndSend ws c st)) = sockets st.
Proof.
  unfold _checkAuthAndSend.
  case_match; simpl; [apply sockets_sendToClient | done].
Qed.

Create Rewrite HintDb frame.

#[export] Hint Rewrite
  rooms_ws_send rooms_sendToClient rooms_sendToRenderer rooms_ws_close
  rooms_db_request rooms_broadcastToRoom rooms_checkAuthAndSend
  clients_ws_send clients_sendToClient clients_sendToRenderer clients_ws_close
  clients_db_request clients_broadcastToRoom clients_checkAuthAndSend
  sockets_ws_send sockets_sendToClient sockets_sendToRenderer
  sockets_db_request sockets_broadcastToRoom sockets_checkAuthAndSend
  config_ws_send config_sendToClient : frame.

Ltac frame :=
  repeat (first
    [ progress autorewrite with frame
    | progress simpl
    | case_match ]);
  try done.

(** ** The room map *)

Lemma rooms_has_get k rs : rooms_has k rs = true ↔ is_Some (rooms_get k rs).
Proof.
  unfold rooms_has, rooms_get.
  induction rs as [|e rs IH]; simpl.
  - split; [done | by intros [? ?]].
  - destruct (is_key k e); simpl; [by split; eauto | done].
Qed.

Lemma rooms_get_elem k rs r :
  rooms_get k rs = Some r → ∃ k', In (k', r) rs.
Proof.
  unfold rooms_get. destruct (List.find (is_key k) rs) as [[k' r']|] eqn:E;
    simpl; [|done].
  intros [= ->]. apply find_some in E as [E _]. eauto.
Qed.

Lemma set_add_inhabited x l : set_add x l ≠ [].
Proof.
  unfold set_add. case_bool_decide as H.
  - intros ->. by apply not_elem_of_nil in H.
  - by destruct l.
Qed.

Lemma rooms_inhabited_join k fresh x rs :
  rooms_inhabited rs → rooms_inhabited (rooms_join k fresh x rs).
Proof.
  unfold rooms_inhabited, rooms_join, rooms_alter. intros H.
  destruct (rooms_has k rs).
  - apply Forall_forall. intros e He.
    apply list_elem_of_In, in_map_iff in He as (e0 & <- & He0).
    destruct (is_key k e0); simpl.
    + apply set_add_inhabited.
    + rewrite Forall_forall in H. apply H. by apply list_elem_of_In.
  - apply Forall_app. split; [done|].
    apply Forall_singleton. simpl. apply set_add_inhabited.
Qed.

Lemma rooms_inhabited_alter f k rs :
  (∀ r, members (f r) ≠ []) →
  rooms_inhabited rs → rooms_inhabited (rooms_alter f k rs).
Proof.
  unfold rooms_inhabited, rooms_alter. intros Hf H.
  apply Forall_forall. intros e He.
  apply list_elem_of_In, in_map_iff in He as (e0 & <- & He0).
  destruct (is_key k e0); simpl; [done|].
  rewrite Forall_forall in H. apply H. by apply list_elem_of_In.
Qed.

Lemma rooms_inhabited_delete_alter f k rs :
  rooms_inhabited rs → rooms_inhabited (rooms_delete k (rooms_alter f k rs)).
Proof.
  unfold rooms_inhabited, rooms_delete, rooms_alter. intros H.
  apply Forall_forall. intros e He.
  apply list_elem_of_In, filter_In in He as [He Hk].
  apply in_map_iff in He as (e0 & <- & He0).
  destruct (is_key k e0) eqn:E.
  - unfold is_key in *. simpl in Hk. by rewrite E in Hk.
  - rewrite Forall_forall in H. apply H. by apply list_elem_of_In.
Qed.

Lemma rooms_rooms_leave k x f st :
  (∀ s, rooms (f s) = rooms s) →
  rooms (rooms_leave k x f st) =
    match rooms_get k (rooms st) with
    | Some room =>
        let rest := set_delete x (members room) in
        if Nat.eqb (length rest) 0
        then rooms_delete k (rooms_alter (set_members rest) k (rooms st))
        else rooms_alter (set_members rest) k (rooms st)
    | None => rooms st
    end.
Proof.
  intros Hf. unfold rooms_leave.
  destruct (rooms_get k (rooms st)); [|done]. simpl.
  destruct (Nat.eqb _ 0); simpl; [|done]. by rewrite Hf.
Qed.

Lemma rooms_inhabited_leave k x f st :
  (∀ s, rooms (f s) = rooms s) →
  rooms_inhabited (rooms st) →
  rooms_inhabited (rooms (rooms_leave k x f st)).
Proof.
  intros Hf H. rewrite rooms_rooms_leave by done.
  destruct (rooms_get k (rooms st)); [|done]. simpl.
  destruct (Nat.eqb _ 0) eqn:E.
  - by apply rooms_inhabited_delete_alter.
  - apply rooms_inhabited_alter; [|done].
    intros r0. simpl. intros Hnil. by rewrite Hnil in E.
Qed.

(** ** Rooms are never left empty *)

Lemma rooms_resume k o st : rooms (resume k o st) = rooms st.
Proof. unfold resume, database_error. frame. Qed.

Lemma rooms_handleAuthentication ws c m st :
  rooms (_handleAuthentication ws c m st) = rooms st.
Proof. unfold _handleAuthentication. frame. Qed.

Lemma rooms_handleSensorData ws c m st :
  rooms (_handleSensorData ws c m st) = rooms st.
Proof. unfold _handleSensorData, _saveToDatabase. frame. Qed.

Lemma rooms_handleHeartbeat ws c m st :
  rooms (_handleHeartbeat ws c m st) = rooms st.
Proof. unfold _handleHeartbeat. frame. Qed.

Lemma rooms_handleDatabaseCreate ws c m st :
  rooms (_handleDatabaseCreate ws c m st) = rooms st.
Proof. unfold _handleDatabaseCreate. frame. Qed.

Lemma rooms_handleDatabaseRead ws c m st :
  rooms (_handleDatabaseRead ws c m st) = rooms st.
Proof. unfold _handleDatabaseRead. frame. Qed.

Lemma rooms_handleDatabaseUpdate ws c m st :
  rooms (_handleDatabaseUpdate ws c m st) = rooms st.
Proof. unfold _handleDatabaseUpdate. frame. Qed.

Lemma rooms_handleDatabaseDelete ws c m st :
  rooms (_handleDatabaseDelete ws c m st) = rooms st.
Proof. unfold _handleDatabaseDelete. frame. Qed.

Lemma rooms_cancel r s :
  rooms (match dbSubscriptions s !! r with
         | Some feed => cancel_feed r feed s
         | None => s
         end) = rooms s.
Proof. by case_match. Qed.

Lemma rooms_inhabited_subscribe ws c m st :
  rooms_inhabited (rooms st) →
  rooms_inhabited (rooms (_handleDatabaseSubscribe ws c m st)).
Proof.
  intros H. unfold _handleDatabaseSubscribe, open_feed.
  repeat case_match; autorewrite with frame; simpl; try done.
  all: by apply rooms_inhabited_join.
Qed.

Lemma rooms_inhabited_unsubscribe ws c m st :
  rooms_inhabited (rooms st) →
  rooms_inhabited (rooms (_handleDatabaseUnsubscribe ws c m st)).
Proof.
  intros H. unfold _handleDatabaseUnsubscribe.
  case_match; [done|]. autorewrite with frame.
  apply rooms_inhabited_leave; [|done]. intros s. apply rooms_cancel.
Qed.

Lemma rooms_inhabited_joinRoom ws c m st :
  rooms_inhabited (rooms st) →
  rooms_inhabited (rooms (_handleJoinRoom ws c m st)).
Proof.
  intros H. unfold _handleJoinRoom.
  case_match; [done|]. autorewrite with frame. simpl.
  by apply rooms_inhabited_join.
Qed.

Lemma rooms_inhabited_leaveRoom ws c m st :
  rooms_inhabited (rooms st) →
  rooms_inhabited (rooms (_handleLeaveRoom ws c m st)).
Proof.
  intros H. unfold _handleLeaveRoom.
  case_match; [done|]. autorewrite with frame.
  by apply rooms_inhabited_leave.
Qed.

Lemma rooms_inhabited_dispatch ws c m st :
  rooms_inhabited (rooms st) →
  rooms_inhabited (rooms (outcome_state (dispatch ws c m st))).
Proof.
  intros H. unfold dispatch.
  repeat case_match; simpl;
    rewrite ?rooms_handleAuthentication, ?rooms_handleSensorData,
      ?rooms_handleHeartbeat, ?rooms_handleDatabaseCreate,
      ?rooms_handleDatabaseRead, ?rooms_handleDatabaseUpdate,
      ?rooms_handleDatabaseDelete, ?rooms_sendToClient;
    auto using rooms_inhabited_subscribe, rooms_inhabited_unsubscribe,
      rooms_inhabited_joinRoom, rooms_inhabited_leaveRoom.
Qed.

Lemma rooms_inhabited_handleClientMessage ws raw st :
  rooms_inhabited (rooms st) →
  rooms_inhabited (rooms (_handleClientMessage ws raw st)).
Proof.
  intros H. unfold _handleClientMessage.
  destruct raw as [m|]; [|by rewrite rooms_sendToClient].
  destruct (session_of ws _) as [c|]; [|done].
  pose proof (rooms_inhabited_dispatch ws c m
                (alter_session (count_message (now st)) ws st) H) as Hd.
  destruct (dispatch _ _ _ _); simpl in Hd; [done|].
  by rewrite rooms_sendToClient.
Qed.

Lemma rooms_inhabited_step e st :
  rooms_inhabited (rooms st) → rooms_inhabited (rooms (step e st)).
Proof.
  intros H. destruct e; simpl.
  - unfold start. frame.
  - unfold _handleNewConnection, _startClientHeartbeat. frame.
  - case_match; [|done]. by apply rooms_inhabited_handleClientMessage.
  - unfold _handleClientDisconnection. frame.
  - by case_match.
  - unfold heartbeat_tick. frame.
  - unfold auth_timeout. frame.
  - case_match; [|done]. by rewrite rooms_resume.
  - repeat case_match; try done. by rewrite rooms_broadcastToRoom.
  - done.
  - done.
Qed.

Lemma reachable_rooms_inhabited st :
  reachable st → rooms_inhabited (rooms st).
Proof.
  induction 1 as [|e st _ IH]; [by constructor|].
  by apply rooms_inhabited_step.
Qed.

(** ** Sockets across a callback *)

Lemma evolves_refl s : evolves s s.
Proof. by repeat split. Qed.

Lemma evolves_trans s1 s2 s3 : evolves s1 s2 → evolves s2 s3 → evolves s1 s3.
Proof.
  intros (A1 & B1 & C1 & D1) (A2 & B2 & C2 & D2). repeat split.
  - congruence.
  - intros H. by apply B1, B2.
  - intros H. by apply B2, B1.
  - lia.
  - auto.
Qed.

Lemma sockets_evolve_refl m : sockets_evolve m m.
Proof.
  intros w. destruct (m !! w); constructor. apply evolves_refl.
Qed.

Lemma sockets_evolve_alter f w m m' :
  (∀ s, evolves s (f s)) →
  sockets_evolve m m' → sockets_evolve m (alter f w m').
Proof.
  intros Hf H w'. specialize (H w').
  destruct (decide (w = w')) as [->|Hne].
  - rewrite lookup_alter_eq. destruct H as [s s' H|]; constructor.
    eapply evolves_trans; [exact H | apply Hf].
  - by rewrite lookup_alter_ne.
Qed.

Lemma evolves_closing s : evolves s (closing s).
Proof.
  unfold closing, evolves.
  destruct s as [[] ? ? ? ?]; simpl; repeat split; try done; lia.
Qed.

Lemma evolves_set_session f s :
  (∀ c, id (f c) = id c) → evolves s (set_session (f <$> session s) s).
Proof.
  intros Hf. unfold evolves. simpl. repeat split; try done; try lia.
  destruct (session s); simpl; [by rewrite Hf | done].
Qed.

Lemma evolves_set_heartbeatTimer s : evolves s (set_heartbeatTimer false s).
Proof. by repeat split. Qed.

Lemma evolves_set_sendThrows b s : evolves s (set_sendThrows b s).
Proof. by repeat split. Qed.

Lemma evolves_more_timers s : evolves s (set_authTimers (S (authTimers s)) s).
Proof. repeat split; try done. simpl. lia. Qed.

Lemma sockets_ws_close ws code reason st :
  sockets (ws_close ws code reason st) = alter closing ws (sockets st).
Proof.
  unfold ws_close. apply map_eq. intros w.
  destruct (decide (ws = w)) as [->|Hne].
  - rewrite lookup_alter_eq.
    destruct (sockets st !! w) as [s|] eqn:E; simpl; [|by rewrite E].
    unfold closing.
    destruct (readyState s) eqn:R; simpl;
      rewrite ?lookup_alter_eq, ?E; simpl; try done.
    all: destruct s; simpl in *; by subst.
  - rewrite lookup_alter_ne by done.
    repeat case_match; simpl; rewrite ?lookup_alter_ne; done.
Qed.

#[export] Hint Rewrite sockets_ws_close : frame.

Ltac evolve :=
  repeat (first
    [ apply sockets_evolve_refl
    | apply sockets_evolve_alter;
        [ first [ apply evolves_closing
                | apply evolves_set_heartbeatTimer
                | apply evolves_set_sendThrows
                | apply evolves_more_timers
                | by (intros ?; apply evolves_set_session; intros []) ]
        | ] ]).

Lemma clients_rooms_leave k x f st :
  (∀ s, clients (f s) = clients s) →
  clients (rooms_leave k x f st) = clients st.
Proof. intros Hf. unfold rooms_leave. frame. by rewrite Hf. Qed.

Lemma sockets_rooms_leave k x f st :
  (∀ s, sockets (f s) = sockets s) →
  sockets (rooms_leave k x f st) = sockets st.
Proof. intros Hf. unfold rooms_leave. frame. by rewrite Hf. Qed.

Lemma clients_cancel r s :
  clients (match dbSubscriptions s !! r with
           | Some feed => cancel_feed r feed s
           | None => s
           end) = clients s.
Proof. by case_match. Qed.

Lemma sockets_cancel r s :
  sockets (match dbSubscriptions s !! r with
           | Some feed => cancel_feed r feed s
           | None => s
           end) = sockets s.
Proof. by case_match. Qed.

Lemma clients_dispatch ws c m st :
  clients (outcome_state (dispatch ws c m st)) = clients st.
Proof.
  unfold dispatch, _handleAuthentication, _handleSensorData, _saveToDatabase,
    _handleHeartbeat, _handleDatabaseCreate, _handleDatabaseRead,
    _handleDatabaseUpdate, _handleDatabaseDelete, _handleDatabaseSubscribe,
    _handleDatabaseUnsubscribe, _handleJoinRoom, _handleLeaveRoom.
  repeat case_match; simpl; autorewrite with frame; simpl; try done.
  all: rewrite clients_rooms_leave; try done.
  all: intros ?; apply clients_cancel.
Qed.

Lemma clients_handleClientMessage ws raw st :
  clients (_handleClientMessage ws raw st) = clients st.
Proof.
  unfold _handleClientMessage.
  destruct raw as [m|]; [|by autorewrite with frame].
  destruct (session_of ws _) as [c|]; [|done].
  pose proof (clients_dispatch ws c m
                (alter_session (count_message (now st)) ws st)) as Hd.
  destruct (dispatch _ _ _ _); simpl in Hd; autorewrite with frame; done.
Qed.

Lemma clients_resume k o st : clients (resume k o st) = clients st.
Proof. unfold resume, database_error. frame. Qed.

Lemma sockets_resume k o st : sockets (resume k o st) = sockets st.
Proof. unfold resume, database_error. frame. Qed.

Lemma sockets_evolve_dispatch ws c m st :
  sockets_evolve (sockets st) (sockets (outcome_state (dispatch ws c m st))).
Proof.
  unfold dispatch, _handleAuthentication, _handleSensorData, _saveToDatabase,
    _handleHeartbeat, _handleDatabaseCreate, _handleDatabaseRead,
    _handleDatabaseUpdate, _handleDatabaseDelete, _handleDatabaseSubscribe,
    _handleDatabaseUnsubscribe, _handleJoinRoom, _handleLeaveRoom,
    schedule_auth_close.
  repeat case_match; simpl; autorewrite with frame; simpl;
    rewrite ?sockets_rooms_leave by (try done; intros ?; apply sockets_cancel);
    evolve.
Qed.

Lemma sockets_evolve_handleClientMessage ws raw st :
  sockets_evolve (sockets st) (sockets (_handleClientMessage ws raw st)).
Proof.
  unfold _handleClientMessage.
  destruct raw as [m|]; [|autorewrite with frame; apply sockets_evolve_refl].
  set (st1 := alter_session (count_message (now st)) ws st).
  assert (sockets_evolve (sockets st) (sockets st1)) as H1.
  { subst st1. simpl. evolve. }
  destruct (session_of ws st1) as [c|]; [|done].
  pose proof (sockets_evolve_dispatch ws c m st1) as Hd.
  assert (sockets_evolve (sockets st)
            (sockets (outcome_state (dispatch ws c m st1)))) as H2.
  { intros w. specialize (H1 w). specialize (Hd w).
    destruct H1 as [s s1 H1|]; inversion Hd; subst; constructor.
    eapply evolves_trans; eauto. }
  destruct (dispatch _ _ _ _); simpl in H2; autorewrite with frame; done.
Qed.

Lemma sockets_evolve_step e st :
  (∀ w, ¬ is_Connection w e) → (∀ w, ¬ is_Closed w e) →
  (∀ w, e ≠ AuthTimeout w) →
  sockets_evolve (sockets st) (sockets (step e st)).
Proof.
  intros Hconn Hclosed Hauth. destruct e; simpl.
  - unfold start. frame; apply sockets_evolve_refl.
  - destruct (Hconn ws). by eexists _, _, _.
  - case_match; [|apply sockets_evolve_refl].
    apply sockets_evolve_handleClientMessage.
  - destruct (Hclosed ws). by eexists _, _.
  - case_match; [|apply sockets_evolve_refl]. simpl. evolve.
  - unfold heartbeat_tick. repeat case_match; simpl;
      autorewrite with frame; simpl; evolve.
  - by destruct (Hauth ws).
  - case_match; [|apply sockets_evolve_refl].
    rewrite sockets_resume. apply sockets_evolve_refl.
  - repeat case_match; autorewrite with frame; apply sockets_evolve_refl.
  - apply sockets_evolve_refl.
  - evolve.
Qed.

Lemma sockets_handleNewConnection ws ip a cid st :
  sockets (_handleNewConnection ws ip a cid st) !! ws
  = (if (maxConnections (config st) <=? connectionCount st)%Z
     then closing
     else fun s =>
            (if enableHeartbeat (config st)
             then set_heartbeatTimer true else fun s => s)
              (set_session
                 (Some {| id := cid; ip := ip;
                          userAgent := match a with
                                       | Some a0 =>
                                           if String.eqb a0 "" then "Unknown"
                                           else a0
                                       | None => "Unknown"
                                       end;
                          connectedAt := now st; lastHeartbeat := now st;
                          isAuthenticated :=
                            negb (enableAuthentication (config st));
                          dataReceived := 0; lastDataTime := None |}) s))
      <$> sockets st !! ws.
Proof.
  unfold _handleNewConnection, _startClientHeartbeat.
  destruct (_ <=? _)%Z.
  - by rewrite sockets_ws_close, lookup_alter_eq.
  - autorewrite with frame. simpl.
    destruct (enableHeartbeat (config st)); simpl;
      rewrite ?lookup_alter_eq; by destruct (sockets st !! ws).
Qed.

Lemma sockets_handleNewConnection_ne ws ip a cid st w :
  ws ≠ w →
  sockets (_handleNewConnection ws ip a cid st) !! w = sockets st !! w.
Proof.
  intros Hne. unfold _handleNewConnection, _startClientHeartbeat.
  destruct (_ <=? _)%Z.
  - by rewrite sockets_ws_close, lookup_alter_ne.
  - autorewrite with frame. simpl.
    destruct (enableHeartbeat (config st)); simpl;
      by rewrite ?lookup_alter_ne by done.
Qed.

Lemma clients_handleNewConnection ws ip a cid st :
  clients (_handleNewConnection ws ip a cid st)
  = if (maxConnections (config st) <=? connectionCount st)%Z
    then clients st else clients st ++ [ws].
Proof.
  unfold _handleNewConnection, _startClientHeartbeat.
  destruct (_ <=? _)%Z; frame.
Qed.

Lemma set_readyState_same s : set_readyState (readyState s) s = s.
Proof. by destruct s. Qed.

Lemma sockets_step_Closed ws code reason st :
  sockets (step (Closed ws code reason) st)
  = alter (set_readyState CLOSED) ws (sockets st).
Proof.
  simpl. apply map_eq. intros w.
  destruct (decide (ws = w)) as [->|Hne].
  - rewrite lookup_alter_eq.
    destruct (sockets st !! w) as [s|] eqn:E; [|by rewrite E].
    destruct (readyState s) eqn:R; try destruct (session s);
      unfold _handleClientDisconnection; autorewrite with frame; simpl;
      rewrite ?lookup_alter_eq, E; simpl; try done.
    all: by rewrite <- R, set_readyState_same.
  - rewrite lookup_alter_ne by done.
    destruct (sockets st !! ws) as [s|] eqn:E; [|done].
    destruct (readyState s) eqn:R; try destruct (session s);
      unfold _handleClientDisconnection; autorewrite with frame; simpl;
      by rewrite ?lookup_alter_ne by done.
Qed.

Lemma sockets_step_AuthTimeout ws st :
  sockets (step (AuthTimeout ws) st) = alter timer_fired ws (sockets st).
Proof.
  simpl. apply map_eq. intros w.
  destruct (decide (ws = w)) as [->|Hne].
  - rewrite lookup_alter_eq.
    destruct (sockets st !! w) as [s|] eqn:E; simpl; [|by rewrite E].
    unfold timer_fired, auth_timeout, is_open.
    destruct (authTimers s) as [|n] eqn:T; [by rewrite E|].
    simpl. rewrite lookup_alter_eq, E. simpl.
    destruct (readyState s) eqn:R; simpl; autorewrite with frame; simpl;
      rewrite ?lookup_alter_eq, ?E; simpl; try done.
    unfold closing. simpl. by rewrite R.
  - rewrite lookup_alter_ne by done.
    destruct (sockets st !! ws) as [s|]; [|done].
    destruct (authTimers s); [done|].
    unfold auth_timeout. case_match; autorewrite with frame; simpl;
      by rewrite ?lookup_alter_ne by done.
Qed.

Lemma sockets_step_Connection ws ip a cid st w :
  ws ≠ w ∨ is_Some (sockets st !! ws) →
  sockets (step (Connection ws ip a cid) st) !! w = sockets st !! w.
Proof.
  intros H. simpl.
  destruct (isRunning st && bool_decide (sockets st !! ws = None)) eqn:G;
    [|done].
  apply andb_prop in G as [_ G]. apply bool_decide_eq_true in G.
  destruct H as [H|[? H]]; [|congruence].
  rewrite sockets_handleNewConnection_ne by done. simpl.
  by rewrite lookup_insert_ne.
Qed.

(** What any event does to a socket that exists. *)
Lemma step_socket e st w s :
  sockets st !! w = Some s →
  ∃ s', sockets (step e st) !! w = Some s'
        ∧ id <$> session s' = id <$> session s
        ∧ (readyState s = CLOSED → readyState s' = CLOSED)
        ∧ (readyState s' = CLOSED → readyState s = CLOSED ∨ is_Closed w e)
        ∧ (e ≠ AuthTimeout w → (authTimers s ≤ authTimers s')%nat)
        ∧ (heartbeatTimer s' = true → heartbeatTimer s = true).
Proof.
  intros Hs.
  assert (sockets_evolve (sockets st) (sockets (step e st)) →
          ∃ s', sockets (step e st) !! w = Some s'
                ∧ id <$> session s' = id <$> session s
                ∧ (readyState s = CLOSED → readyState s' = CLOSED)
                ∧ (readyState s' = CLOSED →
                   readyState s = CLOSED ∨ is_Closed w e)
                ∧ (e ≠ AuthTimeout w → (authTimers s ≤ authTimers s')%nat)
                ∧ (heartbeatTimer s' = true → heartbeatTimer s = true))
    as Hev.
  { intros H. specialize (H w). rewrite Hs in H.
    inversion H as [? s' (A & B & C & D) E1 E2|]; subst.
    exists s'. repeat split; auto; [by apply B | left; by apply B]. }
  destruct e;
    try (apply Hev, sockets_evolve_step;
         [ intros ? (? & ? & ? & ?); done
         | intros ? (? & ? & ?); done
         | intros ?; done ]); clear Hev.
  - (* Connection *)
    rewrite sockets_step_Connection.
    + exists s. repeat split; auto.
    + destruct (decide (ws = w)) as [->|]; [right; by rewrite Hs | by left].
  - (* Closed *)
    rewrite sockets_step_Closed.
    destruct (decide (ws = w)) as [->|Hne].
    + rewrite lookup_alter_eq, Hs. simpl. eexists; split; [done|].
      simpl. repeat split; auto. intros _. right. by eexists _, _.
    + rewrite lookup_alter_ne by done. exists s. repeat split; auto.
  - (* AuthTimeout *)
    rewrite sockets_step_AuthTimeout.
    destruct (decide (ws = w)) as [->|Hne].
    + rewrite lookup_alter_eq, Hs. simpl. eexists; split; [done|].
      unfold timer_fired.
      destruct s as [[] ? ? ? []]; simpl; repeat split; auto; done.
    + rewrite lookup_alter_ne by done. exists s. repeat split; auto.
Qed.

Lemma step_socket_new e st w s' :
  sockets st !! w = None → sockets (step e st) !! w = Some s' →
  is_Connection w e ∧ readyState s' ≠ CLOSED
  ∧ (is_Some (session s') → w ∈ clients (step e st)).
Proof.
  intros Hn Hs'. destruct e.
  all: try (exfalso;
            match type of Hs' with
            | sockets (step ?e _) !! _ = _ =>
                assert (sockets_evolve (sockets st) (sockets (step e st)))
                  as H
                  by (apply sockets_evolve_step;
                      [ intros ? (? & ? & ? & ?); done
                      | intros ? (? & ? & ?); done
                      | intros ?; done ])
            end;
            specialize (H w); rewrite Hn, Hs' in H; by inversion H).
  - destruct (decide (ws = w)) as [->|Hne].
    + split; [by eexists _, _, _|]. revert Hs'. simpl.
      rewrite Hn. rewrite bool_decide_eq_true_2 by done.
      destruct (isRunning st); simpl; [|by rewrite Hn].
      rewrite sockets_handleNewConnection, clients_handleNewConnection. simpl.
      rewrite lookup_insert_eq. simpl.
      destruct (_ <=? _)%Z; intros [= <-].
      * split; [done|]. by intros [? ?].
      * split; [by destruct (enableHeartbeat _)|].
        intros _. apply elem_of_app. right. by apply list_elem_of_singleton.
    + exfalso. rewrite sockets_step_Connection in Hs' by auto. congruence.
  - exfalso. rewrite sockets_step_Closed in Hs'.
    destruct (decide (ws = w)) as [->|].
    + by rewrite lookup_alter_eq, Hn in Hs'.
    + rewrite lookup_alter_ne in Hs' by done. congruence.
  - exfalso. rewrite sockets_step_AuthTimeout in Hs'.
    destruct (decide (ws = w)) as [->|].
    + by rewrite lookup_alter_eq, Hn in Hs'.
    + rewrite lookup_alter_ne in Hs' by done. congruence.
Qed.

Lemma clients_step_other e st :
  (∀ w, ¬ is_Connection w e) → (∀ w, ¬ is_Closed w e) →
  clients (step e st) = clients st.
Proof.
  intros Hconn Hclosed. destruct e; simpl.
  - unfold start. frame.
  - destruct (Hconn ws). by eexists _, _, _.
  - case_match; [|done]. apply clients_handleClientMessage.
  - destruct (Hclosed ws). by eexists _, _.
  - by case_match.
  - unfold heartbeat_tick. frame.
  - unfold auth_timeout. frame.
  - case_match; [|done]. by rewrite clients_resume.
  - repeat case_match; try done. by rewrite clients_broadcastToRoom.
  - done.
  - done.
Qed.

Lemma clients_step_Closed ws code reason st :
  clients (step (Closed ws code reason) st) = clients st
  ∨ clients (step (Closed ws code reason) st)
    = filter (fun w => w ≠ ws) (clients st).
Proof.
  simpl. unfold _handleClientDisconnection.
  repeat case_match; autorewrite with frame; simpl; auto.
Qed.

Lemma clients_step_Connection ws ip a cid st :
  clients (step (Connection ws ip a cid) st) = clients st
  ∨ (sockets st !! ws = None
     ∧ clients (step (Connection ws ip a cid) st) = clients st ++ [ws]).
Proof.
  simpl. destruct (isRunning st && _) eqn:G; [|by left].
  apply andb_prop in G as [_ G]. apply bool_decide_eq_true in G.
  rewrite clients_handleNewConnection. simpl.
  destruct (_ <=? _)%Z; auto.
Qed.

Lemma clients_step_keeps e st w :
  w ∈ clients st → w ∈ clients (step e st) ∨ is_Closed w e.
Proof.
  intros Hw.
  destruct e; try (left; rewrite clients_step_other;
                   [ done | intros ? (? & ? & ? & ?); done
                   | intros ? (? & ? & ?); done ]).
  - left. destruct (clients_step_Connection ws clientIP agent clientId st)
      as [->|[_ ->]]; [done|]. apply elem_of_app. by left.
  - destruct (decide (ws = w)) as [->|Hne]; [right; by eexists _, _|].
    left. destruct (clients_step_Closed ws code reason st) as [->| ->];
      [done|]. by apply list_elem_of_filter.
Qed.

Lemma listeners_registered_step e st :
  listeners_registered st → listeners_registered (step e st).
Proof.
  intros I ws s' Hs' Hsess Hopen.
  destruct (sockets st !! ws) as [s|] eqn:E.
  - destruct (step_socket e st ws s E) as (s'' & Hs'' & Hid & Hc & Hc' & _).
    assert (s'' = s') as -> by congruence.
    assert (ws ∈ clients st) as Hin.
    { apply (I ws s E).
      - destruct (session s'), (session s); simpl in *; try done; eauto.
      - intros H. by apply Hopen, Hc. }
    destruct (clients_step_keeps e st ws Hin) as [|(code & reason & ->)];
      [done|].
    rewrite sockets_step_Closed, lookup_alter_eq, E in Hs'. simpl in Hs'.
    by injection Hs' as <-.
  - by apply (step_socket_new e st ws s' E Hs').
Qed.

Lemma has_session_step e st x :
  has_session x (sockets st) → has_session x (sockets (step e st)).
Proof.
  intros (ws & s & c & Hs & Hsess & Hid).
  destruct (step_socket e st ws s Hs) as (s' & Hs' & Hid' & _).
  rewrite Hsess in Hid'. simpl in Hid'.
  destruct (session s') as [c'|] eqn:E; simpl in Hid'; [|done].
  exists ws, s', c'. repeat split; auto. congruence.
Qed.

Lemma has_session_evolve m m' x :
  sockets_evolve m m' → has_session x m → has_session x m'.
Proof.
  intros H (ws & s & c & Hs & Hsess & Hid). specialize (H ws).
  rewrite Hs in H. inversion H as [? s' (A & _) E1 E2|]; subst.
  rewrite Hsess in A. simpl in A.
  destruct (session s') as [c'|] eqn:E; simpl in A; [|done].
  exists ws, s', c'. repeat split; auto. congruence.
Qed.

Lemma elem_of_set_add y x l : y ∈ set_add x l → y = x ∨ y ∈ l.
Proof.
  unfold set_add. case_bool_decide; [by right|].
  rewrite elem_of_app, list_elem_of_singleton. tauto.
Qed.

Lemma elem_of_set_delete y x l : y ∈ set_delete x l → y ∈ l.
Proof. unfold set_delete. rewrite list_elem_of_filter. tauto. Qed.

Lemma member_join y k fresh x rs :
  members fresh = [] →
  member_somewhere y (rooms_join k fresh x rs) →
  y = x ∨ member_somewhere y rs.
Proof.
  intros Hf (k' & r & Hin & Hy). unfold rooms_join, rooms_alter in Hin.
  destruct (rooms_has k rs).
  - apply in_map_iff in Hin as ([k0 r0] & Heq & Hin).
    destruct (is_key k (k0, r0)); simpl in Heq; injection Heq as <- <-.
    + simpl in Hy. apply elem_of_set_add in Hy as [|Hy]; [by left|].
      right. by exists k0, r0.
    + right. by exists k0, r0.
  - apply in_app_or in Hin as [Hin|[Heq|[]]].
    + right. by exists k', r.
    + injection Heq as <- <-. simpl in Hy. rewrite Hf in Hy.
      apply elem_of_set_add in Hy as [|Hy]; [by left|].
      by apply not_elem_of_nil in Hy.
Qed.

Lemma member_leave y k x f st :
  (∀ s, rooms (f s) = rooms s) →
  member_somewhere y (rooms (rooms_leave k x f st)) →
  member_somewhere y (rooms st).
Proof.
  intros Hf. rewrite rooms_rooms_leave by done.
  destruct (rooms_get k (rooms st)) as [room|] eqn:E; [|done]. simpl.
  assert (∀ k' r,
            In (k', r) (rooms_alter (set_members (set_delete x (members room)))
                          k (rooms st)) →
            y ∈ members r → member_somewhere y (rooms st)) as Halter.
  { intros k' r Hin Hy. unfold rooms_alter in Hin.
    apply in_map_iff in Hin as ([k0 r0] & Heq & Hin).
    destruct (is_key k (k0, r0)); simpl in Heq; injection Heq as <- <-.
    - simpl in Hy. apply elem_of_set_delete in Hy.
      apply rooms_get_elem in E as [k1 Hin1]. by exists k1, room.
    - by exists k0, r0. }
  destruct (Nat.eqb _ 0); intros (k' & r & Hin & Hy).
  - unfold rooms_delete in Hin. apply filter_In in Hin as [Hin _]. eauto.
  - eauto.
Qed.

Lemma member_subscribe ws c m st y :
  member_somewhere y (rooms (_handleDatabaseSubscribe ws c m st)) →
  y = id c ∨ member_somewhere y (rooms st).
Proof.
  unfold _handleDatabaseSubscribe, open_feed.
  repeat case_match; autorewrite with frame; simpl; auto.
  all: by apply member_join.
Qed.

Lemma member_unsubscribe ws c m st y :
  member_somewhere y (rooms (_handleDatabaseUnsubscribe ws c m st)) →
  y = id c ∨ member_somewhere y (rooms st).
Proof.
  unfold _handleDatabaseUnsubscribe.
  case_match; auto. autorewrite with frame. intros Hy. right.
  eapply member_leave; [|done]. intros ?. apply rooms_cancel.
Qed.

Lemma member_joinRoom ws c m st y :
  member_somewhere y (rooms (_handleJoinRoom ws c m st)) →
  y = id c ∨ member_somewhere y (rooms st).
Proof.
  unfold _handleJoinRoom.
  case_match; auto. autorewrite with frame. simpl. by apply member_join.
Qed.

Lemma member_leaveRoom ws c m st y :
  member_somewhere y (rooms (_handleLeaveRoom ws c m st)) →
  y = id c ∨ member_somewhere y (rooms st).
Proof.
  unfold _handleLeaveRoom.
  case_match; auto. autorewrite with frame. intros Hy. right.
  by eapply member_leave.
Qed.

Lemma member_dispatch ws c m st y :
  member_somewhere y (rooms (outcome_state (dispatch ws c m st))) →
  y = id c ∨ member_somewhere y (rooms st).
Proof.
  unfold dispatch.
  repeat case_match; simpl;
    rewrite ?rooms_handleAuthentication, ?rooms_handleSensorData,
      ?rooms_handleHeartbeat, ?rooms_handleDatabaseCreate,
      ?rooms_handleDatabaseRead, ?rooms_handleDatabaseUpdate,
      ?rooms_handleDatabaseDelete, ?rooms_sendToClient;
    first [ by right | apply member_subscribe | apply member_unsubscribe
          | apply member_joinRoom | apply member_leaveRoom ].
Qed.

Lemma rooms_step_other e st :
  (∀ ws raw, e ≠ Message ws raw) → rooms (step e st) = rooms st.
Proof.
  intros Hm. destruct e; simpl.
  - unfold start. frame.
  - unfold _handleNewConnection, _startClientHeartbeat. frame.
  - by destruct (Hm ws rawData).
  - unfold _handleClientDisconnection. frame.
  - by case_match.
  - unfold heartbeat_tick. frame.
  - unfold auth_timeout. frame.
  - case_match; [|done]. by rewrite rooms_resume.
  - repeat case_match; try done. by rewrite rooms_broadcastToRoom.
  - done.
  - done.
Qed.

Lemma session_of_has_session ws st c :
  session_of ws st = Some c → has_session (id c) (sockets st).
Proof.
  unfold session_of. destruct (sockets st !! ws) as [s|] eqn:E; [|done].
  intros H. by exists ws, s, c.
Qed.

Lemma members_known_step e st : members_known st → members_known (step e st).
Proof.
  intros I x Hx.
  destruct e;
    try (apply has_session_step, I; rewrite rooms_step_other in Hx;
         [done | intros ? ?; discriminate]).
  - revert Hx. simpl. destruct (listening ws st); [|by apply I].
    unfold _handleClientMessage.
    destruct rawData as [m|]; [|autorewrite with frame; by apply I].
    set (st1 := alter_session (count_message (now st)) ws st).
    assert (sockets_evolve (sockets st) (sockets st1)) as H1.
    { subst st1. simpl. evolve. }
    destruct (session_of ws st1) as [c1|] eqn:Ec.
    + pose proof (member_dispatch ws c1 m st1 x) as Hd.
      pose proof (sockets_evolve_dispatch ws c1 m st1) as He.
      assert (rooms st1 = rooms st) as Hr by done. rewrite Hr in Hd.
      intros Hx.
      assert (member_somewhere x
                (rooms (outcome_state (dispatch ws c1 m st1)))) as Hx'.
      { destruct (dispatch ws c1 m st1); simpl; [done|].
        by autorewrite with frame in Hx. }
      assert (has_session x (sockets st1)) as Hs1.
      { destruct (Hd Hx') as [->|Hold];
          [ by eapply session_of_has_session
          | eapply has_session_evolve; [exact H1 | by apply I] ]. }
      assert (has_session x
                (sockets (outcome_state (dispatch ws c1 m st1)))) as Hs2
        by (eapply has_session_evolve; [exact He | done]).
      destruct (dispatch ws c1 m st1); simpl in Hs2; autorewrite with frame;
        done.
    + intros Hx. eapply has_session_evolve; [exact H1 | by apply I].
Qed.

Lemma invariants_reachable st :
  reachable st →
  listeners_registered st ∧ members_known st.
Proof.
  induction 1 as [|e st _ [I1 I2]].
  - split.
    + intros ws s. simpl. by rewrite lookup_empty.
    + intros x (k & r & [] & _).
  - split; [by apply listeners_registered_step | by apply members_known_step].
Qed.

(** C2 (as amended).  In every state the handler can reach, an identity found
    in the member set of a room is the identity of a session that is in
    [clients], or of a session whose socket has closed: the teardown of a
    session does not take it out of its rooms. *)
Theorem members_registered_or_torn_down st k r x :
  reachable st → In (k, r) (rooms st) → x ∈ members r →
  x ∈ registered_ids st ∨ torn_down x st.
Proof.
  intros Hr Hin Hx. apply invariants_reachable in Hr as [I1 I2].
  destruct (I2 x) as (ws & s & c & Hs & Hsess & Hid); [by exists k, r|].
  destruct (readyState s) eqn:Hc.
  4: { right. by exists ws, s, c. }
  all: left; unfold registered_ids; apply list_elem_of_fmap.
  all: exists c; split; [done|]; apply list_elem_of_omap.
  all: exists ws; split;
         [ eapply I1; [done | by rewrite Hsess | by rewrite Hc]
         | unfold session_of; by rewrite Hs ].
Qed.

Lemma members_registered_or_torn_down_witness :
  reachable demo_left_behind
  ∧ ("client_a" ∈ registered_ids demo_left_behind
     ∨ torn_down "client_a" demo_left_behind).
Proof.
  assert (reachable demo_left_behind) as Hr by repeat constructor.
  split; [exact Hr|].
  eapply (members_registered_or_torn_down demo_left_behind (JStr "lobby")
            _ "client_a" Hr).
  - vm_compute. left. reflexivity.
  - simpl. apply list_elem_of_here.
Defined.

(** C2, counterexample: after a client has joined a room and its socket has
    closed, its identity is in the room and not in the registry. *)
Lemma stale_member_counterexample :
  reachable demo_left_behind
  ∧ members_of (JStr "lobby") demo_left_behind = ["client_a"]
  ∧ registered_ids demo_left_behind = [].
Proof. split; [repeat constructor | by vm_compute]. Qed.

(** ** Teardown *)

Lemma step_Closed_listening ws s c code reason st :
  sockets st !! ws = Some s → session s = Some c → readyState s ≠ CLOSED →
  step (Closed ws code reason) st
  = _handleClientDisconnection ws c code reason
      (alter_socket (set_readyState CLOSED) ws st).
Proof.
  intros Hs Hc Hr. simpl. rewrite Hs, Hc. by destruct (readyState s).
Qed.

Lemma step_Closed_again ws code reason st :
  (readyState <$> sockets st !! ws) = Some CLOSED →
  step (Closed ws code reason) st = st.
Proof.
  simpl. destruct (sockets st !! ws) as [s|]; simpl; [|done].
  by intros [= ->].
Qed.

Lemma not_elem_of_filter_ne (ws : nat) (l : list nat) :
  ws ∉ filter (fun w => w ≠ ws) l.
Proof. rewrite list_elem_of_filter. tauto. Qed.

(** C1 (as amended).  When the ['close'] event of a connected session's socket
    arrives, the session is removed from [clients] and the connection count
    drops by one; the rooms are left as they are, so the identity stays in
    every room it had joined; a further ['close'] event for the same socket
    changes nothing.  A heartbeat timeout does not tear the session down
    itself: the tick closes the socket with status 1000 and leaves the
    registry and the rooms alone, and the teardown is the one of the ['close']
    event that follows. *)
Theorem teardown_removes_from_registry ws s c code reason st :
  sockets st !! ws = Some s → session s = Some c → readyState s ≠ CLOSED →
  let st' := step (Closed ws code reason) st in
  (ws ∉ clients st')
  ∧ rooms st' = rooms st
  ∧ connectionCount st' = (connectionCount st - 1)%Z
  ∧ (∀ code' reason', step (Closed ws code' reason') st' = st')
  ∧ (readyState s = OPEN → heartbeatTimer s = true →
     (heartbeatInterval (config st) * 2 < now st - lastHeartbeat c)%Z →
     let st_t := step (HeartbeatTick ws) st in
     trace st_t = trace st ++ [Close ws 1000 "Heartbeat timeout"]
     ∧ clients st_t = clients st
     ∧ rooms st_t = rooms st
     ∧ (ws ∉ clients (step (Closed ws code reason) st_t))
     ∧ rooms (step (Closed ws code reason) st_t) = rooms st).
Proof.
  intros Hs Hc Hr st'. subst st'.
  rewrite (step_Closed_listening ws s c) by done.
  unfold _handleClientDisconnection.
  repeat split.
  - autorewrite with frame. simpl. apply not_elem_of_filter_ne.
  - by autorewrite with frame.
  - unfold _sendToRenderer. by case_match.
  - intros code' reason'. apply step_Closed_again.
    autorewrite with frame. simpl. by rewrite lookup_alter_eq, Hs.
  - simpl. rewrite Hs, H0. unfold heartbeat_tick, is_open, session_of.
    rewrite Hs, H, Hc. simpl.
    apply Z.ltb_lt in H1. rewrite H1. simpl.
    unfold ws_close. by rewrite Hs, H.
  - simpl. rewrite Hs, H0. unfold heartbeat_tick. frame.
  - simpl. rewrite Hs, H0. unfold heartbeat_tick. frame.
  - assert (∃ s', sockets (step (HeartbeatTick ws) st) !! ws = Some s'
                  ∧ session s' = Some c ∧ readyState s' ≠ CLOSED)
      as (s' & Hs' & Hc' & Hr').
    { simpl. rewrite Hs, H0. unfold heartbeat_tick, is_open, session_of.
      rewrite Hs, H, Hc. simpl. apply Z.ltb_lt in H1. rewrite H1. simpl.
      rewrite sockets_ws_close, !lookup_alter_eq, Hs. simpl.
      eexists; split; [done|]. unfold closing. rewrite H. by simpl. }
    rewrite (step_Closed_listening ws s' c) by done.
    unfold _handleClientDisconnection. autorewrite with frame. simpl.
    apply not_elem_of_filter_ne.
  - assert (∃ s', sockets (step (HeartbeatTick ws) st) !! ws = Some s'
                  ∧ session s' = Some c ∧ readyState s' ≠ CLOSED)
      as (s' & Hs' & Hc' & Hr').
    { simpl. rewrite Hs, H0. unfold heartbeat_tick, is_open, session_of.
      rewrite Hs, H, Hc. simpl. apply Z.ltb_lt in H1. rewrite H1. simpl.
      rewrite sockets_ws_close, !lookup_alter_eq, Hs. simpl.
      eexists; split; [done|]. unfold closing. rewrite H. by simpl. }
    rewrite (step_Closed_listening ws s' c) by done.
    unfold _handleClientDisconnection. autorewrite with frame. simpl.
    rewrite Hs, H0. unfold heartbeat_tick. frame.
Qed.

Lemma teardown_removes_from_registry_witness :
  let st' := step (Closed 1 1001 "") demo_joined in
  (1 ∉ clients st')
  ∧ rooms st' = rooms demo_joined
  ∧ connectionCount st' = (connectionCount demo_joined - 1)%Z.
Proof.
  intros st'.
  destruct (teardown_removes_from_registry 1 demo_socket demo_client
              1001 "" demo_joined) as (H1 & H2 & H3 & _).
  - vm_compute. reflexivity.
  - reflexivity.
  - discriminate.
  - exact (conj H1 (conj H2 H3)).
Defined.

(** C1, counterexample: a client joins a room and falls silent; the heartbeat
    closes its socket and the ['close'] event tears the session down.  The
    session has left the registry, and its identity is still a member of the
    room. *)
Lemma teardown_leaves_member_counterexample :
  trace (step (HeartbeatTick 1) (step (Clock 60001) demo_joined))
  = trace demo_joined ++ [Close 1 1000 "Heartbeat timeout"]
  ∧ clients demo_timed_out = []
  ∧ members_of (JStr "lobby") demo_timed_out = ["client_a"].
Proof. by vm_compute. Qed.

(** ** Connections beyond the ceiling *)

Lemma clients_step_adds e st w :
  w ∈ clients (step e st) →
  w ∈ clients st ∨ (is_Connection w e ∧ sockets st !! w = None).
Proof.
  intros Hw.
  destruct e;
    try (left; rewrite clients_step_other in Hw;
         [ done | intros ? (? & ? & ? & ?); done
         | intros ? (? & ? & ?); done ]).
  - destruct (clients_step_Connection ws clientIP agent clientId st)
      as [E|[Hn E]]; rewrite E in Hw; [by left|].
    apply elem_of_app in Hw as [|Hw]; [by left|].
    apply list_elem_of_singleton in Hw as ->. right.
    split; [by eexists _, _, _ | done].
  - left. destruct (clients_step_Closed ws code reason st) as [E|E];
      rewrite E in Hw; [done|].
    by apply list_elem_of_filter in Hw as [_ ?].
Qed.

Lemma clients_known_step e st : clients_known st → clients_known (step e st).
Proof.
  intros I w Hw.
  destruct (sockets st !! w) as [s|] eqn:E.
  - destruct (step_socket e st w s E) as (s' & -> & _). eauto.
  - destruct (clients_step_adds e st w Hw) as [Hin|[(ip & a & cid & ->) _]].
    + apply I in Hin as [? ?]. congruence.
    + simpl. rewrite E. rewrite bool_decide_eq_true_2 by done.
      simpl in Hw. rewrite E, bool_decide_eq_true_2 in Hw by done.
      destruct (isRunning st); simpl in *; [|by apply I in Hw].
      rewrite sockets_handleNewConnection. simpl.
      rewrite lookup_insert_eq. simpl. eauto.
Qed.

Lemma reachable_clients_known st : reachable st → clients_known st.
Proof.
  induction 1 as [|e st _ IH]; [|by apply clients_known_step].
  intros w Hw. by apply not_elem_of_nil in Hw.
Qed.

(** A socket without listeners never gets any, never gets a heartbeat and
    never enters the registry. *)
Lemma never_registered events st ws s :
  sockets st !! ws = Some s → session s = None → heartbeatTimer s = false →
  ws ∉ clients st →
  (ws ∉ clients (run events st))
  ∧ session_of ws (run events st) = None
  ∧ (heartbeatTimer <$> sockets (run events st) !! ws) = Some false.
Proof.
  revert st s. induction events as [|e events IH]; intros st s Hs Hn Hh Hc.
  - unfold session_of. simpl. rewrite Hs. simpl. by rewrite Hn, Hh.
  - unfold run. simpl.
    destruct (step_socket e st ws s Hs) as (s' & Hs' & Hid & _ & _ & _ & Hb).
    apply (IH (step e st) s'); try done.
    + rewrite Hn in Hid. by destruct (session s').
    + destruct (heartbeatTimer s'); [by rewrite Hb in Hh | done].
    + intros Hin. apply clients_step_adds in Hin as [|[_ ?]];
        [done | congruence].
Qed.

Lemma omap_session_ext st st' (l : list nat) :
  (∀ w, session_of w st' = session_of w st) →
  omap (fun w => session_of w st') l = omap (fun w => session_of w st) l.
Proof.
  intros H. apply list_omap_ext.
  induction l as [|w l IH]; constructor; [apply H | apply IH].
Qed.

Lemma step_Connection_rejected ws ip agent cid st :
  isRunning st = true → sockets st !! ws = None →
  (maxConnections (config st) ≤ connectionCount st)%Z →
  step (Connection ws ip agent cid) st
  = emit (Close ws 1013 "Server overloaded")
      (set_sockets (<[ws := set_readyState CLOSING fresh_socket]> (sockets st))
         st).
Proof.
  intros Hrun Hn Hmax. simpl.
  rewrite Hrun, Hn, bool_decide_eq_true_2 by done. simpl.
  unfold _handleNewConnection. simpl.
  apply Z.leb_le in Hmax. rewrite Hmax.
  unfold ws_close. simpl. rewrite lookup_insert_eq. simpl.
  unfold alter_socket. simpl.
  by rewrite alter_insert_eq.
Qed.

(** C5.  A connection that arrives while the connection count is at or above
    [maxConnections] is closed at once with status 1013; nothing else
    happens: the registry, the count and the status report are as before, the
    socket gets no listeners and no heartbeat and no frame is written to it;
    and whatever happens afterwards, the socket never enters [clients], from
    which [getStatus] builds its client list. *)
Theorem connection_rejected_at_capacity ws ip agent cid st :
  reachable st → isRunning st = true → sockets st !! ws = None →
  (maxConnections (config st) ≤ connectionCount st)%Z →
  let st' := step (Connection ws ip agent cid) st in
  st' = emit (Close ws 1013 "Server overloaded")
          (set_sockets
             (<[ws := set_readyState CLOSING fresh_socket]> (sockets st)) st)
  ∧ trace st' = trace st ++ [Close ws 1013 "Server overloaded"]
  ∧ clients st' = clients st
  ∧ connectionCount st' = connectionCount st
  ∧ session_of ws st' = None
  ∧ (heartbeatTimer <$> sockets st' !! ws) = Some false
  ∧ getStatus st' = getStatus st
  ∧ ∀ events, (ws ∉ clients (run events st'))
              ∧ session_of ws (run events st') = None
              ∧ (heartbeatTimer <$> sockets (run events st') !! ws)
                = Some false.
Proof.
  intros Hr Hrun Hn Hmax st'. subst st'.
  rewrite step_Connection_rejected by done.
  assert (ws ∉ clients st) as Hnot.
  { intros Hin. apply (reachable_clients_known st Hr) in Hin as [? ?].
    congruence. }
  repeat split; try done.
  - unfold session_of. simpl. by rewrite lookup_insert_eq.
  - simpl. by rewrite lookup_insert_eq.
  - unfold getStatus. f_equal; try done. f_equal; try done.
    apply omap_session_ext.
    intros w. unfold session_of. simpl.
    destruct (decide (ws = w)) as [->|Hne].
    + by rewrite lookup_insert_eq, Hn.
    + by rewrite lookup_insert_ne.
  - apply (never_registered events _ ws
             (set_readyState CLOSING fresh_socket));
      [simpl; apply lookup_insert_eq | done | done | done].
  - apply (never_registered events _ ws
             (set_readyState CLOSING fresh_socket));
      [simpl; apply lookup_insert_eq | done | done | done].
  - apply (never_registered events _ ws
             (set_readyState CLOSING fresh_socket));
      [simpl; apply lookup_insert_eq | done | done | done].
Qed.

(** ** Broadcast to a room *)

Lemma set_trace_same st : set_trace (trace st) st = st.
Proof. by destruct st. Qed.

Lemma deliver_recipient m st n x :
  deliver m (st, n) x
  = match recipient st x with
    | Some ws => (emit (attempt st m ws) st,
                  if send_ok st ws then S n else n)
    | None => (st, n)
    end.
Proof.
  unfold deliver, recipient, attempt, send_ok, ws_send, is_open. simpl.
  destruct (find_socket x st) as [ws|]; [|done].
  destruct (sockets st !! ws) as [s|] eqn:E; [|done].
  destruct (readyState s); try done.
  rewrite E. by destruct (sendThrows s).
Qed.

Lemma foldl_deliver m l st n :
  foldl (deliver m) (st, n) l
  = (set_trace (trace st ++ (attempt st m <$> omap (recipient st) l)) st,
     n + length (filter (fun ws => send_ok st ws = true)
                   (omap (recipient st) l))).
Proof.
  revert st n. induction l as [|x l IH]; intros st n.
  - simpl. rewrite app_nil_r, set_trace_same. f_equal. lia.
  - simpl. rewrite deliver_recipient.
    change (omap (recipient st) (x :: l))
      with (match recipient st x with
            | Some ws => ws :: omap (recipient st) l
            | None => omap (recipient st) l
            end).
    destruct (recipient st x) as [ws|]; [|apply IH].
    rewrite IH. rewrite fmap_cons, filter_cons.
    change (omap (recipient (emit (attempt st m ws) st)) l)
      with (omap (recipient st) l).
    change (attempt (emit (attempt st m ws) st) m) with (attempt st m).
    f_equal.
    + unfold emit, set_trace. simpl. by rewrite <- app_assoc.
    + change (send_ok (emit (attempt st m ws) st)) with (send_ok st).
      change (list_omap string nat (recipient st) l)
        with (omap (recipient st) l).
      case_decide as Hd.
      * rewrite Hd. simpl. lia.
      * destruct (send_ok st ws); [done | lia].
Qed.

Lemma attempts_ok st m (l : list nat) :
  (∀ ws, ws ∈ l → send_ok st ws = true) →
  attempt st m <$> l = (fun ws => Send ws m) <$> l
  ∧ length (filter (fun ws => send_ok st ws = true) l) = length l.
Proof.
  induction l as [|ws l IH]; intros Hok; [done|].
  destruct IH as [IH1 IH2]; [intros w Hw; apply Hok; by right|].
  assert (send_ok st ws = true) as E by (apply Hok; by left).
  split.
  - rewrite !fmap_cons, IH1. unfold attempt at 1. by rewrite E.
  - rewrite filter_cons, decide_True by done. simpl. by rewrite IH2.
Qed.

(** C4 (as amended).  With room broadcast enabled, [broadcastToRoom] tries
    each live member of the room once, in the order of the member set, and
    nobody else: the members that resolve to no key of [clients] or to a
    socket that is not open are skipped.  A send that throws is caught and
    the loop goes on.  The result is the number of sends that did not throw,
    which is the number of live members when none throws.  Nothing but the
    trace changes. *)
Theorem broadcastToRoom_live_members roomId message room st :
  enableRoomBroadcast (config st) = true →
  rooms_get roomId (rooms st) = Some room →
  let live := omap (recipient st) (members room) in
  broadcastToRoom roomId message st
  = (set_trace (trace st ++ (attempt st message <$> live)) st,
     length (filter (fun ws => send_ok st ws = true) live))
  ∧ ((∀ ws, ws ∈ live → send_ok st ws = true) →
     broadcastToRoom roomId message st
     = (set_trace (trace st ++ ((fun ws => Send ws message) <$> live)) st,
        length live)).
Proof.
  intros Hen Hroom live.
  assert (broadcastToRoom roomId message st
          = (set_trace (trace st ++ (attempt st message <$> live)) st,
             length (filter (fun ws => send_ok st ws = true) live))) as Hb.
  { unfold broadcastToRoom. rewrite Hen. simpl.
    assert (rooms_has roomId (rooms st) = true) as ->
      by (apply rooms_has_get; by rewrite Hroom).
    simpl. rewrite Hroom. apply foldl_deliver. }
  split; [exact Hb|]. intros Hok. rewrite Hb.
  destruct (attempts_ok st message live Hok) as [-> ->]. done.
Qed.

Lemma broadcastToRoom_live_members_witness :
  let st := two_in_lobby demo_config in
  let live := omap (recipient st) (members_of (JStr "lobby") st) in
  live = [1; 2]
  ∧ snd (broadcastToRoom (JStr "lobby") notice_frame st) = 2
  ∧ trace (fst (broadcastToRoom (JStr "lobby") notice_frame st))
    = trace st ++ [Send 1 notice_frame; Send 2 notice_frame].
Proof.
  intros st live.
  destruct (broadcastToRoom_live_members (JStr "lobby") notice_frame
              {| members := ["client_a"; "client_b"; "client_gone"];
                 roomTable := Undefined; roomFilters := Undefined;
                 createdAt := 0 |} st)
    as [H _].
  - by vm_compute.
  - by vm_compute.
  - rewrite H. split; [by vm_compute|]. split; by vm_compute.
Defined.

(** C4, counterexample.  The room has two live members and a stale one.
    With room broadcast disabled nothing is delivered and the result is 0.
    With it enabled and a send that throws for the first member, the second
    member still gets the frame, and the result is 1, not 2. *)
Lemma broadcastToRoom_counterexample :
  (let st := two_in_lobby (configure false 10 true false ["temperature"]) in
   omap (recipient st) (members_of (JStr "lobby") st) = [1; 2]
   ∧ snd (broadcastToRoom (JStr "lobby") notice_frame st) = 0
   ∧ trace (fst (broadcastToRoom (JStr "lobby") notice_frame st)) = trace st)
  ∧ (let st := step (SendFault 1 true) (two_in_lobby demo_config) in
     omap (recipient st) (members_of (JStr "lobby") st) = [1; 2]
     ∧ snd (broadcastToRoom (JStr "lobby") notice_frame st) = 1
     ∧ trace (fst (broadcastToRoom (JStr "lobby") notice_frame st))
       = trace st ++ [SendError 1 notice_frame; Send 2 notice_frame]).
Proof. by vm_compute. Qed.

Lemma connection_rejected_at_capacity_witness :
  let st' := step (Connection 2 "10.0.0.2" None "client_b") demo_full in
  trace st' = trace demo_full ++ [Close 2 1013 "Server overloaded"]
  ∧ getStatus st' = getStatus demo_full.
Proof.
  intros st'.
  destruct (connection_rejected_at_capacity 2 "10.0.0.2" None "client_b"
              demo_full) as (_ & H1 & _ & _ & _ & _ & H2 & _).
  - repeat constructor.
  - by vm_compute.
  - by vm_compute.
  - by vm_compute.
  - exact (conj H1 H2).
Defined.

(** ** Validation of sensor data *)

Lemma validate_object cfg data :
  is_object data →
  _validateSensorData cfg data
  = forallb (fun field =>
               match js_get data field with
               | Undefined => false
               | Own JNull => false
               | Own v => negb (String.eqb (trim (js_String v)) "")
               | Inherited => true
               end) (requiredFields cfg).
Proof. by destruct data. Qed.

Lemma validate_not_object cfg data :
  ¬ is_object data → _validateSensorData cfg data = false.
Proof.
  unfold _validateSensorData.
  destruct data; simpl; rewrite ?orb_true_r; try done; by intros [].
Qed.

Lemma field_check data field :
  match js_get data field with
  | Undefined => false
  | Own JNull => false
  | Own v => negb (String.eqb (trim (js_String v)) "")
  | Inherited => true
  end = false ↔ missing_or_empty data field.
Proof.
  unfold missing_or_empty.
  destruct (js_get data field) as [| |v]; [done | done |].
  destruct v; try done; rewrite negb_false_iff; apply String.eqb_eq.
Qed.

Lemma forallb_false {A} (f : A → bool) (l : list A) :
  forallb f l = false ↔ ∃ x, x ∈ l ∧ f x = false.
Proof.
  induction l as [|a l IH]; simpl.
  - split; [done | by intros (x & Hx%not_elem_of_nil & _)].
  - rewrite andb_false_iff, IH. split.
    + intros [H|(x & Hx & H)]; [exists a | exists x]; split; auto;
        by constructor.
    + intros (x & Hx & H). apply elem_of_cons in Hx as [->|Hx]; eauto.
Qed.

Lemma is_object_dec data : is_object data ∨ ¬ is_object data.
Proof. destruct data; simpl; tauto. Qed.

Lemma validate_fails cfg data :
  _validateSensorData cfg data = false
  ↔ ¬ is_object data
    ∨ ∃ field, field ∈ requiredFields cfg ∧ missing_or_empty data field.
Proof.
  split.
  - intros H. destruct (is_object_dec data) as [Ho|Ho]; [|by left].
    right. rewrite validate_object, forallb_false in H by done.
    destruct H as (field & Hin & H). exists field.
    split; [done | by apply field_check].
  - intros [Ho|(field & Hin & H)]; [by apply validate_not_object|].
    destruct (is_object_dec data) as [Ho|Ho];
      [|by apply validate_not_object].
    rewrite validate_object, forallb_false by done.
    exists field. split; [done | by apply field_check].
Qed.

Lemma validate_passes cfg data :
  is_object data →
  (∀ field, field ∈ requiredFields cfg → ¬ missing_or_empty data field) →
  _validateSensorData cfg data = true.
Proof.
  intros Ho Hall. apply not_false_iff_true. intros H.
  apply validate_fails in H as [H|(field & Hin & H)]; [done|].
  by apply (Hall field).
Qed.

Lemma trace_sendToClient ws m st :
  trace (_sendToClient ws m st) = trace st
  ∨ trace (_sendToClient ws m st) = trace st ++ [Send ws m]
  ∨ trace (_sendToClient ws m st) = trace st ++ [SendError ws m].
Proof.
  unfold _sendToClient, ws_send. repeat case_match; simpl; auto.
Qed.

Lemma pending_sendToClient ws m st :
  pending (_sendToClient ws m st) = pending st.
Proof. unfold _sendToClient, ws_send. repeat case_match; simpl; auto. Qed.




(** ** The authentication check *)

(** The handlers of sensor data, of the four storage operations and of
    [db_subscribe] turn an unauthenticated session away: the sender gets the
    error frame and nothing else changes. *)
Lemma unauthenticated_rejected ws c m st type :
  enableAuthentication (config st) = true → isAuthenticated c = false →
  js_get m "type" = Own (JStr type) → gated type →
  dispatch ws c m st = Returned (_sendToClient ws (auth_required st) st).
Proof.
  intros Hen Hc Ht Hg. unfold dispatch. rewrite Ht.
  destruct m; try done.
  all: unfold gated in Hg;
    repeat (apply elem_of_cons in Hg as [->|Hg]);
    try (by apply not_elem_of_nil in Hg); simpl;
    unfold _handleSensorData, _handleDatabaseCreate, _handleDatabaseRead,
      _handleDatabaseUpdate, _handleDatabaseDelete, _handleDatabaseSubscribe,
      _checkAuthAndSend; by rewrite Hen, Hc.
Qed.

(** C8, the code at the failing input.  Authentication is enabled and the
    client has not authenticated.  Its [join_room] for the room of the table
    [sensors] is carried out: it becomes a member and is answered
    [room_joined], no error frame is sent.  When an authenticated client
    then updates the table, the [db_change] frame goes to the
    unauthenticated member. *)
Theorem unauthenticated_join_room_accepted :
  enableAuthentication (config demo_guarded) = true
  ∧ (isAuthenticated <$> session_of 1 demo_guarded) = Some false
  ∧ members_of (JStr "db_sensors") demo_intruder = ["client_a"]
  ∧ trace demo_intruder
    = trace demo_guarded
      ++ [Send 1 (frame demo_guarded "room_joined"
                    [("roomId", Own (JStr "db_sensors"))])]
  ∧ (isAuthenticated <$> session_of 1 demo_update) = Some false
  ∧ last (trace demo_update)
    = Some (Send 1 (db_change demo_update "update" (JStr "sensors")
                      (JObj [("updateData",
                              JObj [("temperature", JNum 21)])])
                      "client_b")).
Proof. by vm_compute. Qed.

(** ** Leaving twice *)

Lemma set_rooms_same st : set_rooms (rooms st) st = st.
Proof. by destruct st. Qed.

Lemma set_members_same r : set_members (members r) r = r.
Proof. by destruct r. Qed.

Lemma set_delete_absent x l : x ∉ l → set_delete x l = l.
Proof.
  unfold set_delete. induction l as [|y l IH]; intros Hx; [done|].
  rewrite filter_cons. apply not_elem_of_cons in Hx as [Hne Hx].
  rewrite decide_True by done. by rewrite IH.
Qed.

Lemma not_elem_of_set_delete x l : x ∉ set_delete x l.
Proof. unfold set_delete. rewrite list_elem_of_filter. tauto. Qed.

Lemma rooms_get_delete k rs : rooms_get k (rooms_delete k rs) = None.
Proof.
  unfold rooms_get, rooms_delete.
  induction rs as [|e rs IH]; simpl; [done|].
  destruct (is_key k e) eqn:E; simpl; [done|]. by rewrite E.
Qed.

Lemma rooms_get_key k rs r :
  rooms_get k rs = Some r → ∃ k', In (k', r) rs ∧ is_key k (k', r) = true.
Proof.
  unfold rooms_get. destruct (List.find (is_key k) rs) as [[k' r']|] eqn:E;
    simpl; [|done].
  intros [= ->]. apply find_some in E. eauto.
Qed.

Lemma rooms_alter_same k rest rs :
  (∀ e, In e rs → is_key k e = true → members (snd e) = rest) →
  rooms_alter (set_members rest) k rs = rs.
Proof.
  intros H. unfold rooms_alter. induction rs as [|e rs IH]; simpl; [done|].
  rewrite IH by (intros e' He'; apply H; by right). f_equal.
  destruct (is_key k e) eqn:E; [|done].
  rewrite <- (H e); [|by left | done].
  destruct e as [k' r]. simpl. by rewrite set_members_same.
Qed.

Lemma left_room_leave k x f st :
  (∀ s, rooms (f s) = rooms s) →
  left_room k x (rooms (rooms_leave k x f st)).
Proof.
  intros Hf. rewrite rooms_rooms_leave by done.
  destruct (rooms_get k (rooms st)) as [room|] eqn:E; [|by left]. simpl.
  destruct (Nat.eqb _ 0) eqn:L.
  - left. apply rooms_get_delete.
  - right. exists (set_delete x (members room)). split; [|split].
    + intros Hnil. by rewrite Hnil in L.
    + apply not_elem_of_set_delete.
    + intros e He Hk. unfold rooms_alter in He.
      apply in_map_iff in He as (e0 & <- & He0).
      destruct (is_key k e0) eqn:E0; [done|].
      unfold is_key in *. congruence.
Qed.

(** A leave after a leave does nothing at all. *)
Lemma rooms_leave_again k x f st :
  left_room k x (rooms st) → rooms_leave k x f st = st.
Proof.
  intros [Hn|(rest & Hne & Hx & Hall)]; unfold rooms_leave.
  - by rewrite Hn.
  - destruct (rooms_get k (rooms st)) as [room|] eqn:E; [|done].
    apply rooms_get_key in E as (k' & Hin & Hk).
    assert (members room = rest) as -> by apply (Hall _ Hin Hk).
    rewrite set_delete_absent by done.
    rewrite rooms_alter_same by done. rewrite set_rooms_same.
    destruct rest; [done|]. by simpl.
Qed.

Lemma dbSubscriptions_sendToClient ws m st :
  dbSubscriptions (_sendToClient ws m st) = dbSubscriptions st.
Proof. unfold _sendToClient, ws_send. repeat case_match; simpl; auto. Qed.

Lemma leaveRoom_again ws c m st :
  let st1 := _handleLeaveRoom ws c m st in
  _handleLeaveRoom ws c m st1 = st1
  ∨ ∃ fr, _handleLeaveRoom ws c m st1 = _sendToClient ws fr st1.
Proof.
  intros st1.
  assert (negb (prop_truthy (js_get (body_of m) "roomId")) = false →
          left_room (prop_value (js_get (body_of m) "roomId")) (id c)
            (rooms st1)) as Hleft.
  { intros T. subst st1. unfold _handleLeaveRoom. rewrite T. simpl.
    destruct (negb (rooms_has _ (rooms st))) eqn:Hh.
    - left.
      destruct (rooms_get (prop_value (js_get (body_of m) "roomId"))
                  (rooms st)) eqn:G; [|done].
      apply negb_true_iff in Hh.
      assert (rooms_has (prop_value (js_get (body_of m) "roomId"))
                (rooms st) = true) as Hc by (apply rooms_has_get; eauto).
      congruence.
    - rewrite rooms_sendToClient. by apply left_room_leave. }
  clearbody st1. unfold _handleLeaveRoom.
  destruct (negb (prop_truthy (js_get (body_of m) "roomId"))) eqn:T; simpl;
    [by left|].
  destruct (negb (rooms_has _ (rooms st1))); [by left|].
  right. eexists. f_equal. apply rooms_leave_again. by apply Hleft.
Qed.

Lemma unsubscribe_again ws c m st :
  let st1 := _handleDatabaseUnsubscribe ws c m st in
  _handleDatabaseUnsubscribe ws c m st1 = st1
  ∨ ∃ fr, _handleDatabaseUnsubscribe ws c m st1 = _sendToClient ws fr st1.
Proof.
  intros st1.
  assert (negb (prop_truthy (js_get (body_of m) "table")) = false →
          left_room
            (JStr (db_room (prop_value (js_get (body_of m) "table"))))
            (id c) (rooms st1)) as Hleft.
  { intros T. subst st1. unfold _handleDatabaseUnsubscribe. rewrite T.
    rewrite rooms_sendToClient. apply left_room_leave.
    intros s. apply rooms_cancel. }
  clearbody st1. unfold _handleDatabaseUnsubscribe.
  destruct (negb (prop_truthy (js_get (body_of m) "table"))) eqn:T;
    [by left|].
  right. eexists. f_equal. apply rooms_leave_again. by apply Hleft.
Qed.



(** ** A failed credential check *)

Lemma timers_pending events st ws s :
  sockets st !! ws = Some s → (0 < authTimers s)%nat →
  Forall (fun e => e ≠ AuthTimeout ws) events →
  ∃ s2, sockets (run events st) !! ws = Some s2 ∧ (0 < authTimers s2)%nat.
Proof.
  revert st s. induction events as [|e events IH]; intros st s Hs Ht Hall.
  - by exists s.
  - apply Forall_cons in Hall as [He Hall].
    destruct (step_socket e st ws s Hs) as (s' & Hs' & _ & _ & _ & Hle & _).
    unfold run. simpl. apply (IH (step e st) s'); [done | | done].
    specialize (Hle He). lia.
Qed.

Lemma auth_timeout_closes ws s st :
  sockets st !! ws = Some s → (0 < authTimers s)%nat →
  is_open ws (step (AuthTimeout ws) st) = false
  ∧ (is_open ws st = true →
     trace (step (AuthTimeout ws) st)
     = trace st ++ [Close ws 1008 "Authentication failed"]).
Proof.
  intros Hs Ht. split.
  - unfold is_open. rewrite sockets_step_AuthTimeout, lookup_alter_eq, Hs.
    simpl. unfold timer_fired.
    destruct (authTimers s); [lia|].
    destruct (readyState s) eqn:R; simpl; by rewrite ?R.
  - unfold is_open. simpl. rewrite Hs.
    destruct (authTimers s) as [|n] eqn:T; [lia|].
    destruct (readyState s) eqn:R; try done. intros _.
    unfold auth_timeout, is_open, ws_close. simpl.
    rewrite lookup_alter_eq, Hs. simpl. by rewrite R.
Qed.



(** ** One change feed per resource *)

Lemma opened_sendToClient ws m st :
  opened (trace (_sendToClient ws m st)) = opened (trace st).
Proof.
  unfold opened.
  destruct (trace_sendToClient ws m st) as [->|[->| ->]]; [done| |];
    by rewrite omap_app, app_nil_r.
Qed.

Lemma cancelled_sendToClient ws m st :
  cancelled (trace (_sendToClient ws m st)) = cancelled (trace st).
Proof.
  unfold cancelled.
  destruct (trace_sendToClient ws m st) as [->|[->| ->]]; [done| |];
    by rewrite omap_app, app_nil_r.
Qed.

Lemma config_db_sendToClient ws m st :
  config (_sendToClient ws m st) = config st
  ∧ db (_sendToClient ws m st) = db st
  ∧ nextFeed (_sendToClient ws m st) = nextFeed st.
Proof. unfold _sendToClient, ws_send. repeat case_match; simpl; auto. Qed.

Lemma is_key_string r e : is_key (JStr r) (JStr r, e) = true.
Proof. unfold is_key. simpl. apply String.eqb_refl. Qed.

Lemma rooms_get_app_new k r rs :
  rooms_has k rs = false → is_key k (k, r) = true →
  rooms_get k (rs ++ [(k, r)]) = Some r.
Proof.
  unfold rooms_has, rooms_get. intros Hn Hk.
  induction rs as [|e rs IH]; simpl in *; [by rewrite Hk|].
  destruct (is_key k e); [done|]. by apply IH.
Qed.

Lemma rooms_get_alter f k rs :
  rooms_get k (rooms_alter f k rs) = f <$> rooms_get k rs.
Proof.
  unfold rooms_get, rooms_alter.
  induction rs as [|e rs IH]; simpl; [done|].
  destruct (is_key k e) eqn:E; simpl.
  - unfold is_key in *. simpl. by rewrite E.
  - by rewrite E.
Qed.

Lemma rooms_get_join r fresh x rs :
  rooms_get (JStr r) (rooms_join (JStr r) fresh x rs)
  = Some (match rooms_get (JStr r) rs with
          | Some room => set_members (set_add x (members room)) room
          | None => set_members (set_add x (members fresh)) fresh
          end).
Proof.
  unfold rooms_join.
  destruct (rooms_has (JStr r) rs) eqn:H.
  - rewrite rooms_get_alter.
    apply rooms_has_get in H as [room ->]. done.
  - rewrite rooms_get_app_new by (done || apply is_key_string).
    destruct (rooms_get (JStr r) rs) eqn:G; [|done].
    assert (rooms_has (JStr r) rs = true) by (apply rooms_has_get; eauto).
    congruence.
Qed.

Lemma subscribe_step ws c m table st :
  has_subscribe (db st) = true → authorized c st = true →
  names_table m table →
  subscribe_error (db st) table (js_get (body_of m) "filters") = None →
  let room := db_room table in
  let st' := _handleDatabaseSubscribe ws c m st in
  config st' = config st ∧ db st' = db st
  ∧ members_of (JStr room) st' = set_add (id c) (members_of (JStr room) st)
  ∧ cancelled (trace st') = cancelled (trace st)
  ∧ match dbSubscriptions st !! room with
    | Some h =>
        dbSubscriptions st' !! room = Some h
        ∧ opened (trace st') = opened (trace st)
    | None =>
        dbSubscriptions st' !! room = Some (nextFeed st)
        ∧ opened (trace st') = opened (trace st) ++ [nextFeed st]
    end.
Proof.
  intros Hsub Hauth [Htab Htruthy] Herr room st'. subst st'.
  unfold _handleDatabaseSubscribe, _checkAuthAndSend.
  unfold authorized in Hauth.
  assert (enableAuthentication (config st) && negb (isAuthenticated c)
          = false) as ->.
  { destruct (enableAuthentication (config st)), (isAuthenticated c); done. }
  simpl. rewrite Htab. simpl. rewrite Htruthy. simpl. fold room.
  rewrite Hsub. simpl.
  destruct (dbSubscriptions st !! room) as [h|] eqn:E; simpl;
    rewrite ?Herr;
    rewrite opened_sendToClient, cancelled_sendToClient,
      dbSubscriptions_sendToClient;
    match goal with
    | |- config (_sendToClient ?w ?f ?s) = _ ∧ _ =>
        destruct (config_db_sendToClient w f s) as (-> & -> & _)
    end;
    (assert (∀ s, rooms s = rooms_join (JStr room)
                              (new_room (Own table)
                                 (Own (js_or (js_get (body_of m) "filters")
                                         (JObj []))) st)
                              (id c) (rooms st) →
                  members_of (JStr room) s
                  = set_add (id c) (members_of (JStr room) st)) as Hmem
       by (intros s Hs; unfold members_of; rewrite Hs, rooms_get_join;
           by destruct (rooms_get (JStr room) (rooms st)))).
  - repeat split; try done. apply Hmem. by rewrite rooms_sendToClient.
  - repeat split; try done.
    + apply Hmem. by rewrite rooms_sendToClient.
    + unfold cancelled. simpl. by rewrite omap_app, app_nil_r.
    + simpl. apply lookup_insert_eq.
    + unfold opened. simpl. by rewrite omap_app.
Qed.

Lemma unsubscribe_step ws c m table st :
  names_table m table →
  let room := db_room table in
  let st' := _handleDatabaseUnsubscribe ws c m st in
  opened (trace st') = opened (trace st)
  ∧ match rooms_get (JStr room) (rooms st) with
    | None =>
        rooms_get (JStr room) (rooms st') = None
        ∧ dbSubscriptions st' = dbSubscriptions st
        ∧ cancelled (trace st') = cancelled (trace st)
    | Some r =>
        if Nat.eqb (length (set_delete (id c) (members r))) 0
        then rooms_get (JStr room) (rooms st') = None
             ∧ dbSubscriptions st' !! room = None
             ∧ cancelled (trace st')
               = cancelled (trace st)
                 ++ match dbSubscriptions st !! room with
                    | Some h => [h]
                    | None => []
                    end
        else members_of (JStr room) st' = set_delete (id c) (members r)
             ∧ dbSubscriptions st' = dbSubscriptions st
             ∧ cancelled (trace st') = cancelled (trace st)
    end.
Proof.
  intros [Htab Htruthy] room st'. subst st'.
  unfold _handleDatabaseUnsubscribe. rewrite Htab. simpl.
  rewrite Htruthy. simpl. fold room.
  rewrite opened_sendToClient, cancelled_sendToClient,
    dbSubscriptions_sendToClient, rooms_sendToClient.
  unfold members_of. rewrite rooms_sendToClient.
  unfold rooms_leave.
  destruct (rooms_get (JStr room) (rooms st)) as [r|] eqn:G; [|done].
  simpl. destruct (Nat.eqb _ 0) eqn:L; simpl.
  - destruct (dbSubscriptions st !! room) as [h|] eqn:E; simpl.
    + repeat split.
      * unfold opened. simpl. by rewrite omap_app, app_nil_r.
      * apply rooms_get_delete.
      * apply lookup_delete_eq.
      * unfold cancelled. simpl. by rewrite omap_app.
    + repeat split; [apply rooms_get_delete | done | by rewrite app_nil_r].
  - repeat split. by rewrite rooms_get_alter, G.
Qed.

Lemma subscribe_all_more table h callers st :
  has_subscribe (db st) = true →
  dbSubscriptions st !! db_room table = Some h →
  Forall (fun a =>
            authorized (caller_data a) st = true
            ∧ names_table (caller_message a) table
            ∧ subscribe_error (db st) table
                (js_get (body_of (caller_message a)) "filters") = None)
    callers →
  let st' := subscribe_all callers st in
  dbSubscriptions st' !! db_room table = Some h
  ∧ opened (trace st') = opened (trace st)
  ∧ cancelled (trace st') = cancelled (trace st)
  ∧ ∀ x, x ∈ members_of (JStr (db_room table)) st'
         ↔ x ∈ members_of (JStr (db_room table)) st
           ∨ x ∈ caller_id <$> callers.
Proof.
  revert st. induction callers as [|a callers IH]; intros st Hsub Hh Hall.
  - simpl. split_and!; try done. intros x.
    split; [by left | intros [|Hx]; [done | by apply not_elem_of_nil in Hx]].
  - apply Forall_cons in Hall as [(Ha & Hn & He) Hall].
    destruct (subscribe_step (caller_ws a) (caller_data a) (caller_message a)
                table st Hsub Ha Hn He) as (Hc & Hd & Hm & Hcan & Hopen).
    rewrite Hh in Hopen. destruct Hopen as [Hh' Hop].
    simpl. unfold subscribe_all in IH.
    destruct (IH (_handleDatabaseSubscribe (caller_ws a) (caller_data a)
                    (caller_message a) st)) as (I1 & I2 & I3 & I4).
    + by rewrite Hd.
    + done.
    + eapply Forall_impl; [exact Hall|]. intros b. simpl.
      unfold authorized. by rewrite Hc, Hd.
    + split_and!;
        [ done | by etrans; [apply I2|] | by etrans; [apply I3|] |].
      intros x. rewrite I4, Hm, elem_of_cons. unfold set_add.
      case_bool_decide as Hin.
      * split; [tauto | intros [?|[->|?]]; auto].
      * rewrite elem_of_app, list_elem_of_singleton. tauto.
Qed.

Lemma unsubscribe_all_gone table callers st :
  Forall (fun a => names_table (caller_message a) table) callers →
  rooms_get (JStr (db_room table)) (rooms st) = None →
  let st' := unsubscribe_all callers st in
  rooms_get (JStr (db_room table)) (rooms st') = None
  ∧ dbSubscriptions st' = dbSubscriptions st
  ∧ opened (trace st') = opened (trace st)
  ∧ cancelled (trace st') = cancelled (trace st).
Proof.
  revert st. induction callers as [|a callers IH]; intros st Hall Hn;
    [done|].
  apply Forall_cons in Hall as [Ha Hall].
  destruct (unsubscribe_step (caller_ws a) (caller_data a) (caller_message a)
              table st Ha) as (Hop & Hrest).
  rewrite Hn in Hrest. destruct Hrest as (H1 & H2 & H3).
  simpl. unfold unsubscribe_all in IH.
  destruct (IH _ Hall H1) as (I1 & I2 & I3 & I4).
  split_and!;
    [ done | by etrans; [apply I2|] | by etrans; [apply I3|]
    | by etrans; [apply I4|] ].
Qed.

Lemma unsubscribe_all_last table h callers st :
  Forall (fun a => names_table (caller_message a) table) callers →
  dbSubscriptions st !! db_room table = Some h →
  members_of (JStr (db_room table)) st ≠ [] →
  (∀ x, x ∈ members_of (JStr (db_room table)) st →
        x ∈ caller_id <$> callers) →
  let st' := unsubscribe_all callers st in
  rooms_get (JStr (db_room table)) (rooms st') = None
  ∧ dbSubscriptions st' !! db_room table = None
  ∧ opened (trace st') = opened (trace st)
  ∧ cancelled (trace st') = cancelled (trace st) ++ [h].
Proof.
  revert st. induction callers as [|a callers IH];
    intros st Hall Hh Hne Hsub.
  - exfalso. destruct (members_of _ st) as [|x l]; [done|].
    specialize (Hsub x ltac:(by left)). by apply not_elem_of_nil in Hsub.
  - apply Forall_cons in Hall as [Ha Hall].
    destruct (unsubscribe_step (caller_ws a) (caller_data a)
                (caller_message a) table st Ha) as (Hop & Hrest).
    unfold members_of in Hne, Hsub.
    destruct (rooms_get (JStr (db_room table)) (rooms st)) as [r|] eqn:G;
      [|done].
    simpl. unfold unsubscribe_all in IH.
    destruct (Nat.eqb _ 0) eqn:L.
    + destruct Hrest as (H1 & H2 & H3). rewrite Hh in H3.
      destruct (unsubscribe_all_gone table callers _ Hall H1)
        as (I1 & I2 & I3 & I4).
      unfold unsubscribe_all in *.
      split_and!;
        [ done | by rewrite I2 | by etrans; [apply I3|]
        | by etrans; [apply I4|] ].
    + destruct Hrest as (H1 & H2 & H3).
      destruct (IH (_handleDatabaseUnsubscribe (caller_ws a) (caller_data a)
                      (caller_message a) st)) as (I1 & I2 & I3 & I4).
      * done.
      * by rewrite H2.
      * rewrite H1. intros Hnil. by rewrite Hnil in L.
      * intros x. rewrite H1. unfold set_delete.
        rewrite list_elem_of_filter. intros [Hx Hin].
        specialize (Hsub x Hin). rewrite fmap_cons in Hsub.
        apply elem_of_cons in Hsub as [Heq|Hsub]; [|done].
        by destruct Hx.
      * split_and!;
          [ done | done | by etrans; [apply I3|]
          | etrans; [apply I4|]; by rewrite H3 ].
Qed.



(** ** Joining and leaving a room *)

Lemma truthy_string r : r ≠ "" → prop_truthy (Own (JStr r)) = true.
Proof.
  intros Hr. simpl. apply negb_true_iff. by apply String.eqb_neq.
Qed.

Lemma members_of_joinRoom ws c m r st :
  names_room m r →
  members_of (JStr r) (_handleJoinRoom ws c m st)
  = set_add (id c) (members_of (JStr r) st).
Proof.
  intros [Hm Hr]. unfold _handleJoinRoom. rewrite Hm.
  rewrite truthy_string by done. simpl negb. cbv iota.
  unfold members_of. rewrite rooms_sendToClient. simpl.
  rewrite rooms_get_join. by destruct (rooms_get (JStr r) (rooms st)).
Qed.

Lemma members_of_leaveRoom ws c m r st :
  names_room m r →
  members_of (JStr r) (_handleLeaveRoom ws c m st)
  = set_delete (id c) (members_of (JStr r) st).
Proof.
  intros [Hm Hr]. unfold _handleLeaveRoom. rewrite Hm.
  rewrite truthy_string by done. simpl.
  unfold members_of.
  destruct (rooms_has (JStr r) (rooms st)) eqn:H; simpl.
  - rewrite rooms_sendToClient, rooms_rooms_leave by done.
    apply rooms_has_get in H as [room G]. rewrite G. simpl.
    destruct (Nat.eqb _ 0) eqn:L.
    + rewrite rooms_get_delete. apply Nat.eqb_eq in L.
      by destruct (set_delete (id c) (members room)).
    + by rewrite rooms_get_alter, G.
  - destruct (rooms_get (JStr r) (rooms st)) eqn:G; [|done].
    assert (rooms_has (JStr r) (rooms st) = true)
      by (apply rooms_has_get; eauto).
    congruence.
Qed.



(** The handler of ['close'] counts down at every call: that the count
    matches the registry rests on the socket emitting ['close'] once. *)
Lemma disconnection_counts_every_call ws c code reason st :
  connectionCount
    (_handleClientDisconnection ws c code reason
       (_handleClientDisconnection ws c code reason st))
  = (connectionCount st - 2)%Z.
Proof.
  unfold _handleClientDisconnection, _sendToRenderer.
  repeat case_match; simpl; lia.
Qed.

(** ** The registry and the connection count *)

Lemma registry_ws_send ws m st : registry (fst (ws_send ws m st)) = registry st.
Proof. unfold ws_send. by repeat case_match. Qed.

Lemma registry_sendToClient ws m st :
  registry (_sendToClient ws m st) = registry st.
Proof. unfold _sendToClient. case_match; [apply registry_ws_send | done]. Qed.

Lemma registry_sendToRenderer c m st :
  registry (_sendToRenderer c m st) = registry st.
Proof. unfold _sendToRenderer. by case_match. Qed.

Lemma registry_ws_close ws code reason st :
  registry (ws_close ws code reason st) = registry st.
Proof. unfold ws_close. by repeat case_match. Qed.

Lemma registry_db_request call k st :
  registry (db_request call k st) = registry st.
Proof. done. Qed.

Lemma registry_set_rooms r st : registry (set_rooms r st) = registry st.
Proof. done. Qed.

Lemma registry_alter_socket f ws st :
  registry (alter_socket f ws st) = registry st.
Proof. done. Qed.

Lemma registry_foldl_deliver m l acc :
  registry (fst (foldl (deliver m) acc l)) = registry (fst acc).
Proof.
  revert acc. induction l as [|x l IH]; intros acc; simpl; [done|].
  rewrite IH. unfold deliver.
  repeat case_match; simpl; try done; apply registry_ws_send.
Qed.

Lemma registry_broadcastToRoom k m st :
  registry (fst (broadcastToRoom k m st)) = registry st.
Proof.
  unfold broadcastToRoom. repeat case_match; simpl; try done.
  apply (registry_foldl_deliver m _ (st, 0)).
Qed.

Lemma registry_checkAuthAndSend ws c st :
  registry (fst (_checkAuthAndSend ws c st)) = registry st.
Proof.
  unfold _checkAuthAndSend.
  case_match; simpl; [apply registry_sendToClient | done].
Qed.

Lemma registry_rooms_leave k x f st :
  (∀ s, registry (f s) = registry s) →
  registry (rooms_leave k x f st) = registry st.
Proof.
  intros Hf. unfold rooms_leave. repeat case_match; try done.
  unfold registry at 1. simpl. fold (registry (f (set_rooms
    (rooms_alter (set_members (set_delete x (members r))) k (rooms st)) st))).
  by rewrite Hf.
Qed.

Lemma registry_cancel r s :
  registry (match dbSubscriptions s !! r with
            | Some feed => cancel_feed r feed s
            | None => s
            end) = registry s.
Proof. by case_match. Qed.

Create Rewrite HintDb registry.

#[export] Hint Rewrite
  registry_ws_send registry_sendToClient registry_sendToRenderer
  registry_ws_close registry_db_request registry_set_rooms
  registry_alter_socket registry_broadcastToRoom registry_checkAuthAndSend
  : registry.

Lemma registry_resume k o st : registry (resume k o st) = registry st.
Proof.
  unfold resume, database_error.
  repeat case_match; autorewrite with registry; done.
Qed.

Lemma registry_dispatch ws c m st :
  registry (outcome_state (dispatch ws c m st)) = registry st.
Proof.
  unfold dispatch, _handleAuthentication, _handleSensorData, _saveToDatabase,
    _handleHeartbeat, _handleDatabaseCreate, _handleDatabaseRead,
    _handleDatabaseUpdate, _handleDatabaseDelete, _handleDatabaseSubscribe,
    _handleDatabaseUnsubscribe, _handleJoinRoom, _handleLeaveRoom,
    schedule_auth_close, alter_session, open_feed.
  repeat case_match; simpl; autorewrite with registry; try done.
  all: rewrite registry_rooms_leave; try done.
  all: intros ?; apply registry_cancel.
Qed.

Lemma registry_handleClientMessage ws raw st :
  registry (_handleClientMessage ws raw st) = registry st.
Proof.
  unfold _handleClientMessage.
  destruct raw as [m|]; [|by autorewrite with registry].
  destruct (session_of ws _) as [c|]; [|done].
  pose proof (registry_dispatch ws c m
                (alter_session (count_message (now st)) ws st)) as Hd.
  destruct (dispatch _ _ _ _); simpl in Hd; autorewrite with registry; done.
Qed.

(** Apart from [start], the acceptance of a connection and the ['close'] of a
    socket, no callback writes the configuration, the running flag, the
    registry or the count. *)
Lemma registry_step e st :
  e ≠ Start → (∀ w, ¬ is_Connection w e) → (∀ w, ¬ is_Closed w e) →
  registry (step e st) = registry st.
Proof.
  intros Hstart Hconn Hclosed. destruct e; simpl.
  - done.
  - destruct (Hconn ws). by eexists _, _, _.
  - case_match; [|done]. apply registry_handleClientMessage.
  - destruct (Hclosed ws). by eexists _, _.
  - by case_match.
  - unfold heartbeat_tick.
    repeat case_match; autorewrite with registry; try done.
  - unfold auth_timeout.
    repeat case_match; autorewrite with registry; try done.
  - case_match; [|done]. by rewrite registry_resume.
  - repeat case_match; try done. by rewrite registry_broadcastToRoom.
  - done.
  - done.
Qed.

Lemma registry_eq st st' :
  registry st' = registry st
  ↔ config st' = config st ∧ isRunning st' = isRunning st
    ∧ clients st' = clients st ∧ connectionCount st' = connectionCount st.
Proof.
  unfold registry. split; [by intros [= -> -> -> ->] | by intros (-> & -> & -> & ->)].
Qed.

Lemma config_handleNewConnection ws ip a cid st :
  config (_handleNewConnection ws ip a cid st) = config st.
Proof.
  unfold _handleNewConnection, _startClientHeartbeat, _sendToRenderer,
    _sendToClient, ws_send, ws_close.
  by repeat case_match.
Qed.

Lemma config_step e st : config (step e st) = config st.
Proof.
  destruct e;
    try (apply registry_eq, registry_step;
         [ done | intros ? (? & ? & ? & ?); done
         | intros ? (? & ? & ?); done ]).
  - simpl. unfold start, _sendToRenderer. by repeat case_match.
  - simpl. case_match; [|done]. by rewrite config_handleNewConnection.
  - simpl. unfold _handleClientDisconnection, _sendToRenderer.
    by repeat case_match.
Qed.

Lemma filter_ne_absent (ws : nat) (l : list nat) :
  ws ∉ l → filter (fun w => w ≠ ws) l = l.
Proof.
  induction l as [|x l IH]; intros Hin; [done|].
  apply not_elem_of_cons in Hin as [Hne Hin].
  rewrite filter_cons, decide_True by done. by rewrite IH.
Qed.

Lemma length_filter_ne (ws : nat) (l : list nat) :
  NoDup l → ws ∈ l →
  S (length (filter (fun w => w ≠ ws) l)) = length l.
Proof.
  induction 1 as [|x l Hx Hl IH]; intros Hin;
    [by apply not_elem_of_nil in Hin|].
  rewrite filter_cons. destruct (decide (x = ws)) as [->|Hne].
  - rewrite decide_False by (by intros ?).
    by rewrite filter_ne_absent.
  - rewrite decide_True by done. simpl. f_equal. apply IH.
    by apply elem_of_cons in Hin as [->|Hin].
Qed.

Lemma registry_start st :
  clients (start st) = clients st
  ∧ connectionCount (start st) = connectionCount st.
Proof. unfold start, _sendToRenderer. by repeat case_match. Qed.

Lemma registry_handleNewConnection ws ip a cid st :
  (maxConnections (config st) ≤ connectionCount st)%Z
  ∧ clients (_handleNewConnection ws ip a cid st) = clients st
  ∧ connectionCount (_handleNewConnection ws ip a cid st)
    = connectionCount st
  ∨ (connectionCount st < maxConnections (config st))%Z
    ∧ clients (_handleNewConnection ws ip a cid st) = clients st ++ [ws]
    ∧ connectionCount (_handleNewConnection ws ip a cid st)
      = (connectionCount st + 1)%Z.
Proof.
  unfold _handleNewConnection, _startClientHeartbeat.
  destruct (_ <=? _)%Z eqn:E.
  - left. apply Z.leb_le in E. split; [done|].
    by destruct (proj1 (registry_eq _ _)
                   (registry_ws_close ws 1013 "Server overloaded" st))
      as (_ & _ & -> & ->).
  - right. apply Z.leb_gt in E. split; [done|].
    destruct (enableHeartbeat _).
    all: match goal with
         | |- clients ?x = _ ∧ _ =>
             assert (registry x
                     = registry
                         (set_connectionCount (connectionCount st + 1)
                            (set_clients (clients st ++ [ws]) st))) as H
               by (autorewrite with registry; done)
         end.
    all: by apply registry_eq in H as (_ & _ & -> & ->).
Qed.

Lemma registry_handleClientDisconnection ws c code reason st :
  clients (_handleClientDisconnection ws c code reason st)
  = filter (fun w => w ≠ ws) (clients st)
  ∧ connectionCount (_handleClientDisconnection ws c code reason st)
    = (connectionCount st - 1)%Z.
Proof.
  unfold _handleClientDisconnection, _sendToRenderer. by case_match.
Qed.

Lemma count_matches_step e st :
  listeners_registered st → clients_known st →
  count_matches st → count_matches (step e st).
Proof.
  intros I1 I2 [Hc Hd]. unfold count_matches.
  destruct e;
    try (match goal with
         | |- context [step ?e st] =>
             destruct (proj1 (registry_eq _ _)
                         (registry_step e st ltac:(done)
                            ltac:(intros ? (? & ? & ? & ?); done)
                            ltac:(intros ? (? & ? & ?); done)))
               as (_ & _ & -> & ->)
         end; done).
  - simpl. by destruct (registry_start st) as [-> ->].
  - simpl. destruct (isRunning st && _) eqn:G; [|done].
    apply andb_prop in G as [_ G]. apply bool_decide_eq_true in G.
    destruct (registry_handleNewConnection ws clientIP agent clientId
                (set_sockets (<[ws:=fresh_socket]> (sockets st)) st))
      as [(_ & -> & ->)|(_ & -> & ->)]; simpl; [done|].
    split; [rewrite length_app; simpl; lia|].
    apply NoDup_app. split; [done|]. split; [|apply NoDup_singleton].
    intros x Hx ->%list_elem_of_singleton.
    apply I2 in Hx as [? ?]. congruence.
  - simpl. destruct (sockets st !! ws) as [s|] eqn:E; [|done].
    assert (readyState s = CLOSED ∨ readyState s ≠ CLOSED) as [R|R]
      by (destruct (readyState s); auto); [by rewrite R|].
    assert (∀ x y : state,
              match readyState s with CLOSED => x | _ => y end = y) as ->
      by (by destruct (readyState s)).
    destruct (session s) as [c|] eqn:Hs; [|done].
    destruct (registry_handleClientDisconnection ws c code reason
                (alter_socket (set_readyState CLOSED) ws st)) as [-> ->].
    simpl. assert (ws ∈ clients st) as Hin
      by (apply (I1 ws s); [done | by rewrite Hs | done]).
    pose proof (length_filter_ne ws (clients st) Hd Hin).
    split; [lia | by apply NoDup_filter].
Qed.

Lemma reachable_count_matches st : reachable st → count_matches st.
Proof.
  intros Hr. induction Hr as [|e st Hr IH].
  - split; [done | apply NoDup_nil_2].
  - apply count_matches_step; [| |done].
    + by apply invariants_reachable.
    + by apply reachable_clients_known.
Qed.

Lemma clients_have_sessions_step e st :
  clients_known st →
  clients_have_sessions st → clients_have_sessions (step e st).
Proof.
  intros I2 I w Hw. unfold session_of.
  destruct (sockets st !! w) as [s|] eqn:E.
  - destruct (step_socket e st w s E) as (s' & -> & Hid & _).
    destruct (clients_step_adds e st w Hw) as [Hin|[_ ?]]; [|congruence].
    apply I in Hin. unfold session_of in Hin. rewrite E in Hin.
    destruct Hin as [c Hc]. rewrite Hc in Hid.
    destruct (session s'); [by eexists | done].
  - destruct (clients_step_adds e st w Hw) as [Hin|[(ip & a & cid & ->) _]].
    + apply I2 in Hin as [? ?]. congruence.
    + revert Hw. simpl. rewrite E, bool_decide_eq_true_2 by done.
      destruct (isRunning st); simpl;
        [|intros [? ?]%I2; congruence].
      rewrite sockets_handleNewConnection, clients_handleNewConnection.
      simpl. rewrite lookup_insert_eq. simpl.
      destruct (_ <=? _)%Z; simpl.
      * intros [? ?]%I2; congruence.
      * intros _. by destruct (enableHeartbeat (config st)).
Qed.

Lemma reachable_clients_have_sessions st :
  reachable st → clients_have_sessions st.
Proof.
  intros Hr. induction Hr as [|e st Hr IH].
  - intros w Hw. by apply not_elem_of_nil in Hw.
  - apply clients_have_sessions_step; [|done].
    by apply reachable_clients_known.
Qed.

Lemma length_omap_total {A B} (f : A → option B) (l : list A) :
  (∀ x, x ∈ l → is_Some (f x)) → length (omap f l) = length l.
Proof.
  induction l as [|x l IH]; intros H; [done|].
  destruct (H x) as [y Hy]; [by left|].
  simpl. rewrite Hy. simpl. f_equal. apply IH. intros z Hz. apply H. by right.
Qed.



Lemma maxConnections_step e st :
  maxConnections (config (step e st)) = maxConnections (config st).
Proof. by rewrite config_step. Qed.



(** ** Broadcast to every client *)

Lemma deliver_all_attempt m st n ws :
  deliver_all m (st, n) ws
  = if is_open ws st
    then (emit (attempt st m ws) st, if send_ok st ws then S n else n)
    else (st, n).
Proof.
  unfold deliver_all, attempt, send_ok, ws_send, is_open. simpl.
  destruct (sockets st !! ws) as [s|] eqn:E; [|done].
  destruct (readyState s); try done. by destruct (sendThrows s).
Qed.

Lemma foldl_deliver_all m l st n :
  foldl (deliver_all m) (st, n) l
  = (set_trace
       (trace st
        ++ (attempt st m <$> filter (fun ws => is_open ws st = true) l)) st,
     n + length (filter (fun ws => send_ok st ws = true)
                   (filter (fun ws => is_open ws st = true) l))).
Proof.
  revert st n. induction l as [|ws l IH]; intros st n.
  - simpl. rewrite app_nil_r, set_trace_same. f_equal. lia.
  - simpl. rewrite deliver_all_attempt, filter_cons.
    destruct (is_open ws st) eqn:E.
    + rewrite decide_True by done. rewrite IH, fmap_cons, filter_cons.
      change (fun w => is_open w (emit (attempt st m ws) st) = true)
        with (fun w => is_open w st = true).
      change (attempt (emit (attempt st m ws) st) m) with (attempt st m).
      change (fun w => send_ok (emit (attempt st m ws) st) w = true)
        with (fun w => send_ok st w = true).
      f_equal.
      * unfold emit, set_trace. simpl. by rewrite <- app_assoc.
      * case_decide as Hd.
        -- rewrite Hd. simpl. by rewrite Nat.add_succ_r.
        -- by destruct (send_ok st ws).
    + rewrite decide_False by congruence. apply IH.
Qed.

(** X3.  [broadcastToAll] tries every key of [clients] whose socket is open,
    once and in the order of the map, and no other socket; a send that throws
    is caught and the loop goes on.  The result is the number of sends that
    did not throw, which is the number of open clients when none throws.
    Nothing but the trace changes. *)
Theorem broadcastToAll_open_clients message st :
  broadcastToAll message st
  = (set_trace (trace st ++ (attempt st message <$> open_clients st)) st,
     length (filter (fun ws => send_ok st ws = true) (open_clients st)))
  ∧ ((∀ ws, ws ∈ open_clients st → send_ok st ws = true) →
     broadcastToAll message st
     = (set_trace
          (trace st ++ ((fun ws => Send ws message) <$> open_clients st)) st,
        length (open_clients st))).
Proof.
  assert (broadcastToAll message st
          = (set_trace
               (trace st ++ (attempt st message <$> open_clients st)) st,
             length (filter (fun ws => send_ok st ws = true)
                       (open_clients st)))) as Hb
    by apply foldl_deliver_all.
  split; [exact Hb|]. intros Hok. rewrite Hb.
  by destruct (attempts_ok st message (open_clients st) Hok) as [-> ->].
Qed.

(** ** What a callback writes to a session *)

Lemma sockets_handleSensorData ws c m st :
  sockets (_handleSensorData ws c m st) = sockets st.
Proof. unfold _handleSensorData, _saveToDatabase. frame. Qed.

Lemma sockets_handleDatabaseCreate ws c m st :
  sockets (_handleDatabaseCreate ws c m st) = sockets st.
Proof. unfold _handleDatabaseCreate. frame. Qed.

Lemma sockets_handleDatabaseRead ws c m st :
  sockets (_handleDatabaseRead ws c m st) = sockets st.
Proof. unfold _handleDatabaseRead. frame. Qed.

Lemma sockets_handleDatabaseUpdate ws c m st :
  sockets (_handleDatabaseUpdate ws c m st) = sockets st.
Proof. unfold _handleDatabaseUpdate. frame. Qed.

Lemma sockets_handleDatabaseDelete ws c m st :
  sockets (_handleDatabaseDelete ws c m st) = sockets st.
Proof. unfold _handleDatabaseDelete. frame. Qed.

Lemma sockets_handleDatabaseSubscribe ws c m st :
  sockets (_handleDatabaseSubscribe ws c m st) = sockets st.
Proof. unfold _handleDatabaseSubscribe, open_feed. frame. Qed.

Lemma sockets_handleDatabaseUnsubscribe ws c m st :
  sockets (_handleDatabaseUnsubscribe ws c m st) = sockets st.
Proof.
  unfold _handleDatabaseUnsubscribe. frame.
  rewrite sockets_rooms_leave; [done|]. intros ?. apply sockets_cancel.
Qed.

Lemma sockets_handleJoinRoom ws c m st :
  sockets (_handleJoinRoom ws c m st) = sockets st.
Proof. unfold _handleJoinRoom. frame. Qed.

Lemma sockets_handleLeaveRoom ws c m st :
  sockets (_handleLeaveRoom ws c m st) = sockets st.
Proof.
  unfold _handleLeaveRoom. frame. by rewrite sockets_rooms_leave.
Qed.

Lemma sockets_handleHeartbeat ws c m st :
  sockets (_handleHeartbeat ws c m st)
  = alter (fun s => set_session (set_lastHeartbeat (now st) <$> session s) s)
      ws (sockets st).
Proof.
  unfold _handleHeartbeat, alter_session, alter_socket.
  autorewrite with frame. done.
Qed.

Lemma sockets_handleAuthentication ws c m st :
  sockets (_handleAuthentication ws c m st)
  = if negb (enableAuthentication (config st)) then sockets st
    else if strict_equal_string (js_get m "token") (authToken (config st))
    then alter (fun s => set_session (set_isAuthenticated true <$> session s) s)
           ws (sockets st)
    else alter (fun s => set_authTimers (S (authTimers s)) s) ws (sockets st).
Proof.
  unfold _handleAuthentication, schedule_auth_close, alter_session,
    alter_socket.
  repeat case_match; autorewrite with frame; done.
Qed.

(** The router's [switch] on a frame whose [type] is a string, on one whose
    [type] is anything else, and on [null]. *)
Lemma dispatch_string ws c m st type :
  js_get m "type" = Own (JStr type) →
  dispatch ws c m st
  = Returned
      (if String.eqb type "auth"
       then _handleAuthentication ws c m st
       else if String.eqb type "sensor_data"
       then _handleSensorData ws c m st
       else if String.eqb type "heartbeat"
       then _handleHeartbeat ws c m st
       else if String.eqb type "ping"
       then _sendToClient ws (frame st "pong" []) st
       else if String.eqb type "db_create"
       then _handleDatabaseCreate ws c m st
       else if String.eqb type "db_read"
       then _handleDatabaseRead ws c m st
       else if String.eqb type "db_update"
       then _handleDatabaseUpdate ws c m st
       else if String.eqb type "db_delete"
       then _handleDatabaseDelete ws c m st
       else if String.eqb type "db_subscribe"
       then _handleDatabaseSubscribe ws c m st
       else if String.eqb type "db_unsubscribe"
       then _handleDatabaseUnsubscribe ws c m st
       else if String.eqb type "join_room"
       then _handleJoinRoom ws c m st
       else if String.eqb type "leave_room"
       then _handleLeaveRoom ws c m st
       else _sendToClient ws (unknown_type st (Own (JStr type))) st).
Proof.
  intros T. unfold dispatch. rewrite T.
  destruct m; try done; by repeat case_match.
Qed.

Lemma dispatch_other ws c m st :
  m ≠ JNull → (∀ type, js_get m "type" ≠ Own (JStr type)) →
  dispatch ws c m st
  = Returned (_sendToClient ws (unknown_type st (js_get m "type")) st).
Proof.
  intros Hm T. unfold dispatch.
  destruct (js_get m "type") as [| |[| | |type| |]] eqn:E;
    try (by destruct m).
  by destruct (T type).
Qed.

Lemma dispatch_cases ws c m st :
  m = JNull ∧ dispatch ws c m st = Threw st
  ∨ (∃ type, js_get m "type" = Own (JStr type))
  ∨ (∀ type, js_get m "type" ≠ Own (JStr type))
    ∧ dispatch ws c m st
      = Returned (_sendToClient ws (unknown_type st (js_get m "type")) st).
Proof.
  destruct (js_get m "type") as [| |[| | |type| |]] eqn:E;
    try (right; left; by eexists).
  all: destruct m; [by left|..].
  all: right; right; split; [by intros ?|].
  all: by rewrite dispatch_other; [rewrite E | | intros ?; rewrite E].
Qed.

(** The sockets after the router's [switch]: only the sender's socket is
    written, and of it only the session and the count of close timers. *)
Lemma dispatch_socket ws c m st w s :
  sockets st !! w = Some s →
  ∃ s', sockets (outcome_state (dispatch ws c m st)) !! w = Some s'
        ∧ readyState s' = readyState s
        ∧ sendThrows s' = sendThrows s
        ∧ heartbeatTimer s' = heartbeatTimer s
        ∧ session s' = if decide (w = ws)
                       then handled m st <$> session s else session s.
Proof.
  intros Hs.
  assert (∀ st', sockets st' = sockets st →
            strict_equal_string (js_get m "type") (Some "auth") = false →
            strict_equal_string (js_get m "type") (Some "heartbeat") = false →
            ∃ s', sockets st' !! w = Some s'
                  ∧ readyState s' = readyState s
                  ∧ sendThrows s' = sendThrows s
                  ∧ heartbeatTimer s' = heartbeatTimer s
                  ∧ session s' = if decide (w = ws)
                                 then handled m st <$> session s
                                 else session s) as Hsame.
  { intros st' -> Ha Hh. exists s. repeat split; try done.
    unfold handled, presents_token. rewrite Ha, Hh. simpl.
    destruct (decide (w = ws)); [|done]. by destruct (session s). }
  destruct (dispatch_cases ws c m st) as [[-> ->]|[[type T]|[T ->]]].
  - by apply Hsame.
  - rewrite (dispatch_string ws c m st type T). cbn [outcome_state].
    destruct (String.eqb type "auth") eqn:Ea.
    { clear Hsame. rewrite sockets_handleAuthentication.
      unfold handled, presents_token. rewrite T. cbn [strict_equal_string].
      rewrite Ea. simpl.
      destruct (enableAuthentication (config st)); simpl.
      - destruct (strict_equal_string _ (authToken (config st))); simpl.
        + destruct (decide (w = ws)) as [->|Hne].
          * rewrite lookup_alter_eq, Hs. simpl. by eexists.
          * rewrite lookup_alter_ne, Hs by done. by eexists.
        + apply String.eqb_eq in Ea as ->. simpl.
          destruct (decide (w = ws)) as [->|Hne].
          * rewrite lookup_alter_eq, Hs. simpl. eexists. split; [done|].
            simpl. by destruct (session s).
          * rewrite lookup_alter_ne, Hs by done. by eexists.
      - apply String.eqb_eq in Ea as ->. simpl. exists s.
        repeat split; try done.
        destruct (decide (w = ws)); [|done]. by destruct (session s). }
    destruct (String.eqb type "sensor_data") eqn:E1.
    { apply Hsame; [apply sockets_handleSensorData | by rewrite T; simpl|].
      rewrite T. simpl. by apply String.eqb_eq in E1 as ->. }
    destruct (String.eqb type "heartbeat") eqn:Eh.
    { clear Hsame. rewrite sockets_handleHeartbeat.
      unfold handled, presents_token. rewrite T. cbn [strict_equal_string].
      rewrite Ea, Eh. simpl.
      destruct (decide (w = ws)) as [->|Hne].
      - rewrite lookup_alter_eq, Hs. simpl. by eexists.
      - rewrite lookup_alter_ne, Hs by done. by eexists. }
    assert (strict_equal_string (js_get m "type") (Some "auth") = false)
      as Ha by (by rewrite T).
    assert (strict_equal_string (js_get m "type") (Some "heartbeat") = false)
      as Hh by (by rewrite T).
    repeat case_match;
      (apply Hsame;
       [ first [ apply sockets_handleDatabaseCreate
               | apply sockets_handleDatabaseRead
               | apply sockets_handleDatabaseUpdate
               | apply sockets_handleDatabaseDelete
               | apply sockets_handleDatabaseSubscribe
               | apply sockets_handleDatabaseUnsubscribe
               | apply sockets_handleJoinRoom
               | apply sockets_handleLeaveRoom
               | by autorewrite with frame ]
       | done | done ]).
  - cbn [outcome_state]. apply Hsame; [by autorewrite with frame | |].
    + destruct (js_get m "type") as [| |[]]; try done. by destruct (T s0).
    + destruct (js_get m "type") as [| |[]]; try done. by destruct (T s0).
Qed.

Lemma sockets_router_end ws c m st :
  sockets (match dispatch ws c m st with
           | Returned st2 => st2
           | Threw st2 => _sendToClient ws (invalid_json st2) st2
           end)
  = sockets (outcome_state (dispatch ws c m st)).
Proof. destruct (dispatch ws c m st); by autorewrite with frame. Qed.

(** The sockets after [_handleClientMessage]: the frame is counted and handled
    on the session of its sender; a frame that does not parse is not. *)
Lemma handleClientMessage_socket ws raw st w s :
  sockets st !! w = Some s →
  ∃ s', sockets (_handleClientMessage ws raw st) !! w = Some s'
        ∧ readyState s' = readyState s
        ∧ sendThrows s' = sendThrows s
        ∧ heartbeatTimer s' = heartbeatTimer s
        ∧ session s' = match raw with
                       | Some m => if decide (w = ws)
                                   then received m st <$> session s
                                   else session s
                       | None => session s
                       end.
Proof.
  intros Hs. unfold _handleClientMessage.
  destruct raw as [m|];
    [|autorewrite with frame; by exists s].
  set (st1 := alter_session (count_message (now st)) ws st).
  assert (∃ s1, sockets st1 !! w = Some s1
                ∧ readyState s1 = readyState s
                ∧ sendThrows s1 = sendThrows s
                ∧ heartbeatTimer s1 = heartbeatTimer s
                ∧ session s1 = if decide (w = ws)
                               then count_message (now st) <$> session s
                               else session s) as (s1 & Hs1 & R1 & T1 & B1 & S1).
  { subst st1. simpl. destruct (decide (w = ws)) as [->|Hne].
    - rewrite lookup_alter_eq, Hs. simpl. by eexists.
    - rewrite lookup_alter_ne, Hs by done. by eexists. }
  destruct (session_of ws st1) as [c|] eqn:Hc.
  - rewrite sockets_router_end.
    destruct (dispatch_socket ws c m st1 w s1 Hs1)
      as (s' & Hs' & R & T & B & S).
    exists s'. split; [done|]. rewrite R, T, B, S, S1.
    repeat split; try done.
    destruct (decide (w = ws)); [|done].
    unfold received. by destruct (session s).
  - exists s1. repeat split; try done. rewrite S1.
    destruct (decide (w = ws)) as [->|]; [|done].
    unfold session_of in Hc. rewrite Hs1, S1 in Hc.
    by destruct (session s).
Qed.

(** What any event does to the session of a socket that exists. *)
Lemma session_step e st w s :
  sockets st !! w = Some s →
  ∃ s', sockets (step e st) !! w = Some s'
        ∧ session s' = session_after e w st s.
Proof.
  intros Hs.
  assert (∀ s', session s' = session s →
            (∀ ws m, e ≠ Message ws (Some m)) → (∀ ws, e ≠ Pong ws) →
            session s' = session_after e w st s) as Hsame.
  { intros s' -> Hm Hp. unfold session_after.
    destruct (readyState s), e as [| |? []| | | | | | | |]; try done.
    all: first [by destruct (Hm ws j) | by destruct (Hp ws)]. }
  destruct e.
  - exists s. split; [|by apply Hsame]. simpl. unfold start. by frame.
  - rewrite sockets_step_Connection.
    + exists s. split; [done | by apply Hsame].
    + destruct (decide (ws = w)) as [->|]; [right; by rewrite Hs | by left].
  - destruct (handleClientMessage_socket ws rawData st w s Hs)
      as (s' & Hs' & _ & _ & _ & S).
    assert (listening ws st = None →
            session s = session_after (Message ws rawData) w st s) as Hno.
    { unfold session_after, listening. intros Hl.
      destruct rawData as [m|]; [|by destruct (readyState s)].
      destruct (decide (ws = w)) as [->|Hne]; [|by destruct (readyState s)].
      rewrite Hs in Hl.
      destruct (readyState s); try done; by rewrite Hl. }
    assert (is_Some (listening ws st) →
            session s' = session_after (Message ws rawData) w st s) as Hyes.
    { unfold session_after, listening. intros [c Hl]. rewrite S.
      destruct rawData as [m|]; [|by destruct (readyState s)].
      destruct (decide (ws = w)) as [->|Hne];
        [ rewrite decide_True by done
        | rewrite decide_False by done; by destruct (readyState s) ].
      rewrite Hs in Hl. by destruct (readyState s). }
    simpl. destruct (listening ws st) as [c|].
    + exists s'. split; [done|]. apply Hyes. by eexists.
    + exists s. split; [done|]. by apply Hno.
  - rewrite sockets_step_Closed.
    destruct (decide (ws = w)) as [->|Hne].
    + rewrite lookup_alter_eq, Hs. simpl. eexists. split; [done|].
      by apply (Hsame (set_readyState CLOSED s)).
    + rewrite lookup_alter_ne by done. exists s.
      split; [done | by apply Hsame].
  - simpl. unfold session_after, listening.
    destruct (decide (ws = w)) as [->|Hne].
    + rewrite Hs. destruct (readyState s) eqn:R, (session s) eqn:C;
        try (exists s; by rewrite C).
      all: simpl; rewrite lookup_alter_eq, Hs; simpl.
      all: eexists; split; [done|]; simpl; by rewrite C.
    + assert (session s = match readyState s with
                          | CLOSED => session s
                          | _ => session s
                          end) as <- by (by destruct (readyState s)).
      destruct (sockets st !! ws) as [s0|]; [|by exists s].
      destruct (readyState s0); try (by exists s).
      all: destruct (session s0); try (by exists s).
      all: simpl; rewrite lookup_alter_ne by done; by exists s.
  - destruct (step_socket (HeartbeatTick ws) st w s Hs) as (s' & Hs' & _).
    exists s'. split; [done|]. apply Hsame; [|done..]. revert Hs'. simpl.
    destruct (sockets st !! ws) as [s0|] eqn:E0; [|congruence].
    destruct (heartbeatTimer s0); [|congruence].
    unfold heartbeat_tick.
    repeat case_match; simpl; autorewrite with frame; simpl.
    all: destruct (decide (ws = w)) as [->|Hne];
      rewrite ?lookup_alter_eq, ?lookup_alter_ne, ?Hs by done; simpl;
      try congruence.
    all: intros [= <-]; simpl; unfold closing; by repeat case_match.
  - rewrite sockets_step_AuthTimeout.
    destruct (decide (ws = w)) as [->|Hne].
    + rewrite lookup_alter_eq, Hs. simpl. eexists. split; [done|].
      apply Hsame; [|done..].
      unfold timer_fired. by repeat case_match.
    + rewrite lookup_alter_ne by done. exists s.
      split; [done | by apply Hsame].
  - exists s. split; [|by apply Hsame]. simpl.
    case_match; [|done]. by rewrite sockets_resume.
  - exists s. split; [|by apply Hsame]. simpl.
    repeat case_match; try done. by rewrite sockets_broadcastToRoom.
  - exists s. split; [done | by apply Hsame].
  - simpl. destruct (decide (ws = w)) as [->|Hne].
    + rewrite lookup_alter_eq, Hs. simpl. eexists.
      split; [done | by apply (Hsame (set_sendThrows throws s))].
    + rewrite lookup_alter_ne by done. exists s.
      split; [done | by apply Hsame].
Qed.

Lemma received_fields m st c :
  id (received m st c) = id c
  ∧ ip (received m st c) = ip c
  ∧ connectedAt (received m st c) = connectedAt c
  ∧ dataReceived (received m st c) = (dataReceived c + 1)%Z
  ∧ lastDataTime (received m st c) = Some (now st)
  ∧ isAuthenticated (received m st c)
    = presents_token m st || isAuthenticated c
  ∧ lastHeartbeat (received m st c)
    = if strict_equal_string (js_get m "type") (Some "heartbeat")
      then now st else lastHeartbeat c.
Proof.
  unfold received, handled, presents_token.
  destruct (js_get m "type") as [| |[| | |type| |]]; simpl; try done.
  destruct (String.eqb type "auth") eqn:Ea; simpl.
  - apply String.eqb_eq in Ea as ->. simpl. by repeat case_match.
  - by destruct (String.eqb type "heartbeat").
Qed.

Lemma presents_token_string m st :
  token_configured (config st) → presents_token m st = true →
  enableAuthentication (config st) = true
  ∧ js_get m "type" = Own (JStr "auth")
  ∧ ∃ t, js_get m "token" = Own (JStr t) ∧ authToken (config st) = Some t.
Proof.
  intros Hc. unfold presents_token.
  intros [[Ht Hen]%andb_prop Htok]%andb_prop.
  split; [done|]. split.
  - destruct (js_get m "type") as [| |[| | |type| |]]; try done.
    by apply String.eqb_eq in Ht as ->.
  - destruct (Hc Hen) as [t Ht']. exists t. rewrite Ht' in Htok.
    destruct (js_get m "token") as [| |[| | |x| |]]; try done.
    by apply String.eqb_eq in Htok as ->.
Qed.

Lemma reachable_token_configured st :
  reachable st → token_configured (config st).
Proof.
  induction 1 as [cfg ? ? generated ?|e st _ IH];
    [|by rewrite config_step].
  unfold token_configured. simpl.
  destruct (enableAuthentication cfg) eqn:E; simpl.
  - destruct (authToken cfg) as [t|] eqn:T; simpl.
    + destruct (String.eqb t ""); simpl; [by eexists | by rewrite T].
    + by eexists.
  - by rewrite E.
Qed.

(** X4.  A session changes from unauthenticated to authenticated only when its
    own socket delivers an [auth] frame whose [token] is a string equal to the
    configured token, read by a handler that asks for authentication; no
    other frame, no other client's frame, no timer and no storage result
    authenticates it, and a frame whose [token] is missing or [null] never
    does.  Nothing takes the authentication away again, and the identity of
    the session is never rewritten. *)
Theorem authentication_only_by_token e st ws s c :
  reachable st →
  sockets st !! ws = Some s → session s = Some c →
  ∃ s' c',
    sockets (step e st) !! ws = Some s' ∧ session s' = Some c'
    ∧ id c' = id c
    ∧ (isAuthenticated c = true → isAuthenticated c' = true)
    ∧ (isAuthenticated c = false → isAuthenticated c' = true →
       enableAuthentication (config st) = true
       ∧ ∃ m t, e = Message ws (Some m)
                ∧ js_get m "type" = Own (JStr "auth")
                ∧ js_get m "token" = Own (JStr t)
                ∧ authToken (config st) = Some t).
Proof.
  intros Hr Hs Hc.
  destruct (session_step e st ws s Hs) as (s' & Hs' & S).
  exists s'. unfold session_after in S. rewrite Hc in S.
  assert (∀ m, ∃ c',
            received m st <$> Some c = Some c' ∧ id c' = id c
            ∧ (isAuthenticated c = true → isAuthenticated c' = true)
            ∧ (isAuthenticated c = false → isAuthenticated c' = true →
               enableAuthentication (config st) = true
               ∧ ∃ t, js_get m "type" = Own (JStr "auth")
                      ∧ js_get m "token" = Own (JStr t)
                      ∧ authToken (config st) = Some t)) as Hrec.
  { intros m. exists (received m st c).
    destruct (received_fields m st c) as (-> & _ & _ & _ & _ & -> & _).
    split; [done|]. split; [done|]. split; [by intros ->; rewrite orb_true_r|].
    intros ->. rewrite orb_false_r. intros Hp.
    apply presents_token_string in Hp as (? & ? & t & ? & ?);
      [|by apply reachable_token_configured].
    split; [done|]. by exists t. }
  assert (∃ c', Some c = Some c' ∧ id c' = id c
                ∧ (isAuthenticated c = true → isAuthenticated c' = true)
                ∧ (isAuthenticated c = false → isAuthenticated c' = true →
                   enableAuthentication (config st) = true
                   ∧ ∃ m t, e = Message ws (Some m)
                            ∧ js_get m "type" = Own (JStr "auth")
                            ∧ js_get m "token" = Own (JStr t)
                            ∧ authToken (config st) = Some t)) as Hsame.
  { exists c. repeat split; try done; congruence. }
  assert (∃ c', set_lastHeartbeat (now st) <$> Some c = Some c'
                ∧ id c' = id c
                ∧ (isAuthenticated c = true → isAuthenticated c' = true)
                ∧ (isAuthenticated c = false → isAuthenticated c' = true →
                   enableAuthentication (config st) = true
                   ∧ ∃ m t, e = Message ws (Some m)
                            ∧ js_get m "type" = Own (JStr "auth")
                            ∧ js_get m "token" = Own (JStr t)
                            ∧ authToken (config st) = Some t)) as Hpong.
  { eexists. split; [done|]. simpl. repeat split; try done; congruence. }
  destruct (readyState s), e as [| |w [m|]| |w| | | | | |];
    try (destruct Hsame as (c' & E & ?); exists c'; by rewrite S, <- E).
  all: destruct (decide (w = ws)) as [->|Hne];
    try (destruct Hsame as (c' & E & ?); exists c'; by rewrite S, <- E).
  all: try (destruct Hpong as (c' & E & ?); exists c'; by rewrite S, <- E).
  all: destruct (Hrec m) as (c' & E & Hid & Hup & Hnew); exists c'.
  all: split; [done|]; split; [by rewrite S|].
  all: split; [done|]; split; [done|].
  all: intros H1 H2; destruct (Hnew H1 H2) as (? & t & ? & ? & ?).
  all: split; [done|]; by exists m, t.
Qed.

Lemma authentication_only_by_token_witness :
  let e := Message 1 (request "auth" [("token", JStr "secret")]) in
  ∃ s' c',
    sockets (step e demo_guarded) !! 1 = Some s' ∧ session s' = Some c'
    ∧ id c' = id demo_unauthenticated
    ∧ (isAuthenticated demo_unauthenticated = true →
       isAuthenticated c' = true)
    ∧ (isAuthenticated demo_unauthenticated = false →
       isAuthenticated c' = true →
       enableAuthentication (config demo_guarded) = true
       ∧ ∃ m t, e = Message 1 (Some m)
                ∧ js_get m "type" = Own (JStr "auth")
                ∧ js_get m "token" = Own (JStr t)
                ∧ authToken (config demo_guarded) = Some t).
Proof.
  intros e.
  apply (authentication_only_by_token e demo_guarded 1 demo_guarded_socket
           demo_unauthenticated).
  - repeat constructor.
  - by vm_compute.
  - done.
Defined.

Lemma listening_Some ws st c :
  listening ws st = Some c ↔
  ∃ s, sockets st !! ws = Some s ∧ readyState s ≠ CLOSED
       ∧ session s = Some c.
Proof.
  unfold listening. split.
  - destruct (sockets st !! ws) as [s|]; [|done]. intros H. exists s.
    by destruct (readyState s).
  - intros (s & -> & R & C). by destruct (readyState s).
Qed.

Lemma listening_session_of ws st c :
  listening ws st = Some c → session_of ws st = Some c.
Proof.
  intros (s & Hs & _ & C)%listening_Some. unfold session_of. by rewrite Hs.
Qed.

(** A frame from a socket that delivers: the router counts it and switches on
    it with the session as counted. *)
Lemma step_Message ws m c st :
  listening ws st = Some c →
  step (Message ws (Some m)) st
  = let st1 := alter_session (count_message (now st)) ws st in
    match dispatch ws (count_message (now st) c) m st1 with
    | Returned st2 => st2
    | Threw st2 => _sendToClient ws (invalid_json st2) st2
    end.
Proof.
  intros Hl. simpl. rewrite Hl. unfold _handleClientMessage.
  apply listening_Some in Hl as (s & Hs & _ & C).
  unfold session_of. simpl. rewrite lookup_alter_eq, Hs. simpl.
  by rewrite C.
Qed.

Lemma is_open_Some ws st :
  is_open ws st = true ↔ ∃ s, sockets st !! ws = Some s ∧ readyState s = OPEN.
Proof.
  unfold is_open. split.
  - destruct (sockets st !! ws) as [s|]; [|done]. intros H. exists s.
    by destruct (readyState s).
  - by intros (s & -> & ->).
Qed.

(** X5.  With authentication asked for, an [auth] frame carrying the
    configured token marks the session of its sender authenticated: the
    check the data handlers make then lets it pass.  An open socket is
    answered with the success response, and the hosting window is told. *)
Theorem token_authenticates ws c m t st :
  listening ws st = Some c →
  enableAuthentication (config st) = true → authToken (config st) = Some t →
  js_get m "type" = Own (JStr "auth") → js_get m "token" = Own (JStr t) →
  let st' := step (Message ws (Some m)) st in
  ∃ c', session_of ws st' = Some c' ∧ isAuthenticated c' = true
        ∧ _checkAuthAndSend ws c' st' = (st', true)
        ∧ (is_open ws st = true → send_ok st ws = true →
           trace st'
           = trace st
             ++ Send ws (auth_response st true "Authentication successful")
             :: if mainWindow st
                then [Renderer "websocket-client-authenticated"
                        (notice st [("clientId", Own (JStr (id c)));
                                    ("ip", Own (JStr (ip c)))])]
                else []).
Proof.
  intros Hl Hen Htok Ht Hm st'.
  pose proof Hl as (s & Hs & R & C)%listening_Some.
  subst st'. rewrite (step_Message ws m c st Hl). cbv zeta.
  rewrite (dispatch_string _ _ _ _ "auth" Ht). simpl String.eqb. cbv iota.
  unfold _handleAuthentication. simpl config. rewrite Hen, Hm, Htok.
  simpl negb. cbv iota. simpl strict_equal_string. rewrite String.eqb_refl.
  exists (set_isAuthenticated true (count_message (now st) c)).
  split; [|split; [done|split]].
  - unfold session_of. autorewrite with frame. simpl.
    rewrite !lookup_alter_eq, Hs. simpl. by rewrite C.
  - unfold _checkAuthAndSend. simpl isAuthenticated.
    by rewrite andb_false_r.
  - intros Ho Hok. unfold is_open, send_ok in Ho, Hok. rewrite Hs in Ho, Hok.
    unfold _sendToRenderer, _sendToClient, ws_send, is_open. simpl.
    rewrite !lookup_alter_eq, Hs. simpl.
    destruct (readyState s); try done.
    destruct (sendThrows s); try done. simpl.
    destruct (mainWindow st); simpl; by rewrite <- ?app_assoc.
Qed.

Lemma token_authenticates_witness :
  ∃ c', session_of 1
          (step (Message 1 (request "auth" [("token", JStr "secret")]))
             demo_guarded) = Some c'
        ∧ isAuthenticated c' = true.
Proof.
  destruct (token_authenticates 1 demo_unauthenticated
              (JObj [("type", JStr "auth"); ("token", JStr "secret")])
              "secret" demo_guarded) as (c' & H1 & H2 & _).
  - by vm_compute.
  - by vm_compute.
  - by vm_compute.
  - by vm_compute.
  - by vm_compute.
  - by exists c'.
Defined.

(** ** Frames counted and heartbeats renewed *)

Lemma step_socket_open e st w s :
  sockets st !! w = Some s → readyState s ≠ CLOSED → ¬ is_Closed w e →
  ∃ s', sockets (step e st) !! w = Some s' ∧ readyState s' ≠ CLOSED
        ∧ session s' = session_after e w st s.
Proof.
  intros Hs R He.
  destruct (session_step e st w s Hs) as (s' & Hs' & S).
  destruct (step_socket e st w s Hs) as (s'' & Hs'' & _ & _ & Hc & _).
  assert (s'' = s') as -> by congruence.
  exists s'. split; [done|]. split; [|done].
  intros H. by destruct (Hc H).
Qed.

(** X6.  Every frame a socket delivers decoded is counted on its session,
    whatever its type and whether or not its handler accepts it: as long as
    the socket has not emitted ['close'], [dataReceived] has grown by the
    number of such frames, and the identity of the session is the same. *)
Theorem frames_counted events st ws s c :
  sockets st !! ws = Some s → session s = Some c → readyState s ≠ CLOSED →
  Forall (fun e => ¬ is_Closed ws e) events →
  ∃ s' c',
    sockets (run events st) !! ws = Some s' ∧ session s' = Some c'
    ∧ id c' = id c
    ∧ dataReceived c'
      = (dataReceived c + Z.of_nat (frames_from ws events))%Z.
Proof.
  intros Hs Hc R Hev. revert st s c Hs Hc R.
  induction Hev as [|e events He Hev IH]; intros st s c Hs Hc R.
  - exists s, c. unfold frames_from. simpl. repeat split; try done. lia.
  - destruct (step_socket_open e st ws s Hs R He) as (s1 & Hs1 & R1 & S1).
    unfold session_after in S1. rewrite Hc in S1.
    assert (∃ c1, session s1 = Some c1 ∧ id c1 = id c
                  ∧ dataReceived c1
                    = (dataReceived c
                       + if is_frame_from ws e then 1 else 0)%Z)
      as (c1 & Hc1 & Hid1 & Hn1).
    { rewrite S1. assert (readyState s ≠ CLOSED) as R' by done.
      destruct (readyState s); [| | |done].
      all: destruct e as [| |w [m|]| |w| | | | | |]; simpl;
        try (exists c; split; [done|]; split; [done|]; lia).
      all: destruct (decide (w = ws)) as [->|Hne];
        rewrite ?bool_decide_eq_true_2, ?bool_decide_eq_false_2 by done;
        try (exists c; split; [done|]; split; [done|]; lia).
      all: try (eexists; split; [done|]; simpl; split; [done|]; lia).
      all: exists (received m st c); split; [done|].
      all: by destruct (received_fields m st c) as (-> & _ & _ & -> & _). }
    destruct (IH (step e st) s1 c1 Hs1 Hc1 R1) as (s' & c' & ? & ? & ? & Hn).
    exists s', c'. split; [done|]. split; [done|]. split; [congruence|].
    rewrite Hn, Hn1. unfold frames_from. rewrite filter_cons.
    destruct (is_frame_from ws e) eqn:F.
    + rewrite decide_True by done. simpl length. lia.
    + rewrite decide_False by congruence. lia.
Qed.

Lemma frames_counted_witness :
  ∃ s' c',
    sockets (run [Message 1 (request "ping" []); Message 1 None;
                  Message 1 (request "nonsense" [])] demo_guarded) !! 1
    = Some s'
    ∧ session s' = Some c' ∧ id c' = "client_a" ∧ dataReceived c' = 2%Z.
Proof.
  apply (frames_counted
           [Message 1 (request "ping" []); Message 1 None;
            Message 1 (request "nonsense" [])]
           demo_guarded 1 demo_guarded_socket demo_unauthenticated).
  - by vm_compute.
  - done.
  - done.
  - repeat constructor; by intros (? & ? & ?).
Defined.

(** X7.  [lastHeartbeat] is renewed, to the time of the event, by a pong of
    the session's socket and by a [heartbeat] frame from it, and by nothing
    else: a frame of any other type, data frames included, leaves it as it
    was. *)
Theorem heartbeat_renewed e st ws s c :
  sockets st !! ws = Some s → session s = Some c → readyState s ≠ CLOSED →
  ∃ s' c',
    sockets (step e st) !! ws = Some s' ∧ session s' = Some c'
    ∧ lastHeartbeat c' = if renews ws e then now st else lastHeartbeat c.
Proof.
  intros Hs Hc R.
  destruct (session_step e st ws s Hs) as (s' & Hs' & S).
  exists s'. unfold session_after in S. rewrite Hc in S.
  assert (readyState s ≠ CLOSED) as R' by done.
  destruct (readyState s); [| | |done].
  all: destruct e as [| |w [m|]| |w| | | | | |]; simpl;
    try (exists c; by rewrite S).
  all: destruct (decide (w = ws)) as [->|Hne];
    rewrite ?bool_decide_eq_true_2, ?bool_decide_eq_false_2 by done;
    try (exists c; by rewrite S).
  all: try (eexists; split; [done|]; by rewrite S).
  all: exists (received m st c); split; [done|]; split; [by rewrite S|].
  all: by destruct (received_fields m st c) as (_ & _ & _ & _ & _ & _ & ->).
Qed.

Lemma heartbeat_renewed_witness :
  ∃ s' c',
    sockets (step (Message 1 (request "heartbeat" []))
               (step (Clock 5) demo_joined)) !! 1 = Some s'
    ∧ session s' = Some c' ∧ lastHeartbeat c' = 5%Z.
Proof.
  destruct (heartbeat_renewed (Message 1 (request "heartbeat" []))
              (step (Clock 5) demo_joined) 1 demo_socket demo_client)
    as (s' & c' & H1 & H2 & H3).
  - by vm_compute.
  - done.
  - done.
  - by exists s', c'.
Defined.

Lemma heartbeatTimer_stays_off events st ws s :
  sockets st !! ws = Some s → heartbeatTimer s = false →
  ∃ s', sockets (run events st) !! ws = Some s' ∧ heartbeatTimer s' = false.
Proof.
  revert st s. induction events as [|e events IH]; intros st s Hs Hb.
  - by exists s.
  - destruct (step_socket e st ws s Hs) as (s1 & Hs1 & _ & _ & _ & _ & B).
    apply (IH (step e st) s1 Hs1).
    destruct (heartbeatTimer s1); [|done]. rewrite B in Hb; done.
Qed.

Lemma step_HeartbeatTick_off ws s st :
  sockets st !! ws = Some s → heartbeatTimer s = false →
  step (HeartbeatTick ws) st = st.
Proof. intros Hs Hb. simpl. by rewrite Hs, Hb. Qed.

Lemma step_HeartbeatTick_on ws s st :
  sockets st !! ws = Some s → heartbeatTimer s = true →
  step (HeartbeatTick ws) st
  = match readyState s with
    | OPEN =>
        match session s with
        | Some clientData =>
            if (heartbeatInterval (config st) * 2
                <? now st - lastHeartbeat clientData)%Z
            then alter_socket (set_heartbeatTimer false) ws
                   (ws_close ws 1000 "Heartbeat timeout" st)
            else emit (Ping ws) st
        | None => st
        end
    | _ => alter_socket (set_heartbeatTimer false) ws st
    end.
Proof.
  intros Hs Hb. simpl. rewrite Hs, Hb.
  unfold heartbeat_tick, is_open, session_of. rewrite Hs.
  by destruct (readyState s).
Qed.

(** X8.  The heartbeat interval of a socket, when it fires: a session heard
    from within twice [heartbeatInterval], that bound included, is pinged and
    nothing else happens; a socket that is no longer open has its interval
    cleared and nothing else happens.  An interval that has been cleared,
    that way or after a timeout, never fires again: the handler does not
    restart it. *)
Theorem heartbeat_tick_in_time ws s st :
  sockets st !! ws = Some s → heartbeatTimer s = true →
  let st' := step (HeartbeatTick ws) st in
  (∀ c, readyState s = OPEN → session s = Some c →
        (now st - lastHeartbeat c ≤ heartbeatInterval (config st) * 2)%Z →
        st' = emit (Ping ws) st)
  ∧ (readyState s ≠ OPEN →
     st' = alter_socket (set_heartbeatTimer false) ws st)
  ∧ (readyState s ≠ OPEN
     ∨ (∃ c, session s = Some c
             ∧ (heartbeatInterval (config st) * 2
                < now st - lastHeartbeat c)%Z) →
     ∀ events,
       step (HeartbeatTick ws) (run events st') = run events st').
Proof.
  intros Hs Hb st'. subst st'.
  rewrite (step_HeartbeatTick_on ws s st Hs Hb).
  split; [|split].
  - intros c -> -> Hle. apply Z.ltb_ge in Hle. by rewrite Hle.
  - intros R. by destruct (readyState s).
  - intros Hcase events.
    match goal with
    | |- step _ (run events ?x) = _ =>
        assert (∃ s1, sockets x !! ws = Some s1 ∧ heartbeatTimer s1 = false)
          as (s1 & Hs1 & Hb1)
    end.
    { destruct Hcase as [R|(c & -> & Hlt)].
      - destruct (readyState s); try done.
        all: simpl; rewrite lookup_alter_eq, Hs; by eexists.
      - apply Z.ltb_lt in Hlt. rewrite Hlt.
        destruct (readyState s).
        all: simpl; rewrite ?sockets_ws_close, !lookup_alter_eq, Hs.
        all: by eexists. }
    destruct (heartbeatTimer_stays_off events _ ws s1 Hs1 Hb1)
      as (s2 & Hs2 & Hb2).
    by apply (step_HeartbeatTick_off ws s2).
Qed.

Lemma heartbeat_tick_in_time_witness :
  step (HeartbeatTick 1) (step (Clock 60000) demo_joined)
  = emit (Ping 1) (step (Clock 60000) demo_joined).
Proof.
  destruct (heartbeat_tick_in_time 1 demo_socket
              (step (Clock 60000) demo_joined)) as [H _].
  - by vm_compute.
  - done.
  - apply (H demo_client); [done | done | by vm_compute].
Defined.

(** ** Frames are written to open sockets only *)

Lemma is_open_readyState w st st' :
  readyState <$> sockets st' !! w = readyState <$> sockets st !! w →
  is_open w st' = is_open w st.
Proof.
  unfold is_open. destruct (sockets st' !! w), (sockets st !! w); simpl;
    try done; by intros [= ->].
Qed.

Lemma writes_open_refl st : writes_open st st.
Proof.
  split; [done|]. exists []. split; [by rewrite app_nil_r|].
  by intros w ?%not_elem_of_nil.
Qed.

Lemma writes_open_trans st1 st2 st3 :
  writes_open st1 st2 → writes_open st2 st3 → writes_open st1 st3.
Proof.
  intros [R1 (l1 & T1 & W1)] [R2 (l2 & T2 & W2)]. split.
  - intros w. by rewrite R2, R1.
  - exists (l1 ++ l2). split; [by rewrite T2, T1, app_assoc|].
    intros w. rewrite omap_app, elem_of_app. intros [H|H]; [by apply W1|].
    rewrite <- (is_open_readyState w st1 st2) by done. by apply W2.
Qed.

(** A step that leaves the sockets and the trace alone, or adds an entry
    that is no frame. *)
Lemma writes_open_quiet st st' :
  sockets st' = sockets st → trace st' = trace st → writes_open st st'.
Proof.
  intros Hs Ht. split; [by rewrite Hs|].
  exists []. split; [by rewrite app_nil_r|]. by intros w ?%not_elem_of_nil.
Qed.

Lemma writes_open_emit e st :
  written e = None → writes_open st (emit e st).
Proof.
  intros He. split; [done|]. exists [e]. split; [done|].
  simpl. rewrite He. by intros w ?%not_elem_of_nil.
Qed.

Lemma writes_open_ws_send ws m st :
  is_open ws st = true → writes_open st (fst (ws_send ws m st)).
Proof.
  intros Ho. unfold ws_send. destruct (sockets st !! ws) as [s|];
    [|apply writes_open_refl].
  destruct (sendThrows s); simpl.
  all: split; [done|]; eexists [_]; split; [done|]; simpl.
  all: by intros w ->%list_elem_of_singleton.
Qed.

Lemma wo_sendToClient st0 ws m st :
  writes_open st0 st → writes_open st0 (_sendToClient ws m st).
Proof.
  intros H. eapply writes_open_trans; [done|]. unfold _sendToClient.
  destruct (is_open ws st) eqn:E; [|apply writes_open_refl].
  by apply writes_open_ws_send.
Qed.

Lemma wo_sendToRenderer st0 c m st :
  writes_open st0 st → writes_open st0 (_sendToRenderer c m st).
Proof.
  intros H. eapply writes_open_trans; [done|]. unfold _sendToRenderer.
  case_match; [by apply writes_open_emit | apply writes_open_refl].
Qed.

Lemma wo_db_request st0 call k st :
  writes_open st0 st → writes_open st0 (db_request call k st).
Proof.
  intros H. eapply writes_open_trans; [done|].
  split; [done|]. eexists [_]. split; [done|].
  by intros w ?%not_elem_of_nil.
Qed.

Lemma wo_set_rooms st0 r st :
  writes_open st0 st → writes_open st0 (set_rooms r st).
Proof.
  intros H. eapply writes_open_trans; [done|]. by apply writes_open_quiet.
Qed.

Lemma wo_alter_session st0 f ws st :
  writes_open st0 st → writes_open st0 (alter_session f ws st).
Proof.
  intros H. eapply writes_open_trans; [done|].
  split; [|exists []; split; [by rewrite app_nil_r|];
           by intros w ?%not_elem_of_nil].
  intros w. simpl. destruct (decide (ws = w)) as [->|Hne].
  - rewrite lookup_alter_eq. by destruct (sockets st !! w).
  - by rewrite lookup_alter_ne.
Qed.

Lemma wo_schedule_auth_close st0 ws st :
  writes_open st0 st → writes_open st0 (schedule_auth_close ws st).
Proof.
  intros H. eapply writes_open_trans; [done|].
  split; [|exists []; split; [by rewrite app_nil_r|];
           by intros w ?%not_elem_of_nil].
  intros w. simpl. destruct (decide (ws = w)) as [->|Hne].
  - rewrite lookup_alter_eq. by destruct (sockets st !! w).
  - by rewrite lookup_alter_ne.
Qed.

Lemma wo_open_feed st0 r t f st :
  writes_open st0 st → writes_open st0 (open_feed r t f st).
Proof.
  intros H. eapply writes_open_trans; [done|].
  split; [done|]. eexists [_]. split; [done|].
  by intros w ?%not_elem_of_nil.
Qed.

Lemma wo_cancel_feed st0 r n st :
  writes_open st0 st → writes_open st0 (cancel_feed r n st).
Proof.
  intros H. eapply writes_open_trans; [done|].
  split; [done|]. eexists [_]. split; [done|].
  by intros w ?%not_elem_of_nil.
Qed.

Lemma wo_deliver st0 m acc x :
  writes_open st0 (fst acc) → writes_open st0 (fst (deliver m acc x)).
Proof.
  intros H. unfold deliver. repeat case_match; simpl; try done.
  all: eapply writes_open_trans; [done|]; by apply writes_open_ws_send.
Qed.

Lemma wo_foldl_deliver st0 m l acc :
  writes_open st0 (fst acc) →
  writes_open st0 (fst (foldl (deliver m) acc l)).
Proof.
  revert acc. induction l as [|x l IH]; intros acc H; [done|].
  simpl. by apply IH, wo_deliver.
Qed.

Lemma wo_broadcastToRoom st0 k m st :
  writes_open st0 st → writes_open st0 (fst (broadcastToRoom k m st)).
Proof.
  intros H. unfold broadcastToRoom. repeat case_match; simpl; try done.
  by apply (wo_foldl_deliver st0 m _ (st, 0)).
Qed.

Lemma wo_checkAuthAndSend st0 ws c st :
  writes_open st0 st → writes_open st0 (fst (_checkAuthAndSend ws c st)).
Proof.
  intros H. unfold _checkAuthAndSend.
  case_match; simpl; [by apply wo_sendToClient | done].
Qed.

Lemma wo_rooms_leave st0 k x f st :
  (∀ s, writes_open st0 s → writes_open st0 (f s)) →
  writes_open st0 st → writes_open st0 (rooms_leave k x f st).
Proof.
  intros Hf H. unfold rooms_leave.
  repeat case_match; repeat first [apply wo_set_rooms | apply Hf]; done.
Qed.

Ltac writes_open :=
  repeat first
    [ assumption
    | apply writes_open_refl
    | apply wo_sendToClient
    | apply wo_sendToRenderer
    | apply wo_db_request
    | apply wo_set_rooms
    | apply wo_alter_session
    | apply wo_schedule_auth_close
    | apply wo_open_feed
    | apply wo_cancel_feed
    | apply wo_broadcastToRoom
    | apply wo_checkAuthAndSend
    | apply wo_rooms_leave; [intros ? ?|]
    | case_match ].

Lemma wo_resume st0 k o st :
  writes_open st0 st → writes_open st0 (resume k o st).
Proof. intros H. unfold resume, database_error. writes_open. Qed.

Lemma wo_dispatch st0 ws c m st :
  writes_open st0 st → writes_open st0 (outcome_state (dispatch ws c m st)).
Proof.
  intros H.
  destruct (dispatch_cases ws c m st) as [[-> ->]|[[type T]|[T ->]]].
  - done.
  - rewrite (dispatch_string ws c m st type T). cbn [outcome_state].
    unfold _handleAuthentication, _handleSensorData, _saveToDatabase,
      _handleHeartbeat, _handleDatabaseCreate, _handleDatabaseRead,
      _handleDatabaseUpdate, _handleDatabaseDelete, _handleDatabaseSubscribe,
      _handleDatabaseUnsubscribe, _handleJoinRoom, _handleLeaveRoom.
    cbv zeta. writes_open.
  - cbn [outcome_state]. writes_open.
Qed.

Lemma wo_handleClientMessage st0 ws raw st :
  writes_open st0 st → writes_open st0 (_handleClientMessage ws raw st).
Proof.
  intros H. unfold _handleClientMessage.
  destruct raw as [m|]; [|by writes_open]. cbv zeta.
  destruct (session_of ws _) as [c|]; [|by writes_open].
  pose proof (wo_dispatch st0 ws c m
                (alter_session (count_message (now st)) ws st)
                ltac:(by writes_open)) as Hd.
  destruct (dispatch _ _ _ _); simpl in Hd; by writes_open.
Qed.

Lemma wo_alter_socket st0 f ws st :
  (∀ s, readyState (f s) = readyState s) →
  writes_open st0 st → writes_open st0 (alter_socket f ws st).
Proof.
  intros Hf H. eapply writes_open_trans; [done|].
  split; [|exists []; split; [by rewrite app_nil_r|];
           by intros w ?%not_elem_of_nil].
  intros w. simpl. destruct (decide (ws = w)) as [->|Hne].
  - rewrite lookup_alter_eq. destruct (sockets st !! w); simpl; [|done].
    by rewrite Hf.
  - by rewrite lookup_alter_ne.
Qed.

Lemma writes_open_after st st' :
  writes_open st st' →
  ∃ l, trace st' = trace st ++ l
       ∧ ∀ w, w ∈ omap written l → is_open w st' = true.
Proof.
  intros [R (l & T & W)]. exists l. split; [done|]. intros w Hw.
  rewrite (is_open_readyState w st st') by done. by apply W.
Qed.

Lemma no_frame_after st st' l :
  trace st' = trace st ++ l → omap written l = [] →
  ∃ l, trace st' = trace st ++ l
       ∧ ∀ w, w ∈ omap written l → is_open w st' = true.
Proof.
  intros T W. exists l. split; [done|]. rewrite W.
  by intros w ?%not_elem_of_nil.
Qed.

Lemma trace_ws_close ws code reason st :
  trace (ws_close ws code reason st) = trace st
  ∨ trace (ws_close ws code reason st) = trace st ++ [Close ws code reason].
Proof. unfold ws_close. repeat case_match; auto. Qed.

(** X9.  Whatever the event, the frames the handler writes while it handles
    it go to sockets that are open, and are still open when the callback
    returns: it never writes to a socket that is closing or closed, be it
    the answer to a sender, a broadcast to a room, or the result of a
    storage call that settles after its requester has gone. *)
Theorem frames_written_to_open_sockets e st :
  ∃ l, trace (step e st) = trace st ++ l
       ∧ ∀ w, w ∈ omap written l → is_open w (step e st) = true.
Proof.
  destruct e; simpl.
  - apply writes_open_after. unfold start.
    case_match; [apply writes_open_refl|].
    apply wo_sendToRenderer. by apply writes_open_quiet.
  - destruct (isRunning st && _);
      [|apply writes_open_after, writes_open_refl].
    set (st0 := set_sockets (<[ws:=fresh_socket]> (sockets st)) st).
    change (trace st) with (trace st0).
    unfold _handleNewConnection, _startClientHeartbeat.
    destruct (_ <=? _)%Z.
    + destruct (trace_ws_close ws 1013 "Server overloaded" st0) as [T|T].
      * apply (no_frame_after _ _ []); [by rewrite app_nil_r | done].
      * by apply (no_frame_after _ _ [Close ws 1013 "Server overloaded"]).
    + apply writes_open_after. cbv zeta.
      apply wo_sendToRenderer, wo_sendToClient.
      case_match; repeat (apply wo_alter_socket; [done|]).
      all: by apply writes_open_quiet.
  - destruct (listening ws st);
      [|apply writes_open_after, writes_open_refl].
    apply writes_open_after, wo_handleClientMessage, writes_open_refl.
  - destruct (sockets st !! ws) as [s|];
      [|apply writes_open_after, writes_open_refl].
    destruct (readyState s);
      try apply writes_open_after, writes_open_refl.
    all: destruct (session s);
      [|by apply (no_frame_after _ _ []); [rewrite app_nil_r|]].
    all: unfold _handleClientDisconnection, _sendToRenderer; cbv zeta.
    all: case_match;
      [ by eapply (no_frame_after _ _ [_])
      | by apply (no_frame_after _ _ []); [rewrite app_nil_r|] ].
  - destruct (listening ws st);
      apply writes_open_after; [|apply writes_open_refl].
    apply wo_alter_session, writes_open_refl.
  - destruct (sockets st !! ws) as [s|];
      [|apply writes_open_after, writes_open_refl].
    destruct (heartbeatTimer s);
      [|apply writes_open_after, writes_open_refl].
    unfold heartbeat_tick. repeat case_match.
    + destruct (trace_ws_close ws 1000 "Heartbeat timeout" st) as [T|T].
      * apply (no_frame_after _ _ []); [by rewrite app_nil_r | done].
      * by apply (no_frame_after _ _ [Close ws 1000 "Heartbeat timeout"]).
    + by apply (no_frame_after _ _ [Ping ws]).
    + apply writes_open_after, writes_open_refl.
    + by apply (no_frame_after _ _ []); [rewrite app_nil_r|].
  - destruct (sockets st !! ws) as [s|];
      [|apply writes_open_after, writes_open_refl].
    destruct (authTimers s);
      [apply writes_open_after, writes_open_refl|].
    unfold auth_timeout. case_match.
    + match goal with
      | |- context [ws_close ws ?c ?r ?x] =>
          destruct (trace_ws_close ws c r x) as [T|T]
      end.
      * apply (no_frame_after _ _ []); [by rewrite app_nil_r | done].
      * by eapply (no_frame_after _ _ [_]).
    + by apply (no_frame_after _ _ []); [rewrite app_nil_r|].
  - destruct (pending st !! _);
      [|apply writes_open_after, writes_open_refl].
    apply writes_open_after, wo_resume. by apply writes_open_quiet.
  - destruct (feeds st !! feed) as [[roomId table]|];
      [|apply writes_open_after, writes_open_refl].
    apply writes_open_after, wo_broadcastToRoom, writes_open_refl.
  - apply (writes_open_after st (set_now t st)). by apply writes_open_quiet.
  - apply (writes_open_after st (alter_socket (set_sendThrows throws) ws st)).
    apply wo_alter_socket; [done | apply writes_open_refl].
Qed.

(** ** Stopping the server *)

Lemma shut_frame st ws :
  rooms (shut st ws) = rooms st
  ∧ dbSubscriptions (shut st ws) = dbSubscriptions st
  ∧ feeds (shut st ws) = feeds st
  ∧ pending (shut st ws) = pending st
  ∧ mainWindow (shut st ws) = mainWindow st
  ∧ now (shut st ws) = now st
  ∧ config (shut st ws) = config st.
Proof. unfold shut, ws_close. by repeat case_match. Qed.

Lemma foldl_shut_frame l st :
  rooms (foldl shut st l) = rooms st
  ∧ dbSubscriptions (foldl shut st l) = dbSubscriptions st
  ∧ feeds (foldl shut st l) = feeds st
  ∧ pending (foldl shut st l) = pending st
  ∧ mainWindow (foldl shut st l) = mainWindow st
  ∧ now (foldl shut st l) = now st
  ∧ config (foldl shut st l) = config st.
Proof.
  revert st. induction l as [|w l IH]; intros st; [done|]. simpl.
  destruct (IH (shut st w)) as (-> & -> & -> & -> & -> & -> & ->).
  apply shut_frame.
Qed.

Lemma shut_socket_other ws st w :
  w ≠ ws → sockets (shut st ws) !! w = sockets st !! w.
Proof.
  intros Hne. unfold shut. case_match; [|done].
  by rewrite sockets_ws_close, lookup_alter_ne.
Qed.

Lemma shut_trace st ws :
  trace (shut st ws)
  = trace st ++ if is_open ws st
                then [Close ws 1000 "Server shutdown"] else [].
Proof.
  unfold shut, is_open, ws_close.
  destruct (sockets st !! ws) as [s|]; [|by rewrite app_nil_r].
  destruct (readyState s); by rewrite ?app_nil_r.
Qed.

Lemma shut_socket_same ws st :
  sockets (shut st ws) !! ws = shut_socket [ws] ws <$> sockets st !! ws.
Proof.
  unfold shut, shut_socket, is_open.
  destruct (sockets st !! ws) as [s|] eqn:E; [|by rewrite E].
  rewrite bool_decide_eq_true_2 by (by left).
  destruct (readyState s) eqn:R; rewrite ?E; simpl; rewrite ?R; try done.
  rewrite sockets_ws_close, lookup_alter_eq, E. simpl.
  unfold closing. by rewrite R.
Qed.

Lemma is_open_shut_other ws st w :
  w ≠ ws → is_open w (shut st ws) = is_open w st.
Proof.
  intros Hne. unfold is_open. by rewrite shut_socket_other.
Qed.

Lemma filter_ext_elem {A} (P Q : A → Prop) `{!∀ x, Decision (P x)}
    `{!∀ x, Decision (Q x)} (l : list A) :
  (∀ x, x ∈ l → P x ↔ Q x) → filter P l = filter Q l.
Proof.
  induction l as [|a l IH]; intros Hext; [done|].
  rewrite !filter_cons, IH by (intros x Hx; apply Hext; by right).
  destruct (decide (P a)) as [HP|HP], (decide (Q a)) as [HQ|HQ]; try done.
  - destruct HQ. by apply (Hext a); [left|].
  - destruct HP. by apply (Hext a); [left|].
Qed.

Lemma foldl_shut l st :
  NoDup l →
  trace (foldl shut st l)
  = trace st ++ ((fun w => Close w 1000 "Server shutdown")
                   <$> filter (fun w => is_open w st = true) l)
  ∧ ∀ w, sockets (foldl shut st l) !! w
         = shut_socket l w <$> sockets st !! w.
Proof.
  intros Hl. revert st. induction Hl as [|x l Hx Hl IH]; intros st.
  - simpl. rewrite app_nil_r. split; [done|]. intros w.
    unfold shut_socket. destruct (sockets st !! w) as [s|]; [|done].
    simpl. by destruct (readyState s).
  - simpl. destruct (IH (shut st x)) as [T S]. split.
    + rewrite T, shut_trace, filter_cons, <- app_assoc. f_equal.
      assert (filter (fun w => is_open w (shut st x) = true) l
              = filter (fun w => is_open w st = true) l) as ->.
      { apply filter_ext_elem. intros w Hw.
        rewrite is_open_shut_other; [done|]. by intros ->. }
      destruct (is_open x st) eqn:E.
      * by rewrite decide_True.
      * by rewrite decide_False by congruence.
    + intros w. rewrite S. destruct (decide (w = x)) as [->|Hne].
      * rewrite shut_socket_same.
        destruct (sockets st !! x) as [s|]; [|done]. simpl. f_equal.
        unfold shut_socket.
        destruct (readyState s) eqn:R; simpl; rewrite ?R; try done.
        rewrite (bool_decide_eq_true_2 (x ∈ [x])),
          (bool_decide_eq_true_2 (x ∈ x :: l)) by (by left).
        done.
      * rewrite shut_socket_other by done.
        destruct (sockets st !! w) as [s|]; [|done]. simpl. f_equal.
        unfold shut_socket. destruct (readyState s); try done.
        destruct (decide (w ∈ l)).
        -- rewrite (bool_decide_eq_true_2 (w ∈ l)),
             (bool_decide_eq_true_2 (w ∈ x :: l)); [done | by right | done].
        -- rewrite (bool_decide_eq_false_2 (w ∈ l)),
             (bool_decide_eq_false_2 (w ∈ x :: l)); [done | | done].
           by intros [?|?]%elem_of_cons.
Qed.

Lemma stop_running st :
  isRunning st = true →
  stop st
  = _sendToRenderer "websocket-server-status"
      (notice st [("status", Own (JStr "stopped"))])
      (set_connectionCount 0
         (set_isRunning false
            (set_clients [] (foldl shut st (clients st))))).
Proof.
  intros Hrun. unfold stop. rewrite Hrun. simpl.
  destruct (foldl_shut_frame (clients st) st) as (_ & _ & _ & _ & _ & Hn & _).
  unfold notice, stamp. simpl. by rewrite Hn.
Qed.

Lemma sockets_stop st :
  NoDup (clients st) →
  ∀ w, sockets (stop st) !! w
       = (if isRunning st then shut_socket (clients st) w else fun s => s)
           <$> sockets st !! w.
Proof.
  intros Hd w. unfold stop. destruct (isRunning st); simpl.
  - autorewrite with frame. simpl. by apply foldl_shut.
  - by destruct (sockets st !! w).
Qed.

(** X10.  [stop()] on a running server: every registered socket that is open
    is asked to close with status 1000, once and in the order of the
    registry, and no other socket is touched; the registry is emptied, the
    count reset to 0, the server marked stopped and the hosting window told.
    The sessions the listeners of the sockets hold, their heartbeat
    intervals, the rooms and the change feeds are left as they are.  A
    second [stop()] does nothing. *)
Theorem stop_shuts_down st :
  reachable st → isRunning st = true →
  let st' := stop st in
  isRunning st' = false ∧ clients st' = [] ∧ connectionCount st' = 0%Z
  ∧ trace st'
    = trace st
      ++ ((fun w => Close w 1000 "Server shutdown") <$> open_clients st)
      ++ (if mainWindow st
          then [Renderer "websocket-server-status"
                  (notice st [("status", Own (JStr "stopped"))])]
          else [])
  ∧ (∀ w, sockets st' !! w = shut_socket (clients st) w <$> sockets st !! w)
  ∧ (∀ w, w ∈ clients st → is_open w st = true →
          (readyState <$> sockets st' !! w) = Some CLOSING)
  ∧ (∀ w, (session <$> sockets st' !! w) = (session <$> sockets st !! w)
          ∧ (heartbeatTimer <$> sockets st' !! w)
            = (heartbeatTimer <$> sockets st !! w))
  ∧ rooms st' = rooms st
  ∧ dbSubscriptions st' = dbSubscriptions st
  ∧ feeds st' = feeds st
  ∧ stop st' = st'.
Proof.
  intros Hr Hrun st'.
  destruct (reachable_count_matches st Hr) as [_ Hd].
  assert (∀ w, sockets st' !! w
               = shut_socket (clients st) w <$> sockets st !! w) as Hsock.
  { intros w. subst st'. by rewrite sockets_stop, Hrun. }
  destruct (foldl_shut (clients st) st Hd) as [T _].
  destruct (foldl_shut_frame (clients st) st)
    as (Hrooms & Hsubs & Hfeeds & _ & Hwin & _ & _).
  assert (isRunning st' = false) as Hoff.
  { subst st'. rewrite stop_running by done.
    unfold _sendToRenderer. by case_match. }
  split; [done|]. subst st'. rewrite stop_running in * by done.
  unfold _sendToRenderer in *. simpl mainWindow in *. rewrite Hwin in *.
  repeat split.
  - by destruct (mainWindow st).
  - by destruct (mainWindow st).
  - destruct (mainWindow st); simpl; rewrite T; unfold open_clients.
    + by rewrite <- app_assoc.
    + by rewrite app_nil_r.
  - done.
  - intros w Hw Ho. rewrite Hsock. unfold is_open in Ho.
    destruct (sockets st !! w) as [s|]; [|done]. simpl. unfold shut_socket.
    destruct (readyState s); try done.
    by rewrite bool_decide_eq_true_2.
  - rewrite Hsock. destruct (sockets st !! w) as [s|]; [|done]. simpl.
    unfold shut_socket. by repeat case_match.
  - rewrite Hsock. destruct (sockets st !! w) as [s|]; [|done]. simpl.
    unfold shut_socket. by repeat case_match.
  - by destruct (mainWindow st).
  - by destruct (mainWindow st).
  - by destruct (mainWindow st).
  - unfold stop at 1. by rewrite Hoff.
Qed.

Lemma stop_shuts_down_witness :
  isRunning (stop demo_pair) = false
  ∧ clients (stop demo_pair) = []
  ∧ connectionCount (stop demo_pair) = 0%Z.
Proof.
  destruct (stop_shuts_down demo_pair) as (H1 & H2 & H3 & _).
  - repeat constructor.
  - by vm_compute.
  - done.
Defined.

(** X11.  [stop()] resets the count but leaves the ['close'] listeners of the
    sockets attached: when the ['close'] event of a socket that was
    registered arrives after [stop()], its teardown runs as usual and the
    count goes from 0 to -1. *)
Theorem close_after_stop_counts_below_zero ws s c code reason st :
  reachable st → isRunning st = true →
  sockets st !! ws = Some s → session s = Some c → readyState s ≠ CLOSED →
  let st' := step (Closed ws code reason) (stop st) in
  connectionCount st' = (-1)%Z ∧ clients st' = [] ∧ isRunning st' = false.
Proof.
  intros Hr Hrun Hs Hc R st'.
  destruct (stop_shuts_down st Hr Hrun)
    as (Hoff & Hcl & Hn & _ & Hsock & _).
  assert (∃ s', sockets (stop st) !! ws = Some s' ∧ session s' = Some c
                ∧ readyState s' ≠ CLOSED) as (s' & Hs' & Hc' & R').
  { rewrite Hsock, Hs. simpl. eexists. split; [done|].
    unfold shut_socket.
    repeat case_match; simpl; split; try done; congruence. }
  subst st'. rewrite (step_Closed_listening ws s' c) by done.
  destruct (registry_handleClientDisconnection ws c code reason
              (alter_socket (set_readyState CLOSED) ws (stop st)))
    as [-> ->].
  simpl. rewrite Hn, Hcl. repeat split; try done.
  unfold _handleClientDisconnection, _sendToRenderer.
  by case_match.
Qed.

Lemma close_after_stop_counts_below_zero_witness :
  connectionCount (step (Closed 1 1000 "Server shutdown") (stop demo_joined))
  = (-1)%Z.
Proof.
  destruct (close_after_stop_counts_below_zero 1 demo_socket demo_client
              1000 "Server shutdown" demo_joined) as (H & _).
  - repeat constructor.
  - by vm_compute.
  - by vm_compute.
  - done.
  - done.
  - exact H.
Defined.

(** ** Storage requests over the socket *)

Lemma trace_answer ws m st :
  trace (_sendToClient ws m st) = trace st ++ answer st m ws.
Proof.
  unfold _sendToClient, answer, attempt, send_ok, ws_send, is_open.
  destruct (sockets st !! ws) as [s|]; [|by rewrite app_nil_r].
  destruct (readyState s); rewrite ?app_nil_r; try done.
  by destruct (sendThrows s).
Qed.

Lemma trace_fan_out k m st :
  trace (fst (broadcastToRoom k m st)) = trace st ++ fan_out st k m.
Proof.
  unfold broadcastToRoom, fan_out, members_of.
  destruct (enableRoomBroadcast (config st)); simpl;
    [|by rewrite app_nil_r].
  destruct (rooms_has k (rooms st)) eqn:E; simpl.
  - apply rooms_has_get in E as [r E]. rewrite E.
    by rewrite foldl_deliver.
  - destruct (rooms_get k (rooms st)) eqn:G; [|by rewrite app_nil_r].
    assert (rooms_has k (rooms st) = true)
      by (apply rooms_has_get; by eexists).
    congruence.
Qed.

(** Who is answered and who is reached depends on the sockets, the registry,
    the rooms and the switch of the room broadcast only. *)
Lemma answer_ext st st' m ws :
  sockets st' = sockets st → answer st' m ws = answer st m ws.
Proof.
  intros H. unfold answer, attempt, send_ok, is_open. by rewrite H.
Qed.

Lemma fan_out_ext st st' k m :
  sockets st' = sockets st → clients st' = clients st →
  rooms st' = rooms st → config st' = config st →
  fan_out st' k m = fan_out st k m.
Proof.
  intros Hs Hc Hr Hg.
  unfold fan_out, members_of, attempt, send_ok. rewrite Hs, Hr, Hg.
  assert (∀ x, recipient st' x = recipient st x) as Hrec.
  { intros x. unfold recipient, find_socket, is_open, session_of.
    by rewrite Hs, Hc. }
  destruct (enableRoomBroadcast (config st)); [|done]. f_equal.
  apply list_omap_ext.
  generalize (match rooms_get k (rooms st) with
              | Some room => members room
              | None => []
              end).
  intros l. induction l; constructor; auto.
Qed.

Lemma authorized_check ws c st :
  authorized c st = true → _checkAuthAndSend ws c st = (st, true).
Proof.
  unfold authorized, _checkAuthAndSend.
  destruct (enableAuthentication (config st)); simpl; [|done].
  by intros ->.
Qed.

(** X12.  A storage request from a session that passes the authentication
    check and that lacks its table (or, for a create or an update, its
    data) is refused: the sender is answered with the failure of that
    request and nothing else happens, no storage call is issued and no room
    is written.  The members are read from [message.data || message], so a
    create or an update that names its table beside a [data] record, and not
    inside it, is refused as well. *)
Theorem storage_request_refused ws c m st type :
  authorized c st = true →
  js_get m "type" = Own (JStr type) → storage_request type →
  incomplete type m →
  let st' := outcome_state (dispatch ws c m st) in
  st' = _sendToClient ws
          (db_failure st (type +:+ "_response") (missing_text type)) st
  ∧ trace st'
    = trace st
      ++ answer st
           (db_failure st (type +:+ "_response") (missing_text type)) ws
  ∧ pending st' = pending st
  ∧ rooms st' = rooms st
  ∧ dbSubscriptions st' = dbSubscriptions st.
Proof.
  intros Ha Ht Hty Hinc st'.
  assert (st' = _sendToClient ws
                  (db_failure st (type +:+ "_response") (missing_text type))
                  st) as ->.
  { subst st'. rewrite (dispatch_string ws c m st type Ht).
    unfold storage_request in Hty. unfold incomplete in Hinc.
    repeat (apply elem_of_cons in Hty as [->|Hty]);
      [..|by apply not_elem_of_nil in Hty]; simpl.
    all: unfold _handleDatabaseCreate, _handleDatabaseRead,
           _handleDatabaseUpdate, _handleDatabaseDelete,
           _handleDatabaseSubscribe.
    all: rewrite (authorized_check ws c st Ha); simpl.
    all: destruct Hinc as [->|[Hd Hdata]]; simpl; try done.
    all: by rewrite Hdata, orb_true_r. }
  split; [done|]. split; [apply trace_answer|].
  split; [apply pending_sendToClient|].
  split; [apply rooms_sendToClient | apply dbSubscriptions_sendToClient].
Qed.

Lemma storage_request_refused_witness :
  let m := JObj [("type", JStr "db_create"); ("table", JStr "sensors");
                 ("data", JObj [("temperature", JNum 21)])] in
  let st := demo_one demo_config in
  trace (outcome_state (dispatch 1 demo_client m st))
  = trace st
    ++ answer st
         (db_failure st "db_create_response" "Missing table or data") 1.
Proof.
  intros m st.
  destruct (storage_request_refused 1 demo_client m st "db_create")
    as (_ & H & _).
  - by vm_compute.
  - done.
  - unfold storage_request. by left.
  - left. by vm_compute.
  - exact H.
Defined.

Lemma step_DbSettled n k o st :
  pending st !! n = Some k →
  step (DbSettled n o) st
  = resume k o (set_pending (delete n (pending st)) (nextRequest st) st).
Proof. intros H. simpl. by rewrite H. Qed.

Lemma resume_AfterCreate ws table o st c :
  session_of ws st = Some c →
  resume (AfterCreate ws table) o st
  = match o with
    | Resolved result =>
        let st1 := _sendToClient ws
                     (db_success st "db_create_response" result) st in
        if enableDatabaseSync (config st1)
        then fst (broadcastToRoom (JStr (db_room table))
                    (db_change st1 "create" table result (id c)) st1)
        else st1
    | Rejected error =>
        _sendToClient ws (db_failure st "db_create_response" error) st
    end.
Proof. intros H. unfold resume. by rewrite H. Qed.

Lemma now_sendToClient ws m st : now (_sendToClient ws m st) = now st.
Proof. unfold _sendToClient, ws_send. by repeat case_match. Qed.

Lemma pending_foldl_deliver m l acc :
  pending (fst (foldl (deliver m) acc l)) = pending (fst acc).
Proof.
  revert acc. induction l as [|x l IH]; intros acc; [done|]. simpl.
  rewrite IH. unfold deliver, ws_send. by repeat case_match.
Qed.

Lemma pending_broadcastToRoom k m st :
  pending (fst (broadcastToRoom k m st)) = pending st.
Proof.
  unfold broadcastToRoom. repeat case_match; try done.
  apply (pending_foldl_deliver m _ (st, 0)).
Qed.





(** ** The record stored for a reading *)

Lemma own_property_assign k v fields name :
  own_property (assign k v fields) name
  = if String.eqb k name then Some v else own_property fields name.
Proof.
  induction fields as [|[k0 v0] fields IH]; simpl; [done|].
  destruct (String.eqb k0 k) eqn:E; simpl.
  - apply String.eqb_eq in E as ->. by destruct (String.eqb k name).
  - rewrite IH. destruct (String.eqb k name) eqn:E1; [|done].
    apply String.eqb_eq in E1 as ->. by rewrite E.
Qed.



(** ** Properties every member set keeps *)

Section RoomMembers.

Variable P : list string → Prop.
Hypothesis P_nil : P [].
Hypothesis P_add : ∀ x l, P l → P (set_add x l).
Hypothesis P_delete : ∀ x l, P l → P (set_delete x l).

Lemma rooms_all_join k fresh x rs :
  members fresh = [] →
  rooms_all P rs → rooms_all P (rooms_join k fresh x rs).
Proof.
  unfold rooms_all, rooms_join, rooms_alter. intros Hf H.
  destruct (rooms_has k rs).
  - apply Forall_forall. intros e He.
    apply list_elem_of_In, in_map_iff in He as (e0 & <- & He0).
    rewrite Forall_forall in H. apply list_elem_of_In, H in He0.
    destruct (is_key k e0); simpl; [by apply P_add | done].
  - apply Forall_app. split; [done|].
    apply Forall_singleton. simpl. rewrite Hf. by apply P_add.
Qed.

Lemma rooms_all_leave k x f st :
  (∀ s, rooms (f s) = rooms s) →
  rooms_all P (rooms st) → rooms_all P (rooms (rooms_leave k x f st)).
Proof.
  intros Hf H. rewrite rooms_rooms_leave by done.
  destruct (rooms_get k (rooms st)) as [room|] eqn:G; [|done].
  assert (P (set_delete x (members room))) as Hrest.
  { apply P_delete. apply rooms_get_elem in G as [k' Hin].
    unfold rooms_all in H. rewrite Forall_forall in H.
    by apply list_elem_of_In, H in Hin. }
  assert (rooms_all P
            (rooms_alter (set_members (set_delete x (members room))) k
               (rooms st))) as Halt.
  { unfold rooms_all, rooms_alter. apply Forall_forall. intros e He.
    apply list_elem_of_In, in_map_iff in He as (e0 & <- & He0).
    unfold rooms_all in H. rewrite Forall_forall in H.
    apply list_elem_of_In, H in He0.
    by destruct (is_key k e0). }
  cbv zeta. destruct (Nat.eqb _ 0); [|done].
  unfold rooms_all, rooms_delete in *. apply Forall_forall. intros e He.
  apply list_elem_of_In, filter_In in He as [He _].
  rewrite Forall_forall in Halt. by apply Halt, list_elem_of_In.
Qed.

Lemma rooms_all_dispatch ws c m st :
  rooms_all P (rooms st) →
  rooms_all P (rooms (outcome_state (dispatch ws c m st))).
Proof.
  intros H.
  destruct (dispatch_cases ws c m st) as [[-> ->]|[[type T]|[T ->]]];
    [done | | cbn [outcome_state]; by rewrite rooms_sendToClient].
  rewrite (dispatch_string ws c m st type T). cbn [outcome_state].
  repeat case_match;
    rewrite ?rooms_handleAuthentication, ?rooms_handleSensorData,
      ?rooms_handleHeartbeat, ?rooms_handleDatabaseCreate,
      ?rooms_handleDatabaseRead, ?rooms_handleDatabaseUpdate,
      ?rooms_handleDatabaseDelete, ?rooms_sendToClient; try done.
  - unfold _handleDatabaseSubscribe, open_feed.
    repeat case_match; autorewrite with frame; simpl; try done.
    all: by apply rooms_all_join.
  - unfold _handleDatabaseUnsubscribe.
    case_match; [done|]. autorewrite with frame.
    apply rooms_all_leave; [|done]. intros s. apply rooms_cancel.
  - unfold _handleJoinRoom.
    case_match; [done|]. autorewrite with frame. simpl.
    by apply rooms_all_join.
  - unfold _handleLeaveRoom.
    case_match; [done|]. autorewrite with frame.
    by apply rooms_all_leave.
Qed.

Lemma rooms_all_step e st :
  rooms_all P (rooms st) → rooms_all P (rooms (step e st)).
Proof.
  intros H. destruct e as [| |ws raw| | | | | | | |];
    try (rewrite rooms_step_other; [done | by intros ? ?]).
  simpl. case_match; [|done]. unfold _handleClientMessage.
  destruct raw as [m|]; [|by rewrite rooms_sendToClient].
  destruct (session_of ws _) as [cd|]; [|done].
  pose proof (rooms_all_dispatch ws cd m
                (alter_session (count_message (now st)) ws st) H) as Hd.
  destruct (dispatch _ _ _ _); simpl in Hd; [done|].
  by rewrite rooms_sendToClient.
Qed.

Lemma reachable_rooms_all st : reachable st → rooms_all P (rooms st).
Proof.
  induction 1 as [|e st _ IH]; [by constructor | by apply rooms_all_step].
Qed.

End RoomMembers.

(** ** No member twice *)

Lemma NoDup_set_add x l : NoDup l → NoDup (set_add x l).
Proof.
  intros H. unfold set_add. case_bool_decide; [done|].
  apply NoDup_app. split; [done|]. split; [|apply NoDup_singleton].
  by intros y Hy ->%list_elem_of_singleton.
Qed.

Lemma NoDup_set_delete x l : NoDup l → NoDup (set_delete x l).
Proof. apply NoDup_filter. Qed.

Lemma set_add_again x l : set_add x (set_add x l) = set_add x l.
Proof.
  unfold set_add at 1. rewrite bool_decide_eq_true_2; [done|].
  unfold set_add. case_bool_decide; [done|].
  apply elem_of_app. right. by left.
Qed.

Lemma NoDup_omap_inj {A B} (f : A → option B) (l : list A) :
  (∀ x y z, f x = Some z → f y = Some z → x = y) →
  NoDup l → NoDup (omap f l).
Proof.
  intros Hinj. induction 1 as [|x l Hx Hl IH]; [constructor|].
  simpl. destruct (f x) as [z|] eqn:E; [|done].
  constructor; [|done]. intros (y & Hy & E')%list_elem_of_omap.
  by rewrite (Hinj x y z E E') in Hx.
Qed.

Lemma recipient_identity st x ws :
  recipient st x = Some ws → id <$> session_of ws st = Some x.
Proof.
  unfold recipient. destruct (find_socket x st) as [w|] eqn:F; [|done].
  destruct (is_open w st); [|done]. intros [= <-].
  unfold find_socket in F. apply find_some in F as [_ F].
  destruct (session_of w st) as [c|]; [|done].
  simpl. by apply String.eqb_eq in F as ->.
Qed.

(** X16.  In every state the handler can reach, no identity is twice in the
    member set of a room, and no two members of a room resolve to the same
    socket: a broadcast to the room writes its frame to a socket at most
    once.  Joining a room a second time changes nothing in its member set. *)
Theorem room_members_distinct st k r :
  reachable st → rooms_get k (rooms st) = Some r →
  NoDup (members r)
  ∧ NoDup (omap (recipient st) (members r))
  ∧ (∀ message,
       ∃ l, trace (fst (broadcastToRoom k message st)) = trace st ++ l
            ∧ NoDup (omap written l))
  ∧ (∀ ws c m room,
       names_room m room →
       members_of (JStr room)
         (_handleJoinRoom ws c m (_handleJoinRoom ws c m st))
       = members_of (JStr room) (_handleJoinRoom ws c m st)).
Proof.
  intros Hr G.
  assert (NoDup (members r)) as Hd.
  { pose proof (reachable_rooms_all NoDup (NoDup_nil_2) NoDup_set_add
                  NoDup_set_delete st Hr) as H.
    apply rooms_get_elem in G as [k' Hin].
    unfold rooms_all in H. rewrite Forall_forall in H.
    by apply list_elem_of_In, H in Hin. }
  assert (NoDup (omap (recipient st) (members r))) as Hrec.
  { apply NoDup_omap_inj; [|done]. intros x y ws Hx Hy.
    apply recipient_identity in Hx, Hy. congruence. }
  split; [done|]. split; [done|]. split.
  - intros message. rewrite trace_fan_out. eexists. split; [done|].
    unfold fan_out, members_of. rewrite G.
    destruct (enableRoomBroadcast (config st)); [|constructor].
    assert (∀ l, omap written (attempt st message <$> l) = l) as ->; [|done].
    induction l as [|w l IH]; [done|]. rewrite fmap_cons. simpl.
    unfold attempt at 1. destruct (send_ok st w); simpl; f_equal; apply IH.
  - intros ws c m room Hm. rewrite !members_of_joinRoom by done.
    apply set_add_again.
Qed.

Lemma room_members_distinct_witness :
  let r := {| members := ["client_a"]; roomTable := Undefined;
              roomFilters := Undefined; createdAt := 0 |} in
  rooms_get (JStr "lobby") (rooms demo_joined) = Some r
  ∧ NoDup (members r)
  ∧ NoDup (omap (recipient demo_joined) (members r)).
Proof.
  intros r.
  assert (rooms_get (JStr "lobby") (rooms demo_joined) = Some r) as G
    by (by vm_compute).
  split; [exact G|].
  destruct (room_members_distinct demo_joined (JStr "lobby") r)
    as (H1 & H2 & _).
  - repeat constructor.
  - exact G.
  - exact (conj H1 H2).
Defined.

(** ** Rooms under a key that is an object *)

Lemma rooms_has_object k rs : is_object k → rooms_has k rs = false.
Proof.
  intros Hk. unfold rooms_has, is_key.
  induction rs as [|[k0 r0] rs IH]; [done|]. simpl. rewrite IH.
  destruct k; try done; by destruct k0.
Qed.



(** ** Frames the router has no case for *)

Lemma eqb_not_known type :
  type ∉ known_types →
  String.eqb type "auth" = false ∧ String.eqb type "sensor_data" = false
  ∧ String.eqb type "heartbeat" = false ∧ String.eqb type "ping" = false
  ∧ String.eqb type "db_create" = false ∧ String.eqb type "db_read" = false
  ∧ String.eqb type "db_update" = false ∧ String.eqb type "db_delete" = false
  ∧ String.eqb type "db_subscribe" = false
  ∧ String.eqb type "db_unsubscribe" = false
  ∧ String.eqb type "join_room" = false
  ∧ String.eqb type "leave_room" = false.
Proof.
  unfold known_types. intros H. rewrite !not_elem_of_cons in H.
  repeat split; apply String.eqb_neq; tauto.
Qed.



(** ** A connection below the ceiling *)

(** X19.  A connection that arrives at a running server whose count is below
    [maxConnections] is accepted: its socket becomes the last key of
    [clients], the count grows by one, the listeners of the socket hold a
    new session under the identity drawn for it, authenticated from the
    start exactly when the handler asks for no authentication, the heartbeat
    interval runs when heartbeats are enabled, and the socket is sent one
    frame, the welcome that names the identity and says whether
    authentication is required.  The rooms are as before. *)
Theorem connection_accepted_below_ceiling ws clientIP agent clientId st :
  isRunning st = true → sockets st !! ws = None →
  (connectionCount st < maxConnections (config st))%Z →
  let st' := step (Connection ws clientIP agent clientId) st in
  let c := accepted clientIP agent clientId st in
  clients st' = clients st ++ [ws]
  ∧ connectionCount st' = (connectionCount st + 1)%Z
  ∧ sockets st' !! ws
    = Some {| readyState := OPEN; sendThrows := false; session := Some c;
              heartbeatTimer := enableHeartbeat (config st);
              authTimers := 0 |}
  ∧ listening ws st' = Some c
  ∧ trace st'
    = trace st
      ++ Send ws
           (frame st "welcome"
              [("clientId", Own (JStr clientId));
               ("authRequired",
                Own (JBool (enableAuthentication (config st))))])
      :: (if mainWindow st
          then [Renderer "websocket-client-connected"
                  (notice st
                     [("clientId", Own (JStr clientId));
                      ("ip", Own (JStr clientIP));
                      ("userAgent", Own (JStr (userAgent c)));
                      ("totalConnections",
                       Own (JNum (connectionCount st + 1)))])]
          else [])
  ∧ rooms st' = rooms st.
Proof.
  intros Hrun Hn Hlt st' c.
  assert (st' = _handleNewConnection ws clientIP agent clientId
                  (set_sockets (<[ws:=fresh_socket]> (sockets st)) st))
    as ->.
  { subst st'. simpl. by rewrite Hrun, Hn. }
  set (st0 := set_sockets (<[ws:=fresh_socket]> (sockets st)) st).
  assert ((maxConnections (config st0) <=? connectionCount st0)%Z = false)
    as Hle by (by apply Z.leb_gt).
  assert (sockets (_handleNewConnection ws clientIP agent clientId st0) !! ws
          = Some {| readyState := OPEN; sendThrows := false;
                    session := Some c;
                    heartbeatTimer := enableHeartbeat (config st);
                    authTimers := 0 |}) as Hs.
  { rewrite sockets_handleNewConnection, Hle. subst st0. simpl.
    rewrite lookup_insert_eq. simpl.
    by destruct (enableHeartbeat (config st)). }
  split; [|split; [|split; [|split; [|split]]]].
  - by rewrite clients_handleNewConnection, Hle.
  - destruct (registry_handleNewConnection ws clientIP agent clientId st0)
      as [(Hge & _)|(_ & _ & ->)]; [|done].
    subst st0. simpl in Hge. lia.
  - done.
  - unfold listening. by rewrite Hs.
  - unfold _handleNewConnection. rewrite Hle. cbv zeta.
    unfold _sendToRenderer, _sendToClient, ws_send, is_open,
      _startClientHeartbeat.
    subst st0. simpl.
    destruct (enableHeartbeat (config st)); simpl;
      rewrite ?lookup_alter_eq, lookup_insert_eq; simpl.
    all: destruct (mainWindow st); simpl; by rewrite <- ?app_assoc.
  - unfold _handleNewConnection, _startClientHeartbeat.
    rewrite Hle. by frame.
Qed.

Lemma connection_accepted_below_ceiling_witness :
  clients (step (Connection 2 "10.0.0.2" None "client_b") demo_joined)
  = clients demo_joined ++ [2]
  ∧ connectionCount (step (Connection 2 "10.0.0.2" None "client_b")
                       demo_joined)
    = (connectionCount demo_joined + 1)%Z.
Proof.
  destruct (connection_accepted_below_ceiling 2 "10.0.0.2" None "client_b"
              demo_joined) as (H1 & H2 & _).
  - by vm_compute.
  - by vm_compute.
  - by vm_compute.
  - exact (conj H1 H2).
Defined.

(** ** Leaving the room of a table *)

Lemma feeds_sendToClient ws m st : feeds (_sendToClient ws m st) = feeds st.
Proof. unfold _sendToClient, ws_send. by repeat case_match. Qed.

Lemma rooms_leave_feeds k x st :
  dbSubscriptions (rooms_leave k x (fun s => s) st) = dbSubscriptions st
  ∧ feeds (rooms_leave k x (fun s => s) st) = feeds st
  ∧ trace (rooms_leave k x (fun s => s) st) = trace st.
Proof. unfold rooms_leave. by repeat case_match. Qed.

(** X20.  [leave_room] never cancels a change feed.  It leaves the feeds, and
    the record of which room has one, as they are, also when the room it
    empties and removes is the room [db_<table>] of a subscribed table: the
    feed of that table then stays open with no room to broadcast to, and
    stays recorded. *)
Theorem leave_room_keeps_feed ws c m st :
  let st' := _handleLeaveRoom ws c m st in
  dbSubscriptions st' = dbSubscriptions st
  ∧ feeds st' = feeds st
  ∧ cancelled (trace st') = cancelled (trace st)
  ∧ ∀ room feed,
      names_room m room → dbSubscriptions st !! room = Some feed →
      members_of (JStr room) st = [id c] →
      rooms_has (JStr room) (rooms st') = false
      ∧ dbSubscriptions st' !! room = Some feed.
Proof.
  intros st'.
  assert (dbSubscriptions st' = dbSubscriptions st ∧ feeds st' = feeds st
          ∧ cancelled (trace st') = cancelled (trace st)) as (Hd & Hf & Hc).
  { subst st'. unfold _handleLeaveRoom. case_match; [by repeat split|].
    destruct (rooms_leave_feeds (prop_value (js_get (body_of m) "roomId"))
                (id c) st) as (Hd & Hf & Ht).
    rewrite dbSubscriptions_sendToClient, feeds_sendToClient,
      cancelled_sendToClient.
    by rewrite Hd, Hf, Ht. }
  split; [done|]. split; [done|]. split; [done|].
  intros room feed [Hm Hr] Hsub Hmem. split; [|by rewrite Hd].
  unfold members_of in Hmem.
  destruct (rooms_get (JStr room) (rooms st)) as [r0|] eqn:G0; [|done].
  assert (rooms_has (JStr room) (rooms st) = true) as Hhas
    by (apply rooms_has_get; by eexists).
  assert (set_delete (id c) [id c] = []) as Hnil.
  { unfold set_delete. by rewrite filter_cons, decide_False by auto. }
  subst st'. unfold _handleLeaveRoom.
  rewrite Hm, truthy_string by done. simpl. rewrite Hhas. simpl.
  rewrite rooms_sendToClient, rooms_rooms_leave by done.
  rewrite G0. simpl. rewrite Hmem, Hnil. simpl.
  apply not_true_is_false. intros [r G]%rooms_has_get.
  by rewrite rooms_get_delete in G.
Qed.

Lemma leave_room_keeps_feed_witness :
  let m := JObj [("type", JStr "leave_room"); ("roomId", JStr "db_sensors")] in
  let st' := _handleLeaveRoom 1 demo_client m demo_subscribed in
  rooms_has (JStr "db_sensors") (rooms st') = false
  ∧ dbSubscriptions st' !! "db_sensors" = Some 0.
Proof.
  intros m st'.
  destruct (leave_room_keeps_feed 1 demo_client m demo_subscribed)
    as (_ & _ & _ & H).
  apply (H "db_sensors" 0).
  - split; [by vm_compute | done].
  - by vm_compute.
  - by vm_compute.
Defined.

(** ** What the logger prints *)

Lemma own_level_known name z :
  AlertManager.own_level AlertManager.logLevels name = Some z →
  name ∈ ["error"; "warn"; "info"; "debug"; "trace"] ∧ (0 ≤ z ≤ 4)%Z.
Proof.
  unfold AlertManager.logLevels. cbn [AlertManager.own_level]. intros H.
  repeat match type of H with
         | (if String.eqb ?k name then _ else _) = _ =>
             destruct (String.eqb k name) eqn:E;
               [ apply String.eqb_eq in E as <-; injection H as <-;
                 split; [rewrite !elem_of_cons; tauto | lia]
               | clear E ]
         end.
  done.
Qed.

(** X21.  Whether a message is printed depends on [LOG_LEVEL] as follows.
    When it is one of [error], [warn], [info], [debug], [trace], written
    exactly so, errors are always printed and a message is printed when its
    level is at most as verbose as the threshold; unset or empty, it stands
    for [info].  When it is any other text ([warning], [INFO], ...), nothing
    is printed at all, errors included.  The handler's [_log] logs a level
    it has no case for as [info] messages are logged. *)
Theorem log_threshold logLevel :
  (logLevel ∈ ["error"; "warn"; "info"; "debug"; "trace"] →
   AlertManager.shouldLog logLevel AlertManager.ERROR = true
   ∧ ∀ level z,
       AlertManager.own_level AlertManager.logLevels logLevel = Some z →
       AlertManager.shouldLog logLevel level
       = match level with
         | AlertManager.ERROR => true
         | AlertManager.WARN => (1 <=? z)%Z
         | AlertManager.INFO => (2 <=? z)%Z
         | AlertManager.DEBUG => (3 <=? z)%Z
         end)
  ∧ (logLevel ∉ ["error"; "warn"; "info"; "debug"; "trace"] →
     ∀ level, AlertManager.shouldLog logLevel level = false)
  ∧ AlertManager.constructor None = "info"
  ∧ AlertManager.constructor (Some "") = "info"
  ∧ (∀ level,
       level ∉ ["debug"; "info"; "warn"; "error"] →
       AlertManager.prints logLevel (_log level)
       = AlertManager.shouldLog logLevel AlertManager.INFO).
Proof.
  split; [|split; [|split; [done|split; [done|]]]].
  - intros Hin.
    repeat (apply elem_of_cons in Hin as [->|Hin]);
      [..|by apply not_elem_of_nil in Hin].
    all: split; [done|]; intros level z [= <-]; by destruct level.
  - intros Hnot level. unfold AlertManager.shouldLog.
    destruct (AlertManager.own_level AlertManager.logLevels logLevel)
      as [z|] eqn:E; [|by repeat case_match].
    by apply own_level_known in E as [E _].
  - intros level Hnot. unfold _log. rewrite !not_elem_of_cons in Hnot.
    destruct Hnot as (H1 & H2 & H3 & H4 & _).
    by rewrite !(proj2 (String.eqb_neq _ _)) by done.
Qed.

Lemma log_threshold_witness :
  AlertManager.shouldLog "warning" AlertManager.ERROR = false.
Proof.
  destruct (log_threshold "warning") as (_ & H & _).
  apply H. rewrite !not_elem_of_cons. repeat split; try done.
  apply not_elem_of_nil.
Defined.

(** ** The subscriptions of the database adapter *)

Section Adapter.

Import DatabaseAdapter.

Lemma adapter_map_get_None k m : map_get k m = None ↔ k ∉ (fst <$> m).
Proof.
  unfold map_get. induction m as [|[k0 v0] m IH]; simpl.
  - split; [intros _; apply not_elem_of_nil | done].
  - rewrite not_elem_of_cons. destruct (String.eqb k0 k) eqn:E; simpl.
    + apply String.eqb_eq in E as ->. split; [done | by intros [? _]].
    + apply String.eqb_neq in E. rewrite IH. split; [|by intros [_ ?]].
      intros H. split; [by intros ->|done].
Qed.

Lemma adapter_map_set_fresh k v m :
  k ∉ (fst <$> m) → map_set k v m = m ++ [(k, v)].
Proof.
  induction m as [|[k0 v0] m IH]; simpl; [done|].
  rewrite not_elem_of_cons. intros [Hne Hnot].
  rewrite (proj2 (String.eqb_neq k0 k)) by done. by rewrite IH.
Qed.

Lemma adapter_map_delete_absent k m : k ∉ (fst <$> m) → map_delete k m = m.
Proof.
  unfold map_delete. induction m as [|[k0 v0] m IH]; simpl; [done|].
  rewrite not_elem_of_cons. intros [Hne Hnot].
  rewrite (proj2 (String.eqb_neq k0 k)) by done. simpl. by rewrite IH.
Qed.

Lemma adapter_map_get_split k v m :
  NoDup (fst <$> m) → map_get k m = Some v →
  ∃ m1 m2, m = m1 ++ (k, v) :: m2 ∧ map_delete k m = m1 ++ m2.
Proof.
  unfold map_get, map_delete. induction m as [|[k0 v0] m IH]; simpl; [done|].
  rewrite NoDup_cons. intros [Hk0 Hd].
  destruct (String.eqb k0 k) eqn:E; simpl.
  - apply String.eqb_eq in E as ->. intros [= ->]. exists [], m.
    split; [done|]. by apply (adapter_map_delete_absent k m).
  - intros H. destruct (IH Hd H) as (m1 & m2 & -> & Hdel).
    exists ((k0, v0) :: m1), m2. split; [done|]. simpl. by rewrite Hdel.
Qed.

Lemma adapter_opened_app t1 t2 : opened (t1 ++ t2) = opened t1 ++ opened t2.
Proof. apply omap_app. Qed.

Lemma adapter_cancelled_app t1 t2 :
  DatabaseAdapter.cancelled (t1 ++ t2)
  = DatabaseAdapter.cancelled t1 ++ DatabaseAdapter.cancelled t2.
Proof. apply omap_app. Qed.

Lemma adapter_opened_unsubscribed (m : list (string * Subscription)) :
  opened ((fun e => Unsubscribed (feed (snd e))) <$> m) = [].
Proof. by induction m. Qed.

Lemma adapter_cancelled_unsubscribed (m : list (string * Subscription)) :
  DatabaseAdapter.cancelled ((fun e => Unsubscribed (feed (snd e))) <$> m)
  = (fun e => feed (snd e)) <$> m.
Proof.
  induction m as [|e m IH]; [done|]. rewrite !fmap_cons.
  unfold DatabaseAdapter.cancelled in *. simpl. f_equal. apply IH.
Qed.

Lemma adapter_accounted_reachable st : reachable st → accounted st.
Proof.
  induction 1 as [?|table stamp clock st _ (Ho & Hd & Hp) Hfresh
                  |k st _ (Ho & Hd & Hp)|st _ (Ho & Hd & Hp)].
  - split; [done|]. split; [constructor | done].
  - unfold subscribe. destruct (firebase st); [|done].
    apply adapter_map_get_None in Hfresh. unfold accounted, stored.
    cbn [fst trace nextFeed subscriptions].
    rewrite adapter_map_set_fresh by done.
    unfold opened, cancelled in *. rewrite !omap_app, !fmap_app.
    cbn [omap list_omap fmap list_fmap fst snd feed].
    rewrite app_nil_r. split; [|split].
    + by rewrite Ho, seq_S.
    + apply NoDup_app. split; [done|]. split; [|apply NoDup_singleton].
      by intros x Hx ->%list_elem_of_singleton.
    + rewrite Hp. unfold stored. by rewrite app_assoc.
  - unfold unsubscribe.
    destruct (map_get k (subscriptions st)) as [v|] eqn:G; [|done].
    destruct (adapter_map_get_split k v _ Hd G) as (m1 & m2 & Hm & Hdel).
    unfold accounted, stored in *. simpl. rewrite Hdel.
    unfold opened, cancelled in *. rewrite !omap_app. simpl.
    rewrite app_nil_r. split; [done|]. split.
    + rewrite Hm, fmap_app, fmap_cons in Hd.
      rewrite fmap_app. apply NoDup_app in Hd as (H1 & H2 & H3).
      apply NoDup_cons in H3 as [_ H3]. apply NoDup_app.
      split; [done|]. split; [|done].
      intros x Hx Hx'. apply (H2 x Hx). by right.
    + rewrite Hp, Hm, !fmap_app, fmap_cons. simpl.
      rewrite <- !app_assoc. f_equiv. simpl.
      by rewrite Permutation_middle.
  - unfold accounted, stored, unsubscribeAll in *. simpl.
    rewrite adapter_opened_app, adapter_cancelled_app,
      adapter_opened_unsubscribed, adapter_cancelled_unsubscribed,
      !app_nil_r.
    split; [done|]. split; [constructor | done].
Qed.

(** X22.  A subscription made through the adapter, under an identifier that
    is not in use, can be cancelled once: the first [unsubscribe] with the
    identifier returned calls the cancel function the store returned for
    that subscription, removes the entry and returns [true]; a second one
    finds nothing, calls nothing and returns [false].  Without the Firebase
    store [subscribe] opens nothing and returns [null] for the identifier. *)
Theorem adapter_unsubscribe_once table stamp clock st :
  let subscriptionId := js_String table +:+ "_" +:+ stamp in
  map_get subscriptionId (subscriptions st) = None →
  let st1 := fst (subscribe table stamp clock st) in
  (firebase st = false → subscribe table stamp clock st = (st, None))
  ∧ (firebase st = true →
     snd (subscribe table stamp clock st) = Some subscriptionId
     ∧ trace st1 = trace st ++ [Subscribed table (nextFeed st)]
     ∧ snd (unsubscribe subscriptionId st1) = true
     ∧ let st2 := fst (unsubscribe subscriptionId st1) in
       trace st2 = trace st1 ++ [Unsubscribed (nextFeed st)]
       ∧ subscriptions st2 = subscriptions st
       ∧ unsubscribe subscriptionId st2 = (st2, false)).
Proof.
  intros k Hfresh st1. subst st1. unfold subscribe. fold k.
  split; [by intros ->|]. intros Hf. rewrite Hf. simpl.
  apply adapter_map_get_None in Hfresh.
  assert (map_get k
            (map_set k {| feed := nextFeed st; tableName := table;
                          createdAt := clock |} (subscriptions st))
          = Some {| feed := nextFeed st; tableName := table;
                    createdAt := clock |}) as G.
  { rewrite adapter_map_set_fresh by done. unfold map_get.
    apply adapter_map_get_None in Hfresh. unfold map_get in Hfresh.
    induction (subscriptions st) as [|[k0 v0] m IH]; simpl in *.
    - by rewrite String.eqb_refl.
    - destruct (String.eqb k0 k); [done | by apply IH]. }
  assert (map_delete k
            (map_set k {| feed := nextFeed st; tableName := table;
                          createdAt := clock |} (subscriptions st))
          = subscriptions st) as Hdel.
  { rewrite adapter_map_set_fresh by done. unfold map_delete.
    rewrite List.filter_app. simpl. rewrite String.eqb_refl. simpl.
    rewrite app_nil_r. by apply (adapter_map_delete_absent k). }
  unfold unsubscribe. simpl. rewrite G. simpl.
  split; [done|]. split; [done|]. split; [done|]. split; [done|].
  split; [done|]. rewrite Hdel.
  by rewrite (proj2 (adapter_map_get_None k (subscriptions st)) Hfresh).
Qed.

Lemma adapter_unsubscribe_once_witness :
  let st1 := fst (subscribe (JStr "sensors") "1700000000000_0.25" 0%Z
                    (constructor true)) in
  trace (fst (unsubscribe "sensors_1700000000000_0.25" st1))
  = [Subscribed (JStr "sensors") 0; Unsubscribed 0].
Proof.
  intros st1.
  destruct (adapter_unsubscribe_once (JStr "sensors") "1700000000000_0.25"
              0%Z (constructor true)) as [_ H]; [done|].
  destruct H as (_ & H1 & _ & H2 & _); [done|].
  subst st1. rewrite H1 in H2. exact H2.
Defined.

(** X23.  As long as no identifier drawn for a subscription is that of one
    stored, the adapter accounts for every feed it has opened: each is
    either still stored or has been cancelled, never both and never twice.
    After [unsubscribeAll], which [close] calls, nothing is stored: every
    feed opened has been cancelled, once, and every [unsubscribe] returns
    [false]. *)
Theorem adapter_feeds_accounted st :
  reachable st →
  NoDup (opened (trace st))
  ∧ opened (trace st) ≡ₚ cancelled (trace st) ++ stored st
  ∧ NoDup (cancelled (trace st) ++ stored st)
  ∧ (let st' := unsubscribeAll st in
     stored st' = []
     ∧ cancelled (trace st') ≡ₚ opened (trace st')
     ∧ ∀ subscriptionId, unsubscribe subscriptionId st' = (st', false)).
Proof.
  intros Hr. pose proof (adapter_accounted_reachable st Hr) as (Ho & Hd & Hp).
  assert (NoDup (opened (trace st))) as Hn
    by (rewrite Ho; apply NoDup_seq).
  split; [done|]. split; [done|]. split; [by rewrite <- Hp|].
  pose proof (adapter_accounted_reachable _ (reachable_unsubscribeAll st Hr))
    as (_ & _ & Hp').
  split; [done|]. split; [|done].
  rewrite Hp'. unfold stored. simpl. by rewrite app_nil_r.
Qed.

Lemma adapter_feeds_accounted_witness :
  let st := fst (subscribe (JStr "sensors") "1700000000000_0.25" 0%Z
                   (constructor true)) in
  NoDup (opened (trace st))
  ∧ opened (trace st) ≡ₚ cancelled (trace st) ++ stored st.
Proof.
  intros st.
  destruct (adapter_feeds_accounted st) as (H1 & H2 & _).
  - by repeat constructor.
  - exact (conj H1 H2).
Defined.

End Adapter.
